(** * Teams chat export: the content normalizer, the message filter,
      the pagination loop and the member-list display

    A shallow embedding of [teams_utils.py] and of the fetching and
    rendering methods of [TeamsExporter] in [teams_chat_export.py].

    Conventions of the embedding.
    - A Python [str] is a [string]; each [ascii] is one character, with
      code point below 256.
    - A JSON value delivered by the Graph API is a [json]; a JSON object
      is an association list, looked up like a Python [dict].
    - A Python exception is a [Raise] in the [result] monad.
    - Files, HTTP requests and console output live in a [world] that is
      passed through every effectful function.
    - Paths are those of [posixpath]; the working directory and the
      paths at which [open] raises are parameters of the normalizer. *)

From Stdlib Require Import String Ascii ZArith List Bool Lia DecimalString.
From Stdlib Require Import Sorting.Sorted Sorting.Permutation OrderedTypeEx.
From stdpp Require Import base option gmap strings.

Import ListNotations.
Set Warnings "-register-all".
Open Scope list_scope.
Open Scope string_scope.

(** ** Python strings *)

Module PyStr.

(** The double quote character and the one-character string of it. *)
Definition DQ : ascii := "034"%char.
Definition dq : string := String DQ EmptyString.

(** [sq s] is [s] with every apostrophe turned into a double quote; it
    is used to write markup literals legibly. *)
Fixpoint sq (s : string) : string :=
  match s with
  | EmptyString => EmptyString
  | String c s' => String (if Ascii.eqb c "'"%char then DQ else c) (sq s')
  end.

(** [str.isspace] on one character, for the code points below 256:
    TAB..CR, FS..US, SPACE, NEL and NBSP. *)
Definition is_space (c : ascii) : bool :=
  let n := nat_of_ascii c in
  (((9 <=? n) && (n <=? 13)) || ((28 <=? n) && (n <=? 32))
   || (n =? 133) || (n =? 160))%nat.

Fixpoint lstrip (s : string) : string :=
  match s with
  | String c s' => if is_space c then lstrip s' else s
  | EmptyString => EmptyString
  end.

(** [rstrip]: a trailing character is dropped when it is white space
    and everything after it has already been dropped. *)
Fixpoint rstrip (s : string) : string :=
  match s with
  | EmptyString => EmptyString
  | String c s' =>
      match rstrip s' with
      | EmptyString => if is_space c then EmptyString else String c EmptyString
      | r => String c r
      end
  end.

(** [s.strip()] *)
Definition strip (s : string) : string := rstrip (lstrip s).

(** [s.startswith(p)] *)
Fixpoint startswith (p s : string) : bool :=
  match p, s with
  | EmptyString, _ => true
  | String a p', String b s' => Ascii.eqb a b && startswith p' s'
  | String _ _, EmptyString => false
  end.

(** [s.endswith(p)] *)
Definition endswith (p s : string) : bool :=
  let lp := String.length p in
  let ls := String.length s in
  (lp <=? ls)%nat && String.eqb (substring (ls - lp) lp s) p.

(** [p in s] *)
Fixpoint contains (p s : string) : bool :=
  startswith p s
  || match s with
     | EmptyString => false
     | String _ s' => contains p s'
     end.

(** [s.replace(old, new)]: every occurrence of [old], found from the
    left and without overlap, becomes [new].  [skip] counts the
    characters of an occurrence still to be passed over.  With an empty
    [old], Python puts [new] before every character and at the end. *)
Fixpoint replace_from (old new s : string) (skip : nat) : string :=
  match s with
  | EmptyString =>
      match old with
      | EmptyString => new
      | _ => EmptyString
      end
  | String c s' =>
      match skip with
      | S n => replace_from old new s' n
      | O =>
          match old with
          | EmptyString => new ++ String c (replace_from old new s' 0)
          | String _ old' =>
              if startswith old s
              then new ++ replace_from old new s' (String.length old')
              else String c (replace_from old new s' 0)
          end
      end
  end.

Definition replace (old new s : string) : string := replace_from old new s 0.

(** [sep.join(l)] *)
Fixpoint join (sep : string) (l : list string) : string :=
  match l with
  | [] => EmptyString
  | [x] => x
  | x :: l' => x ++ sep ++ join sep l'
  end.

(** [str(n)] for a natural number and for an integer. *)
Definition str_nat (n : nat) : string := NilZero.string_of_uint (Nat.to_uint n).
Definition str_Z (z : Z) : string := NilZero.string_of_int (Z.to_int z).

(** The order of [<] on [str]: lexicographic on code points. *)
Definition lt (a b : string) : bool :=
  match String.compare a b with
  | Lt => true
  | _ => false
  end.

End PyStr.

(** ** The regular expressions of the source

    The patterns of [teams_utils.py] and [teams_chat_export.py] are
    sequences of single characters, character classes under [*], [+] and
    [?], one capture group and the anchor [$].  [exec] is the backtracking
    matcher of Python's [re] on that fragment: alternatives are tried in
    priority order (a greedy repetition takes as much as it can first, a
    lazy one as little), and the first complete match wins. *)

Module Re.

Import PyStr.

Inductive cclass : Type :=
| Chr (c : ascii)          (* the character itself *)
| NotIn (cs : list ascii)  (* [^...] *)
| Dot                      (* .  : anything but a newline *)
| Space.                   (* \s *)

Definition cmatch (k : cclass) (c : ascii) : bool :=
  match k with
  | Chr a => Ascii.eqb a c
  | NotIn cs => negb (existsb (Ascii.eqb c) cs)
  | Dot => negb (Ascii.eqb c "010"%char)
  | Space => is_space c
  end.

Inductive item : Type :=
| One (k : cclass)
| Star (k : cclass)      (* k*  *)
| LazyStar (k : cclass)  (* k*? *)
| Plus (k : cclass)      (* k+  *)
| Opt (k : cclass)       (* k?  *)
| GOpen                  (* (   *)
| GClose                 (* )   *)
| Eos.                   (* $   *)

Definition regex : Type := list item.

(** A literal piece of a pattern. *)
Fixpoint lit (s : string) : regex :=
  match s with
  | EmptyString => []
  | String c s' => One (Chr c) :: lit s'
  end.

(** The text of group 1: [open] while the matcher is between the
    parentheses. *)
Record capture : Type := MkCapture { open : bool; text : string }.

Definition no_capture : capture := MkCapture false EmptyString.

Definition push (g : capture) (c : ascii) : capture :=
  if open g then MkCapture true (text g ++ String c EmptyString) else g.

(** A successful match: group 1 and the unread rest of the subject. *)
Definition outcome : Type := capture * string.

Definition cont : Type := string -> capture -> option outcome.

Fixpoint star (k : cclass) (next : cont) (s : string) (g : capture)
  : option outcome :=
  match s with
  | String c s' =>
      if cmatch k c then
        match star k next s' (push g c) with
        | Some r => Some r
        | None => next s g
        end
      else next s g
  | EmptyString => next s g
  end.

Fixpoint lazy_star (k : cclass) (next : cont) (s : string) (g : capture)
  : option outcome :=
  match next s g with
  | Some r => Some r
  | None =>
      match s with
      | String c s' =>
          if cmatch k c then lazy_star k next s' (push g c) else None
      | EmptyString => None
      end
  end.

Definition one (k : cclass) (next : cont) : cont :=
  fun s g =>
    match s with
    | String c s' => if cmatch k c then next s' (push g c) else None
    | EmptyString => None
    end.

Definition opt (k : cclass) (next : cont) : cont :=
  fun s g =>
    match one k next s g with
    | Some r => Some r
    | None => next s g
    end.

(** [$]: the end of the subject, or just before its final newline. *)
Definition at_end (s : string) : bool :=
  match s with
  | EmptyString => true
  | String c EmptyString => Ascii.eqb c "010"%char
  | _ => false
  end.

Fixpoint exec (p : regex) : cont :=
  match p with
  | [] => fun s g => Some (g, s)
  | One k :: p' => one k (exec p')
  | Star k :: p' => star k (exec p')
  | LazyStar k :: p' => lazy_star k (exec p')
  | Plus k :: p' => one k (star k (exec p'))
  | Opt k :: p' => opt k (exec p')
  | GOpen :: p' => fun s _ => exec p' s (MkCapture true EmptyString)
  | GClose :: p' => fun s g => exec p' s (MkCapture false (text g))
  | Eos :: p' => fun s g => if at_end s then exec p' s g else None
  end.

(** [re.match(p, s)]: a match anchored at the start of [s]. *)
Definition match_at (p : regex) (s : string) : option outcome :=
  exec p s no_capture.

(** The number of characters a match starting at [s] has read. *)
Definition consumed (s : string) (r : outcome) : nat :=
  String.length s - String.length (snd r).

(** A replacement template: literal text and [\1]. *)
Inductive piece : Type :=
| Text (s : string)
| Group1.

Fixpoint expand (t : list piece) (g : string) : string :=
  match t with
  | [] => EmptyString
  | Text s :: t' => s ++ expand t' g
  | Group1 :: t' => g ++ expand t' g
  end.

(** [re.sub(p, t, s)]: the subject is scanned from the left; where the
    pattern matches, the expanded template is written and the scan
    resumes after the match ([skip] counts the characters of the match
    still to be passed over); elsewhere the character is copied.  An
    empty match writes the template and copies the character. *)
Fixpoint sub_from (p : regex) (t : list piece) (s : string) (skip : nat)
  : string :=
  match s with
  | EmptyString =>
      match match_at p EmptyString with
      | Some r => expand t (text (fst r))
      | None => EmptyString
      end
  | String c s' =>
      match skip with
      | S n => sub_from p t s' n
      | O =>
          match match_at p s with
          | Some r =>
              match consumed s r with
              | O => expand t (text (fst r)) ++ String c (sub_from p t s' 0)
              | S n => expand t (text (fst r)) ++ sub_from p t s' n
              end
          | None => String c (sub_from p t s' 0)
          end
      end
  end.

Definition sub (p : regex) (t : list piece) (s : string) : string :=
  sub_from p t s 0.

(** [re.findall(p, s)] for a pattern with one group: the texts of group
    1 of the successive matches, from the left and without overlap. *)
Fixpoint findall_from (p : regex) (s : string) (skip : nat) : list string :=
  match s with
  | EmptyString =>
      match match_at p EmptyString with
      | Some r => [text (fst r)]
      | None => []
      end
  | String c s' =>
      match skip with
      | S n => findall_from p s' n
      | O =>
          match match_at p s with
          | Some r => text (fst r) :: findall_from p s' (pred (consumed s r))
          | None => findall_from p s' 0
          end
      end
  end.

Definition findall (p : regex) (s : string) : list string :=
  findall_from p s 0.

End Re.

(** ** The text transformations of [teams_utils.py] *)

Section Markup.

Import PyStr Re.

(** The patterns, as the source writes them, with an apostrophe here
    where the source has a double quote.

    [<emoji[^>]*alt='([^']+)'[^>]*>.*?</emoji>] *)
Definition EMOJI_TAG : regex :=
  (lit "<emoji" ++ [Star (NotIn [">"%char])] ++ lit "alt=" ++ [One (Chr DQ)]
  ++ [GOpen; Plus (NotIn [DQ]); GClose] ++ [One (Chr DQ)]
  ++ [Star (NotIn [">"%char])] ++ lit ">" ++ [LazyStar Dot] ++ lit "</emoji>")%list.

(** [<img[^>]+src='([^']+)'] *)
Definition IMG_SRC : regex :=
  (lit "<img" ++ [Plus (NotIn [">"%char])] ++ lit "src=" ++ [One (Chr DQ)]
  ++ [GOpen; Plus (NotIn [DQ]); GClose] ++ [One (Chr DQ)])%list.

(** [<img[^>]*src='([^']+)'[^>]*>] *)
Definition IMG_TAG : regex :=
  (lit "<img" ++ [Star (NotIn [">"%char])] ++ lit "src=" ++ [One (Chr DQ)]
  ++ [GOpen; Plus (NotIn [DQ]); GClose] ++ [One (Chr DQ)]
  ++ [Star (NotIn [">"%char])] ++ lit ">")%list.

(** [<img src='([^']+)'\s*/?>] *)
Definition CLEAN_IMG : regex :=
  (lit "<img src=" ++ [One (Chr DQ)]
  ++ [GOpen; Plus (NotIn [DQ]); GClose] ++ [One (Chr DQ)]
  ++ [Star Space; Opt (Chr "/"%char)] ++ lit ">")%list.

(** [<[^>]+>] *)
Definition ANY_TAG : regex :=
  (lit "<" ++ [Plus (NotIn [">"%char])] ++ lit ">")%list.

(** [^<attachment id='[^']*'></attachment>$], used with [re.match]. *)
Definition BARE_ATTACHMENT : regex :=
  (lit "<attachment id=" ++ [One (Chr DQ)] ++ [Star (NotIn [DQ])]
  ++ [One (Chr DQ)] ++ lit "></attachment>" ++ [Eos])%list.

Definition replace_emoji_tags (text : string) : string :=
  sub EMOJI_TAG [Group1] text.

Definition clean_img_tags (content : string) : string :=
  sub IMG_TAG [Text ("<img src=" ++ dq); Group1; Text (dq ++ ">")] content.

Definition wrap_images_with_lightbox (content : string) : string :=
  sub CLEAN_IMG
      [Text ("<a href=" ++ dq); Group1;
       Text (dq ++ " class=" ++ dq ++ "lightbox" ++ dq ++ "><img src=" ++ dq);
       Group1; Text (dq ++ "></a>")]
      content.

(** [re.sub(ANY_TAG, '', s)] *)
Definition strip_tags (s : string) : string := sub ANY_TAG [] s.

(** [re.findall(IMG_SRC, s)] *)
Definition img_matches (s : string) : list string := findall IMG_SRC s.

End Markup.

(** ** JSON values, exceptions and the world *)

(** What [response.json()] delivers.  Numbers are the integers; an object
    keeps its members in order, each key once. *)
Inductive json : Type :=
| JNull
| JBool (b : bool)
| JNum (n : Z)
| JStr (s : string)
| JList (l : list json)
| JDict (d : list (string * json)).

(** A raised Python exception, with the text [str(e)] gives. *)
Inductive pyexn : Type :=
| AttributeError (msg : string)
| TypeError (msg : string)
| RequestError (msg : string).

Definition exn_text (e : pyexn) : string :=
  match e with
  | AttributeError m | TypeError m | RequestError m => m
  end.

Inductive result (A : Type) : Type :=
| Ok (a : A)
| Raise (e : pyexn).

Arguments Ok {A} a.
Arguments Raise {A} e.

Definition rbind {A B : Type} (r : result A) (f : A -> result B) : result B :=
  match r with
  | Ok a => f a
  | Raise e => Raise e
  end.

Notation "'do' x <- r ; k" := (rbind r (fun x => k))
  (at level 10, x name, r at level 100, k at level 200).

Module Py.

(** Truth value of a JSON value in a condition. *)
Definition truthy (v : json) : bool :=
  match v with
  | JNull => false
  | JBool b => b
  | JNum n => negb (n =? 0)%Z
  | JStr s => negb (String.eqb s EmptyString)
  | JList l => match l with [] => false | _ => true end
  | JDict d => match d with [] => false | _ => true end
  end.

Definition type_name (v : json) : string :=
  match v with
  | JNull => "NoneType"
  | JBool _ => "bool"
  | JNum _ => "int"
  | JStr _ => "str"
  | JList _ => "list"
  | JDict _ => "dict"
  end.

Definition no_attribute (v : json) (attr : string) : pyexn :=
  AttributeError ("'" ++ type_name v ++ "' object has no attribute '" ++ attr ++ "'").

Fixpoint lookup (k : string) (d : list (string * json)) : option json :=
  match d with
  | [] => None
  | (k', v) :: d' => if String.eqb k k' then Some v else lookup k d'
  end.

(** [v.get(k)]: [None] of Python is [JNull]. *)
Definition get (v : json) (k : string) : result json :=
  match v with
  | JDict d => Ok (default JNull (lookup k d))
  | _ => Raise (no_attribute v "get")
  end.

(** [v.get(k, dflt)] *)
Definition get_or (v : json) (k : string) (dflt : json) : result json :=
  match v with
  | JDict d => Ok (default dflt (lookup k d))
  | _ => Raise (no_attribute v "get")
  end.

(** [isinstance(v, dict)] *)
Definition is_dict (v : json) : bool :=
  match v with
  | JDict _ => true
  | _ => false
  end.

(** [v == s] for a string literal [s]. *)
Definition eq_str (v : json) (s : string) : bool :=
  match v with
  | JStr s' => String.eqb s' s
  | _ => false
  end.

Fixpoint chars (s : string) : list json :=
  match s with
  | EmptyString => []
  | String c s' => JStr (String c EmptyString) :: chars s'
  end.

(** The elements [list.extend(v)] appends. *)
Definition iterate (v : json) : result (list json) :=
  match v with
  | JList l => Ok l
  | JStr s => Ok (chars s)
  | JDict d => Ok (map (fun kv => JStr (fst kv)) d)
  | _ => Raise (TypeError ("'" ++ type_name v ++ "' object is not iterable"))
  end.

(** [v.strip()], [v] being the value of a body's content. *)
Definition strip (v : json) : result string :=
  match v with
  | JStr s => Ok (PyStr.strip s)
  | _ => Raise (no_attribute v "strip")
  end.

End Py.

(** An HTTP response: [status_code], [content], and what [json()] gives
    (the text of the exception it raises when the body is not JSON). *)
Record response : Type := MkResponse {
  status_code : Z;
  content : string;
  json_body : string + json
}.

(** [requests.get]: for each URL a response, or the text of the exception
    raised.  The URL is whatever value the caller passes. *)
Definition http : Type := json -> response + string.

(** The files present (path to content), the GET requests sent so far and
    the lines printed, oldest first. *)
Record world : Type := MkWorld {
  files : gmap string string;
  requests : list json;
  stdout : list string
}.

Definition send (url : json) (w : world) : world :=
  MkWorld (files w) (requests w ++ [url]) (stdout w).

Definition print (line : string) (w : world) : world :=
  MkWorld (files w) (requests w) (stdout w ++ [line]).

Definition write_file (path data : string) (w : world) : world :=
  MkWorld (<[path := data]> (files w)) (requests w) (stdout w).

Definition path_exists (path : string) (w : world) : bool :=
  bool_decide (is_Some (files w !! path)).

(** ** The content normalizer ([teams_utils.py]) *)

Section Normalizer.

Import PyStr.

(** [html.unescape] returns a string without an ampersand as it is, and
    otherwise substitutes the character references by a table of the
    Python library; [charref_sub] is that substitution. *)
Variable charref_sub : string -> string.

(** The network the exporter talks to. *)
Variable net : http.

Definition html_unescape (s : string) : string :=
  if contains "&" s then charref_sub s else s.

(** [os.path.join(folder, filename)] *)
Definition path_join (folder filename : string) : string :=
  if startswith "/" filename then filename
  else if String.eqb folder EmptyString || endswith "/" folder
       then folder ++ filename
       else folder ++ "/" ++ filename.

(** [os.path.join(a, *p)]: the steps of its loop, one for each further
    component. *)
Definition join_all (a : string) (p : list string) : string :=
  fold_left path_join p a.

(** [path.split('/')] *)
Fixpoint split_sep (path : string) : list string :=
  match path with
  | EmptyString => [EmptyString]
  | String c path' =>
      if Ascii.eqb c "/" then EmptyString :: split_sep path'
      else
        match split_sep path' with
        | comp :: comps => String c comp :: comps
        | [] => [String c EmptyString]
        end
  end.

(** The number of slashes that [os.path.normpath] keeps in front: POSIX
    allows one or two, and three or more count as one. *)
Definition initial_slashes (path : string) : nat :=
  if startswith "/" path then
    if startswith "//" path && negb (startswith "///" path) then 2 else 1
  else 0.

(** The loop of [normpath] over the components; [new_comps] is the list
    built so far with its last element first, so that [append] is a cons
    and [pop] drops the head. *)
Fixpoint norm_comps (initial : nat) (comps new_comps : list string)
  : list string :=
  match comps with
  | [] => rev new_comps
  | comp :: comps' =>
      if String.eqb comp EmptyString || String.eqb comp "." then
        norm_comps initial comps' new_comps
      else if negb (String.eqb comp "..")
              || ((initial =? 0)%nat
                  && match new_comps with [] => true | _ => false end)
              || match new_comps with
                 | top :: _ => String.eqb top ".."
                 | [] => false
                 end
      then norm_comps initial comps' (comp :: new_comps)
      else norm_comps initial comps' (tl new_comps)
  end.

(** [os.path.normpath(path)] *)
Definition normpath (path : string) : string :=
  if String.eqb path EmptyString then "." else
  let initial := initial_slashes path in
  let comps := norm_comps initial (split_sep path) [] in
  let path :=
    match initial with
    | 0 => join "/" comps
    | 1 => "/" ++ join "/" comps
    | _ => "//" ++ join "/" comps
    end in
  if String.eqb path EmptyString then "." else path.

(** [os.path.abspath(path)], with [cwd] for [os.getcwd()]. *)
Definition abspath (cwd path : string) : string :=
  normpath (if startswith "/" path then path else path_join cwd path).

(** [len(os.path.commonprefix([l1, l2]))] on two lists. *)
Fixpoint common (l1 l2 : list string) : nat :=
  match l1, l2 with
  | x :: l1', y :: l2' => if String.eqb x y then S (common l1' l2') else 0
  | _, _ => 0
  end.

(** The components of a path that are not empty:
    [[x for x in abspath(p).split(sep) if x]]. *)
Definition path_list (cwd p : string) : list string :=
  List.filter (fun x => negb (String.eqb x EmptyString))
              (split_sep (abspath cwd p)).

(** [os.path.relpath(path, start)] for a [path] that is not empty (for
    the empty path the library raises [ValueError]; the paths of the
    exporter end in [.jpg]). *)
Definition relpath (cwd path start : string) : string :=
  let start_list := path_list cwd start in
  let path_list := path_list cwd path in
  let i := common start_list path_list in
  let rel_list :=
    (repeat ".." (length start_list - i) ++ skipn i path_list)%list in
  match rel_list with
  | [] => "."
  | a :: p => join_all a p
  end.

(** [os.path.dirname('index.html')] is the empty string. *)
Definition INDEX_DIR : string := EmptyString.

(** What [with open(local_path, 'wb') as f: f.write(content)] can do:
    [open_error] gives, for a path, the text of the exception that
    [open] raises there (the folder is missing, the path is a directory,
    access is denied), or [None] when the file can be opened; a file
    that has been opened is written in full. *)
Variable open_error : string -> option string.

(** The working directory, [os.getcwd()]. *)
Variable cwd : string.

(** [download_image_from_src]: [None] when the request or the write
    raised, else the path of the file relative to the working directory,
    with every backslash turned into a slash, whether or not a file was
    written. *)
Definition download_image_from_src
    (src_url token folder message_id : string) (index : nat) (w : world)
  : option string * world :=
  let filename := message_id ++ "_img" ++ str_nat index ++ ".jpg" in
  let local_path := path_join folder filename in
  let shown := replace "\" "/" (relpath cwd local_path INDEX_DIR) in
  if negb (path_exists local_path w) then
    match net (JStr src_url) with
    | inl img_response =>
        let w1 := send (JStr src_url) w in
        if (status_code img_response =? 200)%Z
        then
          match open_error local_path with
          | None =>
              (Some shown, write_file local_path (content img_response) w1)
          | Some e =>
              (None,
               print ("Error downloading image " ++ src_url ++ ": " ++ e) w1)
          end
        else (Some shown, w1)
    | inr e =>
        (None,
         print ("Error downloading image " ++ src_url ++ ": " ++ e)
               (send (JStr src_url) w))
    end
  else (Some shown, w).

Definition GRAPH_HOST : string := "https://graph.microsoft.com".

(** The loop over [enumerate(img_matches)]; the local path returned by a
    download is never the empty string, so that [if local_img_path]
    tests for [None]. *)
Fixpoint resolve_images
    (imgs : list string) (idx : nat) (token folder message_id : string)
    (clean_content : string) (w : world) : string * world :=
  match imgs with
  | [] => (clean_content, w)
  | img_url :: imgs' =>
      if startswith GRAPH_HOST img_url then
        match download_image_from_src img_url token folder message_id idx w with
        | (Some local_img_path, w') =>
            resolve_images imgs' (S idx) token folder message_id
              (replace img_url local_img_path clean_content) w'
        | (None, w') =>
            resolve_images imgs' (S idx) token folder message_id
              clean_content w'
        end
      else
        resolve_images imgs' (S idx) token folder message_id clean_content w
  end.

Definition process_message_content
    (raw_content message_id access_token image_folder : string) (w : world)
  : string * world :=
  let clean_content := html_unescape raw_content in
  let clean_content := replace_emoji_tags clean_content in
  let '(clean_content, w') :=
    resolve_images (img_matches clean_content) 0
      access_token image_folder message_id clean_content w in
  let clean_content := clean_img_tags clean_content in
  let clean_content := wrap_images_with_lightbox clean_content in
  (clean_content, w').

End Normalizer.

(** ** The message filter ([validate_message_content]) and the filter
       applied again before rendering *)

Section Filter.

Import PyStr.

(** The display name of the author, as the three copies of this block
    in the source compute it: ['Unknown'] unless [from] and [user] are
    non-empty objects. *)
Definition sender_of (msg : json) : result json :=
  do from_data <- Py.get msg "from";
  if Py.truthy from_data && Py.is_dict from_data then
    do user_data <- Py.get from_data "user";
    if Py.truthy user_data && Py.is_dict user_data
    then Py.get_or user_data "displayName" (JStr "Unknown")
    else Ok (JStr "Unknown")
  else Ok (JStr "Unknown").

Definition SYSTEM_EVENT : string := "<systemEventMessage/>".

(** The checks of [validate_message_content] on a body that is neither
    empty nor white space. *)
Definition has_text_or_images (raw_content : string) : bool :=
  if contains SYSTEM_EVENT raw_content
     && (String.length (strip raw_content) <=? 50)%nat
  then false
  else
    let text_only := strip (strip_tags raw_content) in
    let has_text := negb (String.eqb text_only EmptyString) in
    let has_images :=
      match img_matches raw_content with
      | [] => false
      | _ => true
      end in
    has_text || has_images.

Definition validate_message_content (msg : json) : result bool :=
  do message_type <- Py.get msg "messageType";
  if negb (Py.eq_str message_type "message") then Ok false else
  do sender <- sender_of msg;
  if Py.eq_str sender "Unknown" then Ok false else
  do body <- Py.get_or msg "body" (JDict []);
  do content <- Py.get body "content";
  let raw_content := if Py.truthy content then content else JStr EmptyString in
  if negb (Py.truthy raw_content) then Ok false else
  do stripped <- Py.strip raw_content;
  if String.eqb stripped EmptyString then Ok false else
  match raw_content with
  | JStr s => Ok (has_text_or_images s)
  | _ => Ok false
  end.

(** The stubs that the rendering methods skip. *)
Definition is_empty_stub (raw_content : string) : bool :=
  let raw_stripped := strip raw_content in
  contains SYSTEM_EVENT raw_content
  || existsb (String.eqb raw_stripped) [EmptyString; "<p></p>"; "<div></div>"]
  || (startswith "<attachment id=" raw_stripped
      && endswith "</attachment>" raw_stripped
      && (String.length raw_stripped <? 100)%nat)
  || match Re.match_at BARE_ATTACHMENT raw_stripped with
     | Some _ => true
     | None => false
     end.

(** One turn of the filtering loop of [_generate_chat_html] and
    [_generate_channel_html]: [true] when the message is appended to
    [filtered_messages]. *)
Definition render_keep (msg : json) : result bool :=
  do sender <- sender_of msg;
  if Py.eq_str sender "Unknown" then Ok false else
  do body <- Py.get_or msg "body" (JDict []);
  do raw_content <- Py.get_or body "content" (JStr EmptyString);
  if negb (Py.truthy raw_content) then Ok false else
  do stripped <- Py.strip raw_content;
  if String.eqb stripped EmptyString then Ok false else
  match raw_content with
  | JStr s => Ok (negb (is_empty_stub s))
  | _ => Ok false
  end.

(** [[m for m in msgs if keep(m)]], stopping at the first exception. *)
Fixpoint filter_messages (keep : json -> result bool) (msgs : list json)
  : result (list json) :=
  match msgs with
  | [] => Ok []
  | m :: msgs' =>
      do b <- keep m;
      do rest <- filter_messages keep msgs';
      Ok (if b then m :: rest else rest)
  end.

End Filter.

(** ** Sorting by creation time *)

Section Sorting.

(** The key [x.get('createdDateTime', '')]. *)
Definition created_key (msg : json) : result json :=
  Py.get_or msg "createdDateTime" (JStr EmptyString).

(** Keys are compared as strings; comparing a key of another type with a
    string raises [TypeError]. *)
Definition key_string (key : json) : result string :=
  match key with
  | JStr s => Ok s
  | _ => Raise (TypeError ("'<' not supported on '" ++ Py.type_name key ++ "'"))
  end.

Fixpoint keyed (f : json -> result json) (msgs : list json)
  : result (list (json * json)) :=
  match msgs with
  | [] => Ok []
  | m :: msgs' =>
      do k <- f m;
      do rest <- keyed f msgs';
      Ok ((k, m) :: rest)
  end.

Fixpoint string_keys (l : list (json * json)) : result (list (string * json)) :=
  match l with
  | [] => Ok []
  | (k, m) :: l' =>
      do s <- key_string k;
      do rest <- string_keys l';
      Ok ((s, m) :: rest)
  end.

(** [list.sort] is stable and uses only [<]: an element goes in front of
    the first later element that is not smaller than it. *)
Fixpoint insert_by_key (x : string * json) (l : list (string * json))
  : list (string * json) :=
  match l with
  | [] => [x]
  | y :: l' =>
      if PyStr.lt (fst y) (fst x) then y :: insert_by_key x l'
      else x :: y :: l'
  end.

Definition sort_by_key (l : list (string * json)) : list (string * json) :=
  fold_right insert_by_key [] l.

(** [messages.sort(key=lambda x: x.get('createdDateTime', ''))].  The key
    is computed for every element first; a list of fewer than two
    elements is then returned without any comparison. *)
Definition sort_messages (messages : list json) : result (list json) :=
  do ks <- keyed created_key messages;
  match messages with
  | [] | [_] => Ok messages
  | _ =>
      do ss <- string_keys ks;
      Ok (map snd (sort_by_key ss))
  end.

End Sorting.

(** ** What is handed to the renderer *)

Section Aggregator.

Import PyStr.

(** The clock: [datetime.now().isoformat()]. *)
Variable now : string.

(** [IGNORED_CHANNELS] of [config.py]. *)
Variable IGNORED_CHANNELS : list (string * string).

Definition channel_ignored (team_name channel_name : string) : bool :=
  existsb (fun tc => String.eqb (fst tc) team_name
                     && String.eqb (snd tc) channel_name)
          IGNORED_CHANNELS.

Definition system_message (id body : string) : json :=
  JDict [("id", JStr id);
         ("body", JDict [("content", JStr body)]);
         ("createdDateTime", JStr now);
         ("from", JDict [("user", JDict [("displayName", JStr "System")])])].

Definition ignored_message (team_name channel_name : string) : json :=
  system_message "ignored_channel"
    ("This channel has been ignored due to configuration settings.<br><br>Team: "
     ++ team_name ++ "<br>Channel: " ++ channel_name
     ++ "<br><br>To enable message fetching, remove this channel from the IGNORED_CHANNELS list in config.py.").

Definition no_messages : json :=
  system_message "no_messages" "No messages found in this channel.".

(** The value [fetch_teams_and_channels] stores in
    [channel_messages[(team_name, channel_name)]], [all_messages] being
    what the fetching loop of the channel has collected. *)
Definition channel_entry
    (team_name channel_name : string) (all_messages : list json)
  : result (list json) :=
  if channel_ignored team_name channel_name
  then Ok [ignored_message team_name channel_name]
  else
    do filtered_messages <- filter_messages validate_message_content all_messages;
    match filtered_messages with
    | [] => Ok [no_messages]
    | _ => Ok filtered_messages
    end.

(** [_generate_channel_html]: the messages the rendering loop goes
    through, [messages] being the stored entry. *)
Definition channel_rendered
    (team_name channel_name : string) (messages : list json)
  : result (list json) :=
  do sorted <- sort_messages messages;
  if channel_ignored team_name channel_name then Ok sorted
  else filter_messages render_keep sorted.

(** [_generate_chat_html] for a chat that is not in [IGNORED_CHATS]: the
    messages the rendering loop goes through, [messages] being what
    [_fetch_chat_messages] returned. *)
Definition chat_rendered (messages : list json) : result (list json) :=
  do sorted <- sort_messages messages;
  filter_messages render_keep sorted.

End Aggregator.

(** ** The rendering of one message, and the loop that appends the HTML *)

Section Renderer.

Import PyStr.

Variable charref_sub : string -> string.
Variable net : http.
Variable open_error : string -> option string.
Variable cwd : string.

(** [str(v)], as an f-string formats a value that is not a string. *)
Variable str_of : json -> string.

(** The fields of the exporter that the renderer reads. *)
Variable access_token : string.
Variable image_folder : string.
Variable user_display_name : string.

Definition format_value (v : json) : string :=
  match v with
  | JStr s => s
  | _ => str_of v
  end.

(** What [_generate_message_html] puts into the holes of its template,
    a [div] of class [message] and [css_class] that holds a [div] of
    class [meta] with the sender and the formatted timestamp and a [div]
    of class [text] with the content: the class, the sender, the
    timestamp handed to [format_timestamp], and the content. *)
Record message_html : Type := MkMessageHtml {
  css_class : string;
  meta_sender : json;
  meta_timestamp : json;
  html_text : string
}.

(** The part of [_generate_message_html] before the call of
    [process_message_content]: the id, the sender and the raw content.
    It raises when the message is not an object. *)
Definition message_fields (msg : json) : result (json * json * json) :=
  do message_id <- Py.get_or msg "id" (JStr EmptyString);
  do sender <- sender_of msg;
  do body_data <- Py.get msg "body";
  do raw_content <-
    (if Py.truthy body_data && Py.is_dict body_data
     then Py.get_or body_data "content" (JStr EmptyString)
     else Ok (JStr EmptyString));
  Ok (message_id, sender, raw_content).

(** [msg.get('lastModifiedDateTime', msg.get('createdDateTime', ''))] *)
Definition message_timestamp (msg : json) : result json :=
  do created <- Py.get_or msg "createdDateTime" (JStr EmptyString);
  Py.get_or msg "lastModifiedDateTime" created.

(** [_generate_message_html]: [None] stands for the empty string it
    returns for a message without content after processing and when
    anything in its [try] block raises.  A raw content that is not a
    string makes [html.unescape] or [re.sub] raise [TypeError] before
    anything is requested or written. *)
Definition generate_message_html (msg : json) (w : world)
  : option message_html * world :=
  match message_fields msg with
  | Raise _ => (None, w)
  | Ok (message_id, sender, JStr raw_content) =>
      let '(clean_content, w') :=
        process_message_content charref_sub net open_error cwd
          raw_content (format_value message_id) access_token image_folder w in
      let content_check := strip (strip_tags clean_content) in
      if String.eqb clean_content EmptyString
         || String.eqb (strip clean_content) EmptyString
         || String.eqb content_check EmptyString
      then (None, w')
      else
        match message_timestamp msg with
        | Raise _ => (None, w')
        | Ok timestamp =>
            let css_class :=
              if Py.eq_str sender user_display_name then "mine" else "theirs" in
            (Some (MkMessageHtml css_class sender timestamp clean_content), w')
        end
  | Ok _ => (None, w)
  end.

(** The last loop of [_generate_chat_html] and [_generate_channel_html]:
    the messages whose HTML is appended, each with its HTML, in the
    order of appending.  The HTML of the template is never blank, so
    that [if message_html.strip()] holds exactly when the renderer has
    not returned the empty string. *)
Fixpoint append_messages (filtered_messages : list json) (w : world)
  : list (json * message_html) * world :=
  match filtered_messages with
  | [] => ([], w)
  | msg :: rest =>
      let '(message_html, w1) := generate_message_html msg w in
      let '(appended, w2) := append_messages rest w1 in
      (match message_html with
       | Some h => (msg, h) :: appended
       | None => appended
       end, w2)
  end.

(** [_generate_chat_html] for a chat that is not ignored and
    [_generate_channel_html], as far as the messages go: what is
    appended for the messages that were fetched. *)
Definition chat_appended (messages : list json) (w : world)
  : result (list (json * message_html) * world) :=
  do filtered_messages <- chat_rendered messages;
  Ok (append_messages filtered_messages w).

Definition channel_appended
    (IGNORED_CHANNELS : list (string * string))
    (team_name channel_name : string) (messages : list json) (w : world)
  : result (list (json * message_html) * world) :=
  do filtered_messages <-
     channel_rendered IGNORED_CHANNELS team_name channel_name messages;
  Ok (append_messages filtered_messages w).

End Renderer.

(** ** Member lists and group chats *)

Section Members.

Import PyStr.

(** [l[:stop]] *)
Definition slice_to (stop : Z) (l : list string) : list string :=
  if (0 <=? stop)%Z then firstn (Z.to_nat stop) l
  else firstn (length l - Z.to_nat (- stop)) l.

Definition create_member_list_display
    (member_names : list string) (max_display : Z) : string * string :=
  match member_names with
  | [] => ("Unknown", "Unknown")
  | _ =>
      let limited_names := join ", " (slice_to max_display member_names) in
      let full_member_list := join ", " member_names in
      let limited_names :=
        if (max_display <? Z.of_nat (length member_names))%Z
        then limited_names ++ "..."
        else limited_names in
      (limited_names, full_member_list)
  end.

Definition MAX_MEMBERS_IN_CHAT_NAME : Z := 3.

(** A chat and a member as the Graph API lists them: [topic] and
    [displayName] are strings or null ([None] also when the key is
    absent; a null topic is as false as the empty one). *)
Record chat : Type := MkChat { chat_id : string; topic : option string }.
Record member : Type := MkMember { displayName : option string }.

(** The dictionaries of the exporter that [_process_group_chat] fills, in
    insertion order. *)
Record exporter : Type := MkExporter {
  user_display_name : string;
  chats_group : list (string * string);
  group_full_member_lists : list (string * string)
}.

(** [d[k] = v] *)
Fixpoint dict_set (k v : string) (d : list (string * string))
  : list (string * string) :=
  match d with
  | [] => [(k, v)]
  | (k', v') :: d' =>
      if String.eqb k k' then (k, v) :: d' else (k', v') :: dict_set k v d'
  end.

(** [str(m.get('displayName', 'Unknown') or 'Unknown')] *)
Definition member_name (m : member) : string :=
  match displayName m with
  | Some s => if String.eqb s EmptyString then "Unknown" else s
  | None => "Unknown"
  end.

(** [m.get('displayName') != self.user_display_name] *)
Definition is_other (user : string) (m : member) : bool :=
  match displayName m with
  | Some s => negb (String.eqb s user)
  | None => true
  end.

(** [_process_group_chat]; [has_messages] is the answer of
    [chat_has_messages] for the chat and [members] the list returned by
    [_get_chat_members].  The result is the exporter and the line
    printed, if any. *)
Definition process_group_chat
    (self : exporter) (c : chat) (has_messages : bool) (members : list member)
  : exporter * option string :=
  if negb has_messages then (self, None) else
  let other_members :=
    map member_name (List.filter (is_other (user_display_name self)) members) in
  let '(limited_names, full_member_list) :=
    create_member_list_display other_members MAX_MEMBERS_IN_CHAT_NAME in
  let chat_name := default EmptyString (topic c) in
  let chat_name :=
    if String.eqb chat_name EmptyString then
      if String.eqb limited_names EmptyString then "Group: Unknown"
      else "Group: " ++ limited_names
    else chat_name in
  (MkExporter (user_display_name self)
              (dict_set chat_name (chat_id c) (chats_group self))
              (dict_set chat_name full_member_list (group_full_member_lists self)),
   Some ("#   Processing: " ++ chat_name)).

End Members.

(** ** The pagination loop ([_make_paginated_request]) *)

Section Pagination.

Variable net : http.

(** The progress callback, if any: the source's callbacks only print, so
    a callback is the lines it prints for a count and a context. *)
Variable progress_callback : option (nat -> string -> list string).
Variable context : string.

Definition report (count : nat) (w : world) : world :=
  match progress_callback with
  | Some f => fold_left (fun w' line => print line w') (f count context) w
  | None => w
  end.

(** What one turn of the loop does after the request was sent. *)
Inductive turn : Type :=
| Next (url : json) (all_items : list json) (w : world)
| Break (w : world).

(** The body of the [try]: an exception raised anywhere in it is printed
    and ends the loop. *)
Definition page (r : response) (all_items : list json) : result (list json * json) :=
  do data <- match json_body r with
             | inr v => Ok v
             | inl e => Raise (RequestError e)
             end;
  do value <- Py.get_or data "value" (JList []);
  do batch <- Py.iterate value;
  do next_link <- Py.get data "@odata.nextLink";
  Ok ((all_items ++ batch)%list, next_link).

Definition request (url : json) (all_items : list json) (w : world) : turn :=
  let w := send url w in
  match net url with
  | inr e => Break (print ("Exception in API request: " ++ e) w)
  | inl r =>
      if (status_code r =? 200)%Z then
        match page r all_items with
        | Ok (all_items', next_link) =>
            Next next_link all_items' (report (length all_items') w)
        | Raise e => Break (print ("Exception in API request: " ++ exn_text e) w)
        end
      else
        Break (print ("Error in API request: " ++ PyStr.str_Z (status_code r)) w)
  end.

(** [while url: ...]; [fuel] bounds the number of requests, and [None]
    means that the loop is still running when the fuel is spent. *)
Fixpoint paginate (fuel : nat) (url : json) (all_items : list json) (w : world)
  : option (list json * world) :=
  if negb (Py.truthy url) then Some (all_items, w)
  else
    match fuel with
    | O => None
    | S fuel' =>
        match request url all_items w with
        | Next url' all_items' w' => paginate fuel' url' all_items' w'
        | Break w' => Some (all_items, w')
        end
    end.

Definition make_paginated_request (fuel : nat) (url : string) (w : world)
  : option (list json * world) :=
  paginate fuel (JStr url) [] w.

End Pagination.


(** ** The gate of the chats ([chat_has_messages]) *)

Section Gate.

Variable net : http.

(** The loop over the messages: it returns at the first user message. *)
Fixpoint any_user_message (messages : list json) : result bool :=
  match messages with
  | [] => Ok false
  | msg :: messages' =>
      do msg_type <- Py.get_or msg "messageType" (JStr EmptyString);
      if Py.eq_str msg_type "message" then Ok true
      else any_user_message messages'
  end.

(** [chat_has_messages]: whether the first ten messages of the chat hold
    a user message; an exception is printed and counts as no. *)
Definition chat_has_messages (chat_id : string) (w : world) : bool * world :=
  let url := "https://graph.microsoft.com/v1.0/chats/" ++ chat_id
             ++ "/messages?$top=10" in
  let w := send (JStr url) w in
  let failure e :=
    (false, print ("Error checking messages for chat " ++ chat_id ++ ": " ++ e) w) in
  match net (JStr url) with
  | inr e => failure e
  | inl r =>
      if (status_code r =? 200)%Z then
        match json_body r with
        | inl e => failure e
        | inr data =>
            match (do value <- Py.get_or data "value" (JList []);
                   do messages <- Py.iterate value;
                   any_user_message messages) with
            | Ok found => (found, w)
            | Raise e => failure (exn_text e)
            end
        end
      else (false, w)
  end.

End Gate.

(** ** Notions and inputs used in the statements *)

(** The suffix the display string gets for a cap [n]. *)
Definition ellipsis (n : nat) (names : list string) : string :=
  if (n <? length names)%nat then "..." else EmptyString.

(** A user message whose body is markup without text or image. *)
Definition blank_message : json :=
  JDict [("messageType", JStr "message");
         ("from", JDict [("user", JDict [("displayName", JStr "Alice")])]);
         ("body", JDict [("content", JStr "<p> <br/> </p>")])].

(** [pages net u urls items u']: starting at [u], the requests for [urls]
    each come back with status 200 and an object whose [value] can be
    iterated; [items] are the batches in order and [u'] is the cursor the
    last of these pages gives (or [u] itself when [urls] is empty). *)
Inductive pages (net : http) : json -> list json -> list json -> json -> Prop :=
| pages_done (u : json) : pages net u [] [] u
| pages_next (u : json) (r : response) (d : list (string * json))
             (batch : list json) (urls items : list json) (u' : json) :
    Py.truthy u = true ->
    net u = inl r ->
    status_code r = 200%Z ->
    json_body r = inr (JDict d) ->
    Py.iterate (default (JList []) (Py.lookup "value" d)) = Ok batch ->
    pages net (default JNull (Py.lookup "@odata.nextLink" d)) urls items u' ->
    pages net u (u :: urls) (batch ++ items)%list u'.

(** [failed net u line]: the request for [u] raises, or comes back with a
    status other than 200; [line] is what the loop prints then. *)
Inductive failed (net : http) (u : json) : string -> Prop :=
| failed_exception (e : string) :
    net u = inr e ->
    failed net u ("Exception in API request: " ++ e)
| failed_status (r : response) :
    net u = inl r ->
    status_code r <> 200%Z ->
    failed net u ("Error in API request: " ++ PyStr.str_Z (status_code r)).

(** A server with two pages behind [u0] and an error behind the second
    cursor, and a single page without cursor behind [s]. *)
Definition demo_server : http :=
  fun u =>
    match u with
    | JStr "u0" =>
        inl (MkResponse 200 EmptyString
               (inr (JDict [("value", JList [JNum 1; JNum 2]);
                            ("@odata.nextLink", JStr "u1")])))
    | JStr "u1" =>
        inl (MkResponse 200 EmptyString
               (inr (JDict [("value", JList [JNum 3]);
                            ("@odata.nextLink", JStr "u2")])))
    | JStr "u2" => inl (MkResponse 503 EmptyString (inl "not JSON"))
    | JStr "s" =>
        inl (MkResponse 200 EmptyString
               (inr (JDict [("value", JList [JNum 7; JNum 8])])))
    | _ => inr "connection refused"
    end.

(** Nothing on disk, nothing requested, nothing printed. *)
Definition empty_world : world := MkWorld ∅ [] [].

(** The order the exporter is meant to give the messages, stated on the
    messages themselves: [time_of m] is the [createdDateTime] of the
    object [m] when it is a string, and the empty string when the object
    has no such member; [lex_lt s t] says that [s] comes before [t] in
    the lexicographic order of the code points; and [time_le a b] that
    the time string of [b] does not come before that of [a]. *)
Fixpoint member_of (k : string) (d : list (string * json)) : option json :=
  match d with
  | [] => None
  | (k', v) :: d' => if String.eqb k k' then Some v else member_of k d'
  end.

Definition time_of (m : json) : option string :=
  match m with
  | JDict d =>
      match member_of "createdDateTime" d with
      | Some (JStr s) => Some s
      | Some _ => None
      | None => Some EmptyString
      end
  | _ => None
  end.

Inductive lex_lt : string -> string -> Prop :=
| lex_lt_prefix (c : ascii) (t : string) :
    lex_lt EmptyString (String c t)
| lex_lt_head (a b : ascii) (s t : string) :
    (nat_of_ascii a < nat_of_ascii b)%nat ->
    lex_lt (String a s) (String b t)
| lex_lt_tail (a : ascii) (s t : string) :
    lex_lt s t ->
    lex_lt (String a s) (String a t).

Definition time_le (a b : json) : Prop :=
  exists s t : string,
    time_of a = Some s /\ time_of b = Some t /\ ~ lex_lt t s.

(** [l] is [l'] with some elements left out. *)
Inductive subsequence {A : Type} : list A -> list A -> Prop :=
| subsequence_nil : subsequence [] []
| subsequence_skip (x : A) (l l' : list A) :
    subsequence l l' -> subsequence l (x :: l')
| subsequence_keep (x : A) (l l' : list A) :
    subsequence l l' -> subsequence (x :: l) (x :: l').

(** [str] of the values that are not strings, for examples in which no
    such value is formatted. *)
Definition no_str : json -> string := fun _ => EmptyString.

(** A user message whose body is one image hosted elsewhere. *)
Definition picture_message : json :=
  JDict [("id", JStr "m7");
         ("messageType", JStr "message");
         ("from", JDict [("user", JDict [("displayName", JStr "Alice")])]);
         ("body", JDict [("content",
                          JStr ("<img src=" ++ PyStr.dq
                                ++ "http://example.com/a.png" ++ PyStr.dq ++ ">"))]);
         ("createdDateTime", JStr "2024-01-01T12:00:00.000Z")].

(** [created_le a b]: the creation time of [a], as a string, is not after
    that of [b] in the order of [str]. *)
Definition created_le (a b : json) : Prop :=
  exists ka kb : string,
    created_key a = Ok (JStr ka)
    /\ created_key b = Ok (JStr kb)
    /\ PyStr.lt kb ka = false.

(** A message of Alice with a creation time and a body. *)
Definition message_at (created body : string) : json :=
  JDict [("messageType", JStr "message");
         ("from", JDict [("user", JDict [("displayName", JStr "Alice")])]);
         ("body", JDict [("content", JStr body)]);
         ("createdDateTime", JStr created)].

(** In examples whose text holds no ampersand the table of character
    references is never consulted; this stands for it there. *)
Definition no_table : string -> string := fun s => s.

(** What [html.unescape] substitutes in a text whose only character
    references are [&lt;], [&gt;], [&quot;] and [&amp;], and a text of
    that kind: an image element escaped twice, and escaped once. *)
Definition basic_entities (s : string) : string :=
  PyStr.replace "&amp;" "&"
    (PyStr.replace "&quot;" PyStr.dq
       (PyStr.replace "&gt;" ">" (PyStr.replace "&lt;" "<" s))).
Definition escaped_twice : string :=
  "&amp;lt;img src=&amp;quot;https://graph.microsoft.com/x&amp;quot;&amp;gt;".
Definition escaped_once : string :=
  "&lt;img src=&quot;https://graph.microsoft.com/x&quot;&gt;".

(** Three networks: one that answers every request with an image, one
    that answers 404, and one that cannot be reached. *)
Definition image_server : http :=
  fun _ => inl (MkResponse 200 "JPEG" (inl "not JSON")).
Definition not_found : http :=
  fun _ => inl (MkResponse 404 "Not Found" (inl "not JSON")).
Definition unreachable : http :=
  fun _ => inr "connection refused".

(** A disk on which every file can be opened, one on which the folder of
    the file is missing, and the working directory of the examples. *)
Definition writable : string -> option string := fun _ => None.
Definition no_folder : string -> option string :=
  fun p => Some ("[Errno 2] No such file or directory: '" ++ p ++ "'").
Definition export_dir : string := "/home/user/export".

(** A body with an image hosted elsewhere, and one with an image hosted
    by the platform. *)
Definition external_body : string :=
  PyStr.sq "<p>see <img alt='chart' src='http://example.com/a.png' width='300'></p>".
Definition hosted_body : string :=
  PyStr.sq "<p>see <img alt='chart' src='https://graph.microsoft.com/v1.0/chats/c/messages/m1/hostedContents/h/$value' width='300'></p>".
Definition hosted_url : string :=
  "https://graph.microsoft.com/v1.0/chats/c/messages/m1/hostedContents/h/$value".

(** The order of the sorting keys: [x] is not after [y]. *)
Definition key_le (x y : string * json) : Prop := PyStr.lt (fst y) (fst x) = false.

(** Whether a filter keeps a message, exceptions aside. *)
Definition kept (keep : json -> result bool) (m : json) : bool :=
  match keep m with
  | Ok true => true
  | _ => false
  end.

(** Two messages of a chat, the later one delivered first, and a chat
    whose only message is an empty paragraph. *)
Definition later_message : json := message_at "2024-01-02T08:00:00.000Z" "<p>second</p>".
Definition earlier_message : json := message_at "2024-01-01T17:30:00.000Z" "<p>first</p>".
Definition empty_paragraph : json := message_at "2024-01-01T17:30:00.000Z" "<p></p>".

(** A user message that holds the marker of a system event inside a longer
    text. *)
Definition event_with_text : json :=
  message_at "2024-01-01T17:30:00.000Z"
    "<systemEventMessage/><p>The meeting was moved to the large room on the second floor.</p>".

(** A server whose chat [c1] holds one message, the empty paragraph. *)
Definition paragraph_server : http :=
  fun u =>
    match u with
    | JStr "https://graph.microsoft.com/v1.0/chats/c1/messages?$top=10"
    | JStr "https://graph.microsoft.com/v1.0/chats/c1/messages" =>
        inl (MkResponse 200 EmptyString
               (inr (JDict [("value", JList [empty_paragraph])])))
    | _ => inr "connection refused"
    end.


(** ** Further functions of [teams_utils.py] and of the exporter *)

Section MoreUtils.

Import PyStr.

(** [s.split(sep)] for the separator [String c sep']: the pieces between
    the occurrences of the separator, found from the left and without
    overlap.  [cur] is the piece being read and [skip] counts the
    characters of an occurrence still to be passed over. *)
Fixpoint split_from (c : ascii) (sep' s : string) (skip : nat) (cur : string)
  : list string :=
  match s with
  | EmptyString => [cur]
  | String a s' =>
      match skip with
      | S n => split_from c sep' s' n cur
      | O =>
          if startswith (String c sep') s
          then cur :: split_from c sep' s' (String.length sep') EmptyString
          else split_from c sep' s' 0 (cur ++ String a EmptyString)
      end
  end.

Definition split (c : ascii) (sep' s : string) : list string :=
  split_from c sep' s 0 EmptyString.

(** The loop of [format_member_list_for_display] followed by
    [''.join(new_members)]. *)
Fixpoint alternate (parts : list string) (idx : nat) : string :=
  match parts with
  | [] => EmptyString
  | part :: parts' =>
      (if (0 <? idx)%nat then
         if Nat.even idx then "; " ++ part else ", " ++ part
       else part)
      ++ alternate parts' (S idx)
  end.

Definition format_member_list_for_display (full_members : string) : string :=
  if String.eqb full_members EmptyString then EmptyString
  else alternate (split ","%char " " full_members) 0.

(** [c.lower()] for a code point below 256: the capital letters of ASCII
    and of Latin-1 move up by 32. *)
Definition lower_char (c : ascii) : ascii :=
  let n := nat_of_ascii c in
  if (((65 <=? n) && (n <=? 90))
      || ((192 <=? n) && (n <=? 222) && negb (n =? 215)))%nat
  then ascii_of_nat (n + 32)
  else c.

(** [s.lower()] *)
Fixpoint lower (s : string) : string :=
  match s with
  | EmptyString => EmptyString
  | String c s' => String (lower_char c) (lower s')
  end.

(** [sorted(chat_list, key=lambda x: x[0].lower())]: stable, with [<] on
    the keys only. *)
Fixpoint insert_chat (x : string * string) (l : list (string * string))
  : list (string * string) :=
  match l with
  | [] => [x]
  | y :: l' =>
      if PyStr.lt (lower (fst y)) (lower (fst x)) then y :: insert_chat x l'
      else x :: y :: l'
  end.

Definition sort_chats_by_name (chat_list : list (string * string))
  : list (string * string) :=
  fold_right insert_chat [] chat_list.

(** [d[k]], if the key is there. *)
Fixpoint dict_get (k : string) (d : list (string * string)) : option string :=
  match d with
  | [] => None
  | (k', v) :: d' => if String.eqb k k' then Some v else dict_get k d'
  end.

(** [dict(items)] *)
Definition dict_of_items (items : list (string * string)) : list (string * string) :=
  fold_left (fun d kv => dict_set (fst kv) (snd kv) d) items [].

(** [dict(sort_chats_by_name(d.items()))], as [fetch_all_chats] rebuilds
    each of its dictionaries. *)
Definition sorted_chats (d : list (string * string)) : list (string * string) :=
  dict_of_items (sort_chats_by_name d).

(** A member of a one-on-one chat: [displayName] is absent ([None]), null
    ([Some None]) or a string. *)
Record contact : Type := MkContact { contact_name : option (option string) }.

(** [m.get('displayName') != self.user_display_name] *)
Definition is_not_user (user : string) (m : contact) : bool :=
  match contact_name m with
  | Some (Some s) => negb (String.eqb s user)
  | _ => true
  end.

(** [other_member.get('displayName', 'Unknown')] inside the f-string. *)
Definition contact_display (m : contact) : string :=
  match contact_name m with
  | None => "Unknown"
  | Some None => "None"
  | Some (Some s) => s
  end.

(** [_process_one_on_one_chat] on the dictionary [chats_one_on_one];
    [has_messages] is the answer of [chat_has_messages] and [members] what
    [_get_chat_members] returns (asked for only when the chat has no
    topic).  The result is the dictionary and the line printed, if any. *)
Definition process_one_on_one_chat
    (user : string) (chats_one_on_one : list (string * string))
    (c : chat) (has_messages : bool) (members : list contact)
  : list (string * string) * option string :=
  if negb has_messages then (chats_one_on_one, None) else
  let chat_name := default EmptyString (topic c) in
  let chat_name :=
    if String.eqb chat_name EmptyString then
      let display_name :=
        match find (is_not_user user) members with
        | Some other_member => contact_display other_member
        | None => "Unknown"
        end in
      "Chat with " ++ display_name
    else chat_name in
  (dict_set chat_name (chat_id c) chats_one_on_one,
   Some ("#   Processing: " ++ chat_name)).

End MoreUtils.

(** ** Notions used in the further statements *)

(** The name of the file that holds image [index] of a message. *)
Definition image_path (folder message_id : string) (index : nat) : string :=
  path_join folder (message_id ++ "_img" ++ PyStr.str_nat index ++ ".jpg").

(** A plain sentence, and a body with two hosted images. *)
Definition plain_body : string := "See you at 10:30 - bring the slides!".
Definition two_images_body : string :=
  PyStr.sq "<img src='https://graph.microsoft.com/a/$value'><img src='https://graph.microsoft.com/b/$value'>".

(** The path that the markup gets for image [index] of a message: the
    path of its file relative to the working directory [cwd], with every
    backslash turned into a slash. *)
Definition image_link (cwd folder message_id : string) (index : nat) : string :=
  PyStr.replace "\" "/"
    (relpath cwd (image_path folder message_id index) INDEX_DIR).

(** The markup after the loop over the images when every download gives a
    path: each hosted address, in turn, is replaced by the path of its
    file relative to the working directory. *)
Fixpoint replace_hosted (cwd : string) (imgs : list string) (idx : nat)
         (folder message_id clean_content : string) : string :=
  match imgs with
  | [] => clean_content
  | img_url :: imgs' =>
      if PyStr.startswith GRAPH_HOST img_url
      then replace_hosted cwd imgs' (S idx) folder message_id
             (PyStr.replace img_url (image_link cwd folder message_id idx)
                            clean_content)
      else replace_hosted cwd imgs' (S idx) folder message_id clean_content
  end.

(** The files of the hosted images among [imgs], numbered from [idx], are
    all present. *)
Fixpoint all_saved (w : world) (imgs : list string) (idx : nat)
         (folder message_id : string) : Prop :=
  match imgs with
  | [] => True
  | img_url :: imgs' =>
      (PyStr.startswith GRAPH_HOST img_url = true ->
       path_exists (image_path folder message_id idx) w = true)
      /\ all_saved w imgs' (S idx) folder message_id
  end.

(** [malformed r text]: the body of the response is not JSON, or not an
    object, or its [value] cannot be iterated; [text] is the text of the
    exception raised in the loop. *)
Inductive malformed (r : response) : string -> Prop :=
| malformed_body (e : string) :
    json_body r = inl e ->
    malformed r e
| malformed_data (v : json) :
    json_body r = inr v ->
    Py.is_dict v = false ->
    malformed r ("'" ++ Py.type_name v ++ "' object has no attribute 'get'")
| malformed_value (d : list (string * json)) (v : json) (e : pyexn) :
    json_body r = inr (JDict d) ->
    Py.lookup "value" d = Some v ->
    Py.iterate v = Raise e ->
    malformed r (exn_text e).

(** A server whose second page is a list instead of an object. *)
Definition broken_server : http :=
  fun u =>
    match u with
    | JStr "u0" =>
        inl (MkResponse 200 EmptyString
               (inr (JDict [("value", JList [JNum 1; JNum 2]);
                            ("@odata.nextLink", JStr "u1")])))
    | JStr "u1" => inl (MkResponse 200 EmptyString (inr (JList [JNum 3])))
    | _ => inr "connection refused"
    end.

(** [readable msg]: the message is an object whose [body], if present, is
    an object whose [content], if present, is null or a string. *)
Definition readable (msg : json) : bool :=
  match msg with
  | JDict d =>
      match Py.lookup "body" d with
      | None => true
      | Some (JDict b) =>
          match Py.lookup "content" b with
          | None | Some JNull | Some (JStr _) => true
          | Some _ => false
          end
      | Some _ => false
      end
  | _ => false
  end.

(** A system event as the Graph API delivers it, and a page of a chat
    that holds nothing else. *)
Definition system_event : json :=
  JDict [("messageType", JStr "systemEventMessage");
         ("from", JNull);
         ("body", JDict [("content", JStr "<systemEventMessage/>")]);
         ("createdDateTime", JStr "2024-01-01T08:00:00.000Z")].

(** The creation time of a message as a string (the empty string when it
    is not one). *)
Definition created_string (msg : json) : string :=
  match created_key msg with
  | Ok (JStr s) => s
  | _ => EmptyString
  end.

(** The messages created at time [k]. *)
Definition created_at (k : string) (msgs : list json) : list json :=
  List.filter (fun m => String.eqb (created_string m) k) msgs.

(** Three messages, two of them created at the same time. *)
Definition same_time_first : json := message_at "2024-01-02T08:00:00.000Z" "<p>one</p>".
Definition same_time_second : json := message_at "2024-01-02T08:00:00.000Z" "<p>two</p>".

(** No comma followed by a space inside the name. *)
Definition plain_name (name : string) : Prop := PyStr.contains ", " name = false.

(** The order of [sort_chats_by_name]: the name of [a], in lower case, is
    not after that of [b]. *)
Definition name_le (a b : string * string) : Prop :=
  PyStr.lt (lower (fst b)) (lower (fst a)) = false.

(** A user message whose body is an image and nothing else. *)
Definition image_only : json :=
  message_at "2024-01-02T09:00:00.000Z"
    (PyStr.sq "<img src='https://graph.microsoft.com/a/$value' width='200'>").

(** The bare image element for an address, and the element inside its
    lightbox anchor. *)
Definition img_element (url : string) : string :=
  "<img src=" ++ PyStr.dq ++ url ++ PyStr.dq ++ ">".

Definition anchor_open (url : string) : string :=
  "<a href=" ++ PyStr.dq ++ url ++ PyStr.dq ++ " class=" ++ PyStr.dq
  ++ "lightbox" ++ PyStr.dq ++ ">".

Definition lightbox_anchor (url : string) : string :=
  anchor_open url ++ img_element url ++ "</a>".

(** Every character of the string is in the class. *)
Fixpoint all_in (k : Re.cclass) (s : string) : bool :=
  match s with
  | EmptyString => true
  | String a s' => Re.cmatch k a && all_in k s'
  end.

(** The text [src=] followed by a double quote. *)
Definition SRC_ATTR : string := "src=" ++ PyStr.dq.

(** An address that the patterns read as one whole between the quotes of
    an image element: not empty, and without a double quote, an opening
    angle bracket or the text [src=]. *)
Definition plain_address (url : string) : Prop :=
  url <> EmptyString
  /\ PyStr.contains PyStr.dq url = false
  /\ PyStr.contains "<" url = false
  /\ PyStr.contains "src=" url = false.

(** Text without markup: no opening angle bracket and no ampersand. *)
Definition no_markup (s : string) : Prop :=
  PyStr.contains "<" s = false /\ PyStr.contains "&" s = false.

(** The line printed when a download raises. *)
Definition download_error (src_url e : string) : string :=
  "Error downloading image " ++ src_url ++ ": " ++ e.
(** * Properties *)

(** ** Member lists and group chats *)

Section MemberFacts.

Import PyStr.

Lemma slice_to_nat (n : nat) (l : list string) :
  slice_to (Z.of_nat n) l = firstn n l.
Proof.
  unfold slice_to.
  destruct (Z.leb_spec 0 (Z.of_nat n)) as [_ | Hneg]; [| lia].
  now rewrite Nat2Z.id.
Qed.

Lemma append_empty_r (s : string) : s ++ EmptyString = s.
Proof.
  induction s as [| c s IH]; [reflexivity |].
  change (String c (s ++ EmptyString) = String c s). now rewrite IH.
Qed.

(** C8. For a non-empty list of names and a cap [n], the display string
    is the first [n] names joined by a comma and a space, followed by
    three dots exactly when the list has more than [n] names, and the
    tooltip is all names joined the same way; the four members Bob,
    Carol, Dan and Eve of an untitled group chat give the name
    "Group: Bob, Carol, Dan..." and the tooltip "Bob, Carol, Dan, Eve". *)
Theorem member_list_display_capped :
  (forall (names : list string) (n : nat),
      names <> [] ->
      create_member_list_display names (Z.of_nat n)
      = (join ", " (firstn n names) ++ ellipsis n names, join ", " names))
  /\ create_member_list_display ["Bob"; "Carol"; "Dan"; "Eve"] MAX_MEMBERS_IN_CHAT_NAME
     = ("Bob, Carol, Dan...", "Bob, Carol, Dan, Eve")
  /\ (forall (me id : string) (t : option string),
         me <> "Bob" -> me <> "Carol" -> me <> "Dan" -> me <> "Eve" ->
         default EmptyString t = EmptyString ->
         process_group_chat
           (MkExporter me [] []) (MkChat id t) true
           (map MkMember [Some me; Some "Bob"; Some "Carol"; Some "Dan"; Some "Eve"])
         = (MkExporter me
              [("Group: Bob, Carol, Dan...", id)]
              [("Group: Bob, Carol, Dan...", "Bob, Carol, Dan, Eve")],
            Some "#   Processing: Group: Bob, Carol, Dan...")).
Proof.
  split; [| split].
  - intros names n Hne.
    unfold create_member_list_display, ellipsis.
    destruct names as [| x names]; [congruence |].
    rewrite slice_to_nat.
    destruct (Z.ltb_spec (Z.of_nat n) (Z.of_nat (length (x :: names))));
      destruct (Nat.ltb_spec n (length (x :: names))); try lia.
    + reflexivity.
    + now rewrite append_empty_r.
  - reflexivity.
  - intros me id t HB HC HD HE Ht.
    unfold process_group_chat. cbn [negb user_display_name topic chat_id].
    rewrite Ht.
    assert (Hf : List.filter (is_other me)
                   (map MkMember [Some me; Some "Bob"; Some "Carol"; Some "Dan"; Some "Eve"])
                 = map MkMember [Some "Bob"; Some "Carol"; Some "Dan"; Some "Eve"]).
    { cbn [map List.filter is_other displayName].
      rewrite String.eqb_refl. cbn [negb].
      repeat match goal with
             | |- context [String.eqb ?a me] =>
                 destruct (String.eqb_spec a me) as [E | _]; [congruence |]
             end.
      reflexivity. }
    rewrite Hf. reflexivity.
Qed.

Lemma member_list_display_capped_witness :
  create_member_list_display ["Ann"; "Ben"] (Z.of_nat 1) = ("Ann...", "Ann, Ben")
  /\ process_group_chat
       (MkExporter "Me" [] []) (MkChat "19:c" None) true
       (map MkMember [Some "Me"; Some "Bob"; Some "Carol"; Some "Dan"; Some "Eve"])
     = (MkExporter "Me"
          [("Group: Bob, Carol, Dan...", "19:c")]
          [("Group: Bob, Carol, Dan...", "Bob, Carol, Dan, Eve")],
        Some "#   Processing: Group: Bob, Carol, Dan...").
Proof.
  split.
  - apply (proj1 member_list_display_capped ["Ann"; "Ben"] 1%nat). discriminate.
  - apply (proj2 (proj2 member_list_display_capped) "Me" "19:c" None);
      (discriminate || reflexivity).
Defined.

End MemberFacts.

Section UnknownMembers.

Import PyStr.

Lemma filter_only_me (me : string) (members : list member) :
  Forall (fun m => displayName m = Some me) members ->
  List.filter (is_other me) members = [].
Proof.
  induction 1 as [| m members Hm _ IH]; [reflexivity |].
  cbn [List.filter]. unfold is_other at 1. rewrite Hm, String.eqb_refl.
  exact IH.
Qed.

(** C10. Whatever the cap, an empty list of names gives the pair
    ("Unknown", "Unknown"); so a group chat with messages whose members
    are all the exporting user gets the tooltip "Unknown", and, having no
    topic of its own, the name "Group: Unknown". *)
Theorem empty_member_list_is_unknown :
  (forall max_display : Z,
      create_member_list_display [] max_display = ("Unknown", "Unknown"))
  /\ (forall (self : exporter) (c : chat) (members : list member),
         Forall (fun m => displayName m = Some (user_display_name self)) members ->
         let chat_name :=
           if String.eqb (default EmptyString (topic c)) EmptyString
           then "Group: Unknown"
           else default EmptyString (topic c) in
         process_group_chat self c true members
         = (MkExporter (user_display_name self)
              (dict_set chat_name (chat_id c) (chats_group self))
              (dict_set chat_name "Unknown" (group_full_member_lists self)),
            Some ("#   Processing: " ++ chat_name))).
Proof.
  split; [reflexivity |].
  intros self c members Hme.
  unfold process_group_chat. cbn [negb].
  rewrite (filter_only_me _ _ Hme). reflexivity.
Qed.

Lemma empty_member_list_is_unknown_witness :
  process_group_chat (MkExporter "Me" [] []) (MkChat "19:g" (Some EmptyString))
                     true [MkMember (Some "Me")]
  = (MkExporter "Me" [("Group: Unknown", "19:g")] [("Group: Unknown", "Unknown")],
     Some "#   Processing: Group: Unknown").
Proof.
  apply (proj2 empty_member_list_is_unknown
           (MkExporter "Me" [] []) (MkChat "19:g" (Some EmptyString))
           [MkMember (Some "Me")]).
  repeat constructor.
Defined.

End UnknownMembers.

(** ** The message filter *)

Section FilterFacts.

Import PyStr.

Lemma sender_of_dict (d : list (string * json)) :
  exists sender, sender_of (JDict d) = Ok sender.
Proof.
  unfold sender_of. cbn [Py.get rbind].
  destruct (default JNull (Py.lookup "from" d)) as [| b | n | s | l | f];
    cbn [Py.truthy Py.is_dict andb]; try (rewrite ?andb_false_r; eauto; fail).
  destruct f as [| kv f]; cbn [andb]; [eauto |].
  cbn [Py.get rbind].
  destruct (default JNull (Py.lookup "user" (kv :: f))) as [| b | n | s | l | u];
    cbn [Py.truthy Py.is_dict andb]; try (rewrite ?andb_false_r; eauto; fail).
  destruct u as [| kv' u]; cbn [andb Py.get_or]; eauto.
Qed.

Lemma blank_markup_has_nothing (raw : string) :
  strip (strip_tags raw) = EmptyString ->
  img_matches raw = [] ->
  has_text_or_images raw = false.
Proof.
  intros Htext Himg. unfold has_text_or_images.
  rewrite Htext, Himg.
  now destruct (contains SYSTEM_EVENT raw && _).
Qed.

(** C9. A message whose body content, once every tag is removed, is
    empty or white space, and which holds no image reference, is
    discarded: [validate_message_content] returns [False].  A content that
    is null or absent counts as the empty text. *)
Theorem validate_discards_blank_markup (msg body content : json) (raw : string) :
  Py.get_or msg "body" (JDict []) = Ok body ->
  Py.get body "content" = Ok content ->
  content = JStr raw \/ (content = JNull /\ raw = EmptyString) ->
  strip (strip_tags raw) = EmptyString ->
  img_matches raw = [] ->
  validate_message_content msg = Ok false.
Proof.
  intros Hbody Hcontent Hraw Htext Himg.
  destruct msg as [| b | n | s | l | d]; try discriminate.
  unfold validate_message_content.
  cbn [Py.get rbind].
  destruct (negb (Py.eq_str _ "message")); [reflexivity |].
  destruct (sender_of_dict d) as [sender ->]. cbn [rbind].
  destruct (Py.eq_str sender "Unknown"); [reflexivity |].
  rewrite Hbody. cbn [rbind]. rewrite Hcontent. cbn [rbind].
  destruct Hraw as [-> | [-> _]]; [| reflexivity].
  destruct (Py.truthy (JStr raw)) eqn:Htruthy; cbn [negb].
  - rewrite Htruthy. cbn [negb Py.strip rbind].
    destruct (String.eqb (strip raw) EmptyString); [reflexivity |].
    now rewrite blank_markup_has_nothing.
  - reflexivity.
Qed.

End FilterFacts.

Lemma validate_discards_blank_markup_witness :
  validate_message_content blank_message = Ok false.
Proof.
  apply (validate_discards_blank_markup
           blank_message (JDict [("content", JStr "<p> <br/> </p>")])
           (JStr "<p> <br/> </p>") "<p> <br/> </p>");
    try reflexivity.
  now left.
Defined.

(** ** The pagination loop *)

Section PaginationFacts.

Variable net : http.
Variable progress_callback : option (nat -> string -> list string).
Variable context : string.

#[local] Abbreviation report_ := (report progress_callback context).
#[local] Abbreviation request_ := (request net progress_callback context).
#[local] Abbreviation paginate_ := (paginate net progress_callback context).

Lemma fold_print_requests (lines : list string) (w : world) :
  requests (fold_left (fun w' line => print line w') lines w) = requests w
  /\ files (fold_left (fun w' line => print line w') lines w) = files w.
Proof.
  revert w. induction lines as [| l lines IH]; intros w; [easy |].
  cbn [fold_left]. destruct (IH (print l w)) as [-> ->]. easy.
Qed.

Lemma report_requests (n : nat) (w : world) :
  requests (report_ n w) = requests w /\ files (report_ n w) = files w.
Proof.
  unfold report. destruct progress_callback; [| easy].
  apply fold_print_requests.
Qed.

(** A successful page: what [request] does with it. *)
Lemma request_page (u : json) (r : response) (d : list (string * json))
      (batch all_items : list json) (w : world) :
  net u = inl r ->
  status_code r = 200%Z ->
  json_body r = inr (JDict d) ->
  Py.iterate (default (JList []) (Py.lookup "value" d)) = Ok batch ->
  request_ u all_items w
  = Next (default JNull (Py.lookup "@odata.nextLink" d))
         (all_items ++ batch)
         (report_ (length (all_items ++ batch)) (send u w)).
Proof.
  intros Hnet Hstatus Hjson Hbatch.
  unfold request, page. rewrite Hnet, Hstatus, Hjson.
  cbn [Z.eqb Pos.eqb rbind Py.get_or Py.get]. rewrite Hbatch. reflexivity.
Qed.

(** A failed request: the line is printed and the loop breaks. *)
Lemma request_failed (u : json) (line : string) (all_items : list json)
      (w : world) :
  failed net u line ->
  request_ u all_items w = Break (print line (send u w)).
Proof.
  intros [e Hnet | r Hnet Hstatus]; unfold request; rewrite Hnet.
  - reflexivity.
  - destruct (Z.eqb_spec (status_code r) 200); [contradiction | reflexivity].
Qed.

Lemma paginate_pages_then_failure
      (u : json) (urls items : list json) (u' : json) (line : string) :
  pages net u urls items u' ->
  Py.truthy u' = true ->
  failed net u' line ->
  forall (fuel : nat) (all_items : list json) (w : world),
    (length urls < fuel)%nat ->
    exists w',
      paginate_ fuel u all_items w = Some ((all_items ++ items)%list, w')
      /\ requests w' = (requests w ++ urls ++ [u'])%list
      /\ files w' = files w
      /\ last (stdout w') = Some line.
Proof.
  intros Hpages Htruthy Hfailed.
  induction Hpages as [u | u r d batch urls items u' Hu Hnet Hstatus Hjson Hbatch _ IH];
    intros fuel all_items w Hfuel.
  - destruct fuel as [| fuel]; [cbn in Hfuel; lia |].
    cbn [paginate]. rewrite Htruthy. cbn [negb].
    rewrite (request_failed _ _ _ _ Hfailed).
    eexists. split; [now rewrite app_nil_r |].
    cbn [requests files stdout print send]. repeat split.
    apply last_snoc.
  - destruct fuel as [| fuel]; [cbn in Hfuel; lia |].
    cbn [paginate]. rewrite Hu. cbn [negb].
    rewrite (request_page _ _ _ _ _ _ Hnet Hstatus Hjson Hbatch).
    destruct (IH Htruthy Hfailed fuel (all_items ++ batch)%list
                 (report_ (length (all_items ++ batch)) (send u w)))
      as (w' & Hrun & Hreq & Hfiles & Hout).
    { cbn [length] in Hfuel. lia. }
    exists w'. rewrite Hrun, <- app_assoc. split; [reflexivity |].
    destruct (report_requests (length (all_items ++ batch)) (send u w)) as [Hr Hf].
    rewrite Hreq, Hfiles, Hr, Hf. cbn [requests files send].
    rewrite <- app_assoc. easy.
Qed.

(** C5. When the requests of the loop succeed for a while and the next
    one comes back with a status other than 200 or raises, the loop
    prints the error and stops at once: it has sent exactly the requests
    up to the failed one, and it returns the items of the pages fetched
    before it, in order. *)
Theorem pagination_stops_at_first_failure
        (url : string) (urls items : list json) (u' : json) (line : string)
        (fuel : nat) (w : world) :
  pages net (JStr url) urls items u' ->
  Py.truthy u' = true ->
  failed net u' line ->
  (length urls < fuel)%nat ->
  exists w',
    make_paginated_request net progress_callback context fuel url w
    = Some (items, w')
    /\ requests w' = (requests w ++ urls ++ [u'])%list
    /\ last (stdout w') = Some line.
Proof.
  intros Hpages Htruthy Hfailed Hfuel.
  destruct (paginate_pages_then_failure _ _ _ _ _ Hpages Htruthy Hfailed
              fuel [] w Hfuel) as (w' & Hrun & Hreq & _ & Hout).
  exists w'. unfold make_paginated_request. now rewrite Hrun.
Qed.

(** C6. A first page that comes back with a batch of items and without a
    next-page cursor ends the loop after that one request; the items
    returned are those of the page, in their order. *)
Theorem single_page_without_cursor
        (url : string) (r : response) (d : list (string * json))
        (items : list json) (fuel : nat) (w : world) :
  url <> EmptyString ->
  net (JStr url) = inl r ->
  status_code r = 200%Z ->
  json_body r = inr (JDict d) ->
  Py.lookup "value" d = Some (JList items) ->
  Py.lookup "@odata.nextLink" d = None ->
  exists w',
    make_paginated_request net progress_callback context (S fuel) url w
    = Some (items, w')
    /\ requests w' = (requests w ++ [JStr url])%list.
Proof.
  intros Hurl Hnet Hstatus Hjson Hvalue Hnext.
  unfold make_paginated_request. cbn [paginate Py.truthy].
  destruct (String.eqb_spec url EmptyString) as [E | _]; [contradiction |].
  cbn [negb].
  rewrite (request_page _ _ d items [] w Hnet Hstatus Hjson)
    by (now rewrite Hvalue).
  rewrite Hnext. cbn [default app].
  destruct fuel; cbn [paginate Py.truthy negb];
    (eexists; split; [reflexivity |]);
    now destruct (report_requests (length items) (send (JStr url) w)) as [-> _].
Qed.

End PaginationFacts.

Lemma pagination_stops_at_first_failure_witness :
  exists w',
    make_paginated_request demo_server None EmptyString 3 "u0" empty_world
    = Some ([JNum 1; JNum 2; JNum 3], w')
    /\ requests w' = [JStr "u0"; JStr "u1"; JStr "u2"]
    /\ last (stdout w') = Some "Error in API request: 503".
Proof.
  apply (pagination_stops_at_first_failure demo_server None EmptyString
           "u0" [JStr "u0"; JStr "u1"] [JNum 1; JNum 2; JNum 3] (JStr "u2")
           "Error in API request: 503" 3 empty_world).
  - eapply (pages_next demo_server (JStr "u0") _ _ [JNum 1; JNum 2]
              [JStr "u1"] [JNum 3] (JStr "u2")); try reflexivity.
    eapply (pages_next demo_server (JStr "u1") _ _ [JNum 3] [] [] (JStr "u2"));
      try reflexivity.
    apply pages_done.
  - reflexivity.
  - apply (failed_status demo_server (JStr "u2")
             (MkResponse 503 EmptyString (inl "not JSON"))); [reflexivity |].
    discriminate.
  - cbn. lia.
Defined.

Lemma single_page_without_cursor_witness :
  exists w',
    make_paginated_request demo_server None EmptyString 1 "s" empty_world
    = Some ([JNum 7; JNum 8], w')
    /\ requests w' = [JStr "s"].
Proof.
  apply (single_page_without_cursor demo_server None EmptyString "s"
           (MkResponse 200 EmptyString (inr (JDict [("value", JList [JNum 7; JNum 8])])))
           [("value", JList [JNum 7; JNum 8])] [JNum 7; JNum 8] 0 empty_world);
    (discriminate || reflexivity).
Defined.

(** ** Sorting by creation time *)

Section SortingFacts.

(** The order of [str] *)

Lemma lt_iff (a b : string) : PyStr.lt a b = true <-> String_as_OT.lt a b.
Proof.
  unfold PyStr.lt. rewrite <- String_as_OT.cmp_lt. unfold String_as_OT.cmp.
  destruct (String.compare a b); intuition congruence.
Qed.

Lemma lt_asym (a b : string) : PyStr.lt a b = true -> PyStr.lt b a = false.
Proof.
  intros Hab. destruct (PyStr.lt b a) eqn:Hba; [| reflexivity].
  apply lt_iff in Hab, Hba.
  exfalso. apply (String_as_OT.lt_not_eq a a); [| reflexivity].
  exact (String_as_OT.lt_trans _ _ _ Hab Hba).
Qed.

Lemma lt_total (a b : string) :
  PyStr.lt a b = false -> PyStr.lt b a = false -> a = b.
Proof.
  unfold PyStr.lt. rewrite (String.compare_antisym b a).
  destruct (String.compare a b) eqn:E; cbn [CompOpp]; try discriminate.
  intros _ _. now apply String.compare_eq_iff.
Qed.

(** "not after" is transitive. *)
Lemma not_lt_trans (a b c : string) :
  PyStr.lt b a = false -> PyStr.lt c b = false -> PyStr.lt c a = false.
Proof.
  intros Hba Hcb. destruct (PyStr.lt c a) eqn:Hca; [| reflexivity].
  destruct (PyStr.lt a b) eqn:Hab.
  - apply lt_iff in Hca, Hab.
    assert (Hcb' : PyStr.lt c b = true)
      by (apply lt_iff; exact (String_as_OT.lt_trans _ _ _ Hca Hab)).
    congruence.
  - assert (a = b) by now apply lt_total. subst. congruence.
Qed.

(** The insertion sort on keyed messages *)

Lemma insert_by_key_perm (x : string * json) (l : list (string * json)) :
  Permutation (x :: l) (insert_by_key x l).
Proof.
  induction l as [| y l IH]; cbn [insert_by_key]; [reflexivity |].
  destruct (PyStr.lt (fst y) (fst x)); [| reflexivity].
  rewrite perm_swap. now apply perm_skip.
Qed.

Lemma sort_by_key_perm (l : list (string * json)) :
  Permutation l (sort_by_key l).
Proof.
  induction l as [| x l IH]; cbn [sort_by_key fold_right]; [reflexivity |].
  rewrite <- insert_by_key_perm. now apply perm_skip.
Qed.

Lemma insert_by_key_sorted (x : string * json) (l : list (string * json)) :
  StronglySorted key_le l -> StronglySorted key_le (insert_by_key x l).
Proof.
  induction 1 as [| y l Hl IH Hy]; cbn [insert_by_key].
  - repeat constructor.
  - destruct (PyStr.lt (fst y) (fst x)) eqn:Hyx.
    + constructor; [exact IH |].
      rewrite <- insert_by_key_perm. constructor; [| exact Hy].
      unfold key_le. now apply lt_asym.
    + constructor; [now constructor |].
      constructor; [exact Hyx |].
      rewrite List.Forall_forall in Hy |- *. intros z Hz.
      unfold key_le in *. eapply not_lt_trans; [exact Hyx | now apply Hy].
Qed.

Lemma sort_by_key_sorted (l : list (string * json)) :
  StronglySorted key_le (sort_by_key l).
Proof.
  induction l as [| x l IH]; cbn [sort_by_key fold_right]; [constructor |].
  now apply insert_by_key_sorted.
Qed.

(** The keys that [sort_messages] computes *)

Lemma keyed_snd (f : json -> result json) (msgs : list json)
      (ks : list (json * json)) :
  keyed f msgs = Ok ks -> map snd ks = msgs.
Proof.
  revert ks. induction msgs as [| m msgs IH]; intros ks; cbn [keyed].
  - now intros [= <-].
  - destruct (f m) as [k |]; cbn [rbind]; [| discriminate].
    destruct (keyed f msgs) as [rest |]; cbn [rbind]; [| discriminate].
    intros [= <-]. cbn [map snd]. now rewrite (IH rest).
Qed.

Lemma keyed_keys (f : json -> result json) (msgs : list json)
      (ks : list (json * json)) :
  keyed f msgs = Ok ks -> Forall (fun km => f (snd km) = Ok (fst km)) ks.
Proof.
  revert ks. induction msgs as [| m msgs IH]; intros ks; cbn [keyed].
  - intros [= <-]. constructor.
  - destruct (f m) as [k |] eqn:Hk; cbn [rbind]; [| discriminate].
    destruct (keyed f msgs) as [rest |]; cbn [rbind]; [| discriminate].
    intros [= <-]. constructor; [exact Hk | now apply IH].
Qed.

Lemma string_keys_spec (ks : list (json * json)) (ss : list (string * json)) :
  string_keys ks = Ok ss ->
  map snd ss = map snd ks
  /\ (forall f, Forall (fun km => f (snd km) = Ok (fst km)) ks ->
                Forall (fun sm => f (snd sm) = Ok (JStr (fst sm))) ss).
Proof.
  revert ss. induction ks as [| [k m] ks IH]; intros ss; cbn [string_keys].
  - intros [= <-]. split; [reflexivity | constructor].
  - destruct k as [| | | s | |]; cbn [key_string rbind]; try discriminate.
    destruct (string_keys ks) as [rest |]; cbn [rbind]; [| discriminate].
    intros [= <-]. destruct (IH rest eq_refl) as [Hsnd Hkeys].
    split; [cbn [map snd]; now rewrite Hsnd |].
    intros f Hf. inversion Hf; subst. constructor; [assumption | now apply Hkeys].
Qed.

Lemma sorted_map_snd (l : list (string * json)) :
  StronglySorted key_le l ->
  Forall (fun sm => created_key (snd sm) = Ok (JStr (fst sm))) l ->
  StronglySorted created_le (map snd l).
Proof.
  induction 1 as [| x l Hl IH Hx]; intros Hk; cbn [map]; [constructor |].
  inversion Hk as [| ? ? Hkx Hkl]; subst.
  constructor; [now apply IH |].
  rewrite List.Forall_forall in *. intros m Hm.
  apply in_map_iff in Hm as ([s m'] & <- & Hin).
  exists (fst x), s. repeat split; [exact Hkx | exact (Hkl _ Hin) |].
  exact (Hx _ Hin).
Qed.

Lemma sort_messages_spec (messages sorted : list json) :
  sort_messages messages = Ok sorted ->
  Permutation messages sorted /\ StronglySorted created_le sorted.
Proof.
  unfold sort_messages.
  destruct (keyed created_key messages) as [ks |] eqn:Hks; cbn [rbind];
    [| discriminate].
  destruct messages as [| m1 [| m2 messages]].
  - intros [= <-]. split; [reflexivity | constructor].
  - intros [= <-]. split; [reflexivity | repeat constructor].
  - destruct (string_keys ks) as [ss |] eqn:Hss; cbn [rbind]; [| discriminate].
    intros [= <-].
    destruct (string_keys_spec _ _ Hss) as [Hsnd Hkeys].
    specialize (Hkeys created_key (keyed_keys _ _ _ Hks)).
    rewrite (keyed_snd _ _ _ Hks) in Hsnd.
    split.
    + rewrite <- Hsnd. apply Permutation_map, sort_by_key_perm.
    + apply sorted_map_snd; [apply sort_by_key_sorted |].
      eapply Permutation_Forall; [apply sort_by_key_perm | exact Hkeys].
Qed.

(** Filtering *)

Lemma filter_messages_spec (keep : json -> result bool) (msgs out : list json) :
  filter_messages keep msgs = Ok out <->
  Forall (fun m => exists b, keep m = Ok b) msgs /\ out = List.filter (kept keep) msgs.
Proof.
  revert out. induction msgs as [| m msgs IH]; intros out; cbn [filter_messages].
  - split; [intros [= <-]; split; [constructor | reflexivity] | now intros [_ ->]].
  - cbn [List.filter].
    destruct (keep m) as [b |] eqn:Hm; cbn [rbind].
    + assert (Hkm : kept keep m = b) by (unfold kept; rewrite Hm; now destruct b).
      rewrite Hkm.
      destruct (filter_messages keep msgs) as [rest |] eqn:Hrest; cbn [rbind].
      * destruct (proj1 (IH rest) eq_refl) as [Hall ->].
        split.
        -- intros [= <-]. split; [constructor; eauto |]. now destruct b.
        -- intros [_ ->]. now destruct b.
      * split; [discriminate |]. intros [Hall _].
        inversion Hall as [| ? ? _ Hmsgs]; subst.
        pose proof (proj2 (IH _) (conj Hmsgs eq_refl)) as Hok. discriminate.
    + split; [discriminate |]. intros [Hall _]. inversion Hall as [| ? ? [b Hb] ?].
      congruence.
Qed.

Lemma filter_perm (f : json -> bool) (l l' : list json) :
  Permutation l l' -> Permutation (List.filter f l) (List.filter f l').
Proof.
  induction 1 as [| x l l' _ IH | x y l | l l' l'' _ IH1 _ IH2]; cbn [List.filter].
  - reflexivity.
  - destruct (f x); [now apply perm_skip | exact IH].
  - destruct (f x), (f y); try reflexivity. apply perm_swap.
  - now rewrite IH1.
Qed.

Lemma filter_sorted (R : json -> json -> Prop) (f : json -> bool) (l : list json) :
  StronglySorted R l -> StronglySorted R (List.filter f l).
Proof.
  induction 1 as [| x l Hl IH Hx]; cbn [List.filter]; [constructor |].
  destruct (f x); [| exact IH].
  constructor; [exact IH |].
  rewrite List.Forall_forall in *. intros y Hy. apply Hx.
  now apply filter_In in Hy.
Qed.

Lemma sort_then_filter (keep : json -> result bool)
      (messages sorted rendered : list json) :
  sort_messages messages = Ok sorted ->
  filter_messages keep sorted = Ok rendered ->
  StronglySorted created_le rendered
  /\ exists filtered,
       filter_messages keep messages = Ok filtered
       /\ Permutation filtered rendered.
Proof.
  intros Hsort Hfilter.
  destruct (sort_messages_spec _ _ Hsort) as [Hperm Hsorted].
  apply filter_messages_spec in Hfilter as [Hall ->].
  split; [now apply filter_sorted |].
  exists (List.filter (kept keep) messages). split.
  - apply filter_messages_spec. split; [| reflexivity].
    eapply Permutation_Forall; [symmetry; exact Hperm | exact Hall].
  - now apply filter_perm.
Qed.

(** With string keys the sort does not raise. *)
Lemma sort_messages_total (messages : list json) :
  Forall (fun m => exists k, created_key m = Ok (JStr k)) messages ->
  exists sorted, sort_messages messages = Ok sorted.
Proof.
  intros Hkeys. unfold sort_messages.
  assert (Hks : exists ks, keyed created_key messages = Ok ks
                           /\ exists ss, string_keys ks = Ok ss).
  { induction Hkeys as [| m messages [k Hk] _ (ks & Hks & ss & Hss)].
    - exists []. split; [reflexivity | now exists []].
    - exists ((JStr k, m) :: ks). cbn [keyed string_keys key_string].
      rewrite Hk, Hks, Hss. cbn [rbind]. eauto. }
  destruct Hks as (ks & -> & ss & Hss). cbn [rbind]. rewrite Hss. cbn [rbind].
  destruct messages as [| m1 [| m2 messages]]; eauto.
Qed.

(** The order of the statement and the order of the code *)

Lemma lt_lex (a b : string) : PyStr.lt a b = true <-> lex_lt a b.
Proof.
  rewrite lt_iff. split.
  - induction 1 as [c t | c s t _ IH | c d s t Hcd]; now constructor.
  - induction 1 as [c t | c d s t Hcd | c s t _ IH].
    + apply String_as_OT.lts_empty.
    + now apply String_as_OT.lts_head.
    + now apply String_as_OT.lts_tail.
Qed.

Lemma member_of_lookup (k : string) (d : list (string * json)) :
  member_of k d = Py.lookup k d.
Proof.
  induction d as [| [k' v] d IH]; [reflexivity |].
  cbn [member_of Py.lookup]. now rewrite IH.
Qed.

Lemma time_of_created_key (m : json) (s : string) :
  time_of m = Some s <-> created_key m = Ok (JStr s).
Proof.
  unfold time_of, created_key, Py.get_or.
  destruct m as [| b | n | t | l | d]; try (split; discriminate).
  rewrite member_of_lookup.
  destruct (Py.lookup "createdDateTime" d) as [[| b | n | t | l | d'] |];
    cbn [from_option id]; split; intros H; try discriminate; congruence.
Qed.

Lemma created_le_time_le (a b : json) : created_le a b -> time_le a b.
Proof.
  intros (ka & kb & Ha & Hb & Hlt). exists ka, kb.
  repeat split; [now apply time_of_created_key | now apply time_of_created_key |].
  intros Hlex. apply lt_lex in Hlex. congruence.
Qed.

Lemma sorted_impl {A : Type} (R R' : A -> A -> Prop) (l : list A) :
  (forall a b, R a b -> R' a b) -> StronglySorted R l -> StronglySorted R' l.
Proof.
  intros Himpl. induction 1 as [| x l _ IH Hx]; constructor; [exact IH |].
  eapply List.Forall_impl; [| exact Hx]. intros b. apply Himpl.
Qed.

Lemma subsequence_in {A : Type} (l l' : list A) (x : A) :
  subsequence l l' -> In x l -> In x l'.
Proof.
  induction 1 as [| y l l' _ IH | y l l' _ IH]; cbn [In]; [easy | auto |].
  intros [-> | Hin]; auto.
Qed.

Lemma subsequence_sorted {A : Type} (R : A -> A -> Prop) (l l' : list A) :
  subsequence l l' -> StronglySorted R l' -> StronglySorted R l.
Proof.
  induction 1 as [| y l l' Hsub IH | y l l' Hsub IH]; intros Hsorted.
  - constructor.
  - inversion Hsorted; subst. now apply IH.
  - inversion Hsorted as [| ? ? Hl' Hy]; subst.
    constructor; [now apply IH |].
    rewrite List.Forall_forall in *. intros x Hx. apply Hy.
    exact (subsequence_in _ _ _ Hsub Hx).
Qed.

Variable IGNORED_CHANNELS : list (string * string).
Variable charref_sub : string -> string.
Variable net : http.
Variable open_error : string -> option string.
Variable cwd : string.
Variable str_of : json -> string.
Variable access_token : string.
Variable image_folder : string.
Variable user_display_name : string.

#[local] Abbreviation append_ :=
  (append_messages charref_sub net open_error cwd str_of
     access_token image_folder user_display_name).

(** The loop that appends the HTML goes through the messages in their
    order and leaves some out. *)
Lemma append_messages_subsequence (msgs : list json) (w : world) :
  subsequence (map fst (fst (append_ msgs w))) msgs.
Proof.
  revert w. induction msgs as [| msg msgs IH]; intros w; [constructor |].
  cbn [append_messages].
  destruct (generate_message_html _ _ _ _ _ _ _ _ msg w) as [h w1].
  specialize (IH w1).
  destruct (append_ msgs w1) as [appended w2]. cbn [fst] in *.
  destruct h; cbn [map fst]; now constructor.
Qed.


End SortingFacts.


(** The two messages come out with the earlier one first. *)
Example earlier_message_first :
  chat_rendered [later_message; earlier_message] = Ok [earlier_message; later_message].
Proof. vm_compute. reflexivity. Qed.


(** ** The content normalizer *)

Section NormalizerFacts.

Import PyStr.

Variable charref_sub : string -> string.
Variable net : http.
Variable open_error : string -> option string.
Variable cwd : string.

#[local] Abbreviation download_ := (download_image_from_src net open_error cwd).
#[local] Abbreviation resolve_ := (resolve_images net open_error cwd).
#[local] Abbreviation process_ := (process_message_content charref_sub net open_error cwd).

(** A download sends at most one request, for the URL it is given. *)
Lemma download_requests (src_url token folder message_id : string)
      (index : nat) (w : world) :
  let w' := snd (download_ src_url token folder message_id index w) in
  requests w' = requests w \/ requests w' = (requests w ++ [JStr src_url])%list.
Proof.
  unfold download_image_from_src.
  destruct (negb (path_exists _ w)); [| now left].
  destruct (net (JStr src_url)) as [r | e]; [| now right].
  destruct (status_code r =? 200)%Z; [destruct (open_error _) |]; now right.
Qed.

Lemma resolve_images_requests (token folder message_id : string)
      (imgs : list string) :
  forall (idx : nat) (clean_content : string) (w : world),
  exists sent : list string,
    requests (snd (resolve_ imgs idx token folder message_id clean_content w))
    = (requests w ++ map JStr sent)%list
    /\ Forall (fun u => startswith GRAPH_HOST u = true /\ In u imgs) sent.
Proof.
  induction imgs as [| img_url imgs IH]; intros idx clean_content w.
  - exists []. cbn. now rewrite app_nil_r.
  - cbn [resolve_images].
    assert (Hweaken : forall sent,
               Forall (fun u => startswith GRAPH_HOST u = true /\ In u imgs) sent ->
               Forall (fun u => startswith GRAPH_HOST u = true /\ In u (img_url :: imgs)) sent).
    { intros sent. apply List.Forall_impl. intros u [? ?]. split; [assumption | now right]. }
    destruct (startswith GRAPH_HOST img_url) eqn:Hhost.
    + pose proof (download_requests img_url token folder message_id idx w) as Hd.
      destruct (download_ img_url token folder message_id idx w) as [[p |] w1];
        cbn [snd] in Hd;
        match goal with
        | |- context [resolve_ imgs (S idx) token folder message_id ?c w1] =>
            destruct (IH (S idx) c w1) as (sent & Hreq & Hsent)
        end;
        (destruct Hd as [Hd | Hd]; rewrite Hreq, Hd;
         [ exists sent; split; [reflexivity | now apply Hweaken]
         | exists (img_url :: sent); split;
           [ now rewrite <- app_assoc
           | constructor; [split; [assumption | now left] | now apply Hweaken] ] ]).
    + destruct (IH (S idx) clean_content w) as (sent & Hreq & Hsent).
      exists sent. split; [exact Hreq | now apply Hweaken].
Qed.

Lemma process_unfold (raw_content message_id access_token image_folder : string)
      (w : world) :
  let text := replace_emoji_tags (html_unescape charref_sub raw_content) in
  let resolved :=
    resolve_ (img_matches text) 0 access_token image_folder message_id text w in
  process_ raw_content message_id access_token image_folder w
  = (wrap_images_with_lightbox (clean_img_tags (fst resolved)), snd resolved).
Proof.
  unfold process_message_content. cbn zeta.
  now destruct (resolve_ _ _ _ _ _ _ _).
Qed.

(** C1, as the code has it. Normalization sends requests only for image
    references that start with the address of the platform: whatever the
    body, every request it sends is for such a reference of the body, so
    that no download is attempted for an image hosted elsewhere. *)
Theorem external_images_are_not_downloaded
        (raw_content message_id access_token image_folder : string) (w : world) :
  exists sent : list string,
    requests (snd (process_ raw_content message_id access_token image_folder w))
    = (requests w ++ map JStr sent)%list
    /\ Forall (fun u =>
                 startswith GRAPH_HOST u = true
                 /\ In u (img_matches
                            (replace_emoji_tags (html_unescape charref_sub raw_content))))
              sent.
Proof.
  rewrite process_unfold. cbn zeta. cbn [snd].
  apply resolve_images_requests.
Qed.

Lemma resolve_images_local (token folder message_id : string)
      (imgs : list string) :
  Forall (fun u => startswith GRAPH_HOST u = false) imgs ->
  forall (idx : nat) (clean_content : string) (w : world),
    resolve_ imgs idx token folder message_id clean_content w = (clean_content, w).
Proof.
  induction 1 as [| img_url imgs Hhost _ IH]; intros idx clean_content w;
    cbn [resolve_images]; [reflexivity |].
  rewrite Hhost. apply IH.
Qed.

(** C4, as the code has it. The function looks for image references in
    the text it obtains from the markup by decoding the character
    references and replacing the emoji tags.  When no image reference of
    that text starts with the address of the platform (every one is a
    local path already), normalization downloads nothing: it sends no
    request, writes no file and prints nothing, and what it returns is
    that text passed through [clean_img_tags] and
    [wrap_images_with_lightbox]. *)
Theorem resolved_markup_is_not_downloaded_again
        (raw_content message_id access_token image_folder : string) (w : world) :
  Forall (fun u => startswith GRAPH_HOST u = false)
         (img_matches (replace_emoji_tags (html_unescape charref_sub raw_content))) ->
  process_ raw_content message_id access_token image_folder w
  = (wrap_images_with_lightbox
       (clean_img_tags
          (replace_emoji_tags (html_unescape charref_sub raw_content))),
     w).
Proof.
  intros Hlocal. rewrite process_unfold. cbn zeta.
  now rewrite (resolve_images_local _ _ _ _ Hlocal).
Qed.

End NormalizerFacts.

Section NormalizerExamples.

Import PyStr.

(** C1, as stated, fails: an image hosted elsewhere is not downloaded,
    but its element is rewritten; the other attributes are dropped and a
    lightbox anchor is put around it. *)
Lemma external_image_is_rewritten :
  let out := process_message_content no_table unreachable writable export_dir
               external_body "m1" "token" "img" empty_world in
  img_matches external_body = ["http://example.com/a.png"]
  /\ startswith GRAPH_HOST "http://example.com/a.png" = false
  /\ contains (sq "<img alt='chart' src='http://example.com/a.png' width='300'>")
              external_body = true
  /\ requests (snd out) = []
  /\ fst out
     = sq "<p>see <a href='http://example.com/a.png' class='lightbox'><img src='http://example.com/a.png'></a></p>"
  /\ contains (sq "<img alt='chart' src='http://example.com/a.png' width='300'>")
              (fst out) = false.
Proof. vm_compute. repeat split; reflexivity. Qed.

(** C3. When the download comes back with status 404, no file is
    written, and yet the remote address is replaced by the local path. *)
Lemma failed_status_rewrites_to_missing_file :
  let out := process_message_content no_table not_found writable export_dir
               hosted_body "m1" "token" "img" empty_world in
  img_matches hosted_body = [hosted_url]
  /\ requests (snd out) = [JStr hosted_url]
  /\ files (snd out) !! "img/m1_img0.jpg" = None
  /\ fst out
     = sq "<p>see <a href='img/m1_img0.jpg' class='lightbox'><img src='img/m1_img0.jpg'></a></p>"
  /\ contains hosted_url (fst out) = false.
Proof. vm_compute. repeat split; reflexivity. Qed.

(** When the request raises instead, the remote address stays. *)
Lemma network_error_keeps_remote_address :
  let out := process_message_content no_table unreachable writable export_dir
               hosted_body "m1" "token" "img" empty_world in
  fst out
  = "<p>see <a href=" ++ dq ++ hosted_url ++ dq ++ " class=" ++ dq ++ "lightbox"
    ++ dq ++ "><img src=" ++ dq ++ hosted_url ++ dq ++ "></a></p>"
  /\ stdout (snd out)
     = ["Error downloading image " ++ hosted_url ++ ": connection refused"].
Proof. vm_compute. split; reflexivity. Qed.

(** C4, as stated, fails: the second pass over resolved markup sends no
    request, but it wraps the image once more, so that its output is not
    its input. *)
Lemma second_pass_wraps_again :
  let first := process_message_content no_table image_server writable export_dir
                 hosted_body "m1" "token" "img" empty_world in
  let second := process_message_content no_table image_server writable export_dir
                  (fst first) "m1" "token" "img" (snd first) in
  img_matches (fst first) = ["img/m1_img0.jpg"]
  /\ files (snd first) !! "img/m1_img0.jpg" = Some "JPEG"
  /\ requests (snd second) = requests (snd first)
  /\ fst first
     = sq "<p>see <a href='img/m1_img0.jpg' class='lightbox'><img src='img/m1_img0.jpg'></a></p>"
  /\ fst second
     = sq "<p>see <a href='img/m1_img0.jpg' class='lightbox'><a href='img/m1_img0.jpg' class='lightbox'><img src='img/m1_img0.jpg'></a></a></p>"
  /\ fst second <> fst first.
Proof. vm_compute. repeat split; try reflexivity. discriminate. Qed.

(** The condition of C4 is on the decoded text, not on the markup handed
    in.  An image element that is escaped twice comes out of a first
    pass escaped once, without a download; that output holds no image
    reference as it stands, and the second pass decodes it, requests the
    image and writes the file. *)
Lemma escaped_reference_is_downloaded :
  let first := process_message_content basic_entities image_server writable export_dir
                 escaped_twice "m1" "token" "img" empty_world in
  let second := process_message_content basic_entities image_server writable export_dir
                  (fst first) "m1" "token" "img" (snd first) in
  first = (escaped_once, empty_world)
  /\ img_matches escaped_once = []
  /\ requests (snd second) = [JStr "https://graph.microsoft.com/x"]
  /\ files (snd second) !! "img/m1_img0.jpg" = Some "JPEG"
  /\ fst second
     = sq "<a href='img/m1_img0.jpg' class='lightbox'><img src='img/m1_img0.jpg'></a>".
Proof. vm_compute. repeat split; reflexivity. Qed.

Lemma resolved_markup_is_not_downloaded_again_witness :
  let resolved :=
    sq "<p>see <a href='img/m1_img0.jpg' class='lightbox'><img src='img/m1_img0.jpg'></a></p>" in
  process_message_content no_table image_server writable export_dir resolved "m1" "token" "img" empty_world
  = (wrap_images_with_lightbox
       (clean_img_tags (replace_emoji_tags (html_unescape no_table resolved))),
     empty_world).
Proof.
  apply (resolved_markup_is_not_downloaded_again no_table image_server writable export_dir).
  vm_compute. repeat constructor.
Defined.

End NormalizerExamples.

(** ** The placeholder of an empty channel *)

Section PlaceholderFacts.

Variable now : string.
Variable IGNORED_CHANNELS : list (string * string).

#[local] Abbreviation entry_ := (channel_entry now IGNORED_CHANNELS).
#[local] Abbreviation rendered_ := (channel_rendered IGNORED_CHANNELS).

Lemma no_messages_is_rendered (team_name channel_name : string) :
  channel_ignored IGNORED_CHANNELS team_name channel_name = false ->
  rendered_ team_name channel_name [no_messages now] = Ok [no_messages now].
Proof.
  intros Hignored. unfold channel_rendered. rewrite Hignored. reflexivity.
Qed.

(** C2, as the code has it. The list stored for a channel is never empty;
    when the filter keeps none of the messages fetched for a channel that
    is not ignored, the list stored is the single placeholder "No messages
    found in this channel.", and the rendering of the channel keeps that
    placeholder. *)
Theorem empty_channel_gets_placeholder
        (team_name channel_name : string) (all_messages : list json) :
  (forall entry : list json,
      entry_ team_name channel_name all_messages = Ok entry -> entry <> [])
  /\ (channel_ignored IGNORED_CHANNELS team_name channel_name = false ->
      filter_messages validate_message_content all_messages = Ok [] ->
      entry_ team_name channel_name all_messages = Ok [no_messages now]
      /\ rendered_ team_name channel_name [no_messages now] = Ok [no_messages now]).
Proof.
  unfold channel_entry. split.
  - intros entry.
    destruct (channel_ignored IGNORED_CHANNELS team_name channel_name).
    + now intros [= <-].
    + destruct (filter_messages validate_message_content all_messages)
        as [filtered |]; cbn [rbind]; [| discriminate].
      destruct filtered as [| m filtered]; now intros [= <-].
  - intros Hignored Hnone. rewrite Hignored, Hnone. split; [reflexivity |].
    now apply no_messages_is_rendered.
Qed.

End PlaceholderFacts.

(** C2, as stated, fails for chats: a chat whose only message is an empty
    paragraph passes the gate and is listed, its messages are fetched, none
    of them is kept, and nothing takes their place. *)
Lemma chat_without_kept_message_renders_nothing :
  fst (chat_has_messages paragraph_server "c1" empty_world) = true
  /\ option_map fst
       (make_paginated_request paragraph_server None EmptyString 2
          "https://graph.microsoft.com/v1.0/chats/c1/messages" empty_world)
     = Some [empty_paragraph]
  /\ filter_messages render_keep [empty_paragraph] = Ok []
  /\ chat_rendered [empty_paragraph] = Ok [].
Proof. vm_compute. repeat split; reflexivity. Qed.

Lemma empty_channel_gets_placeholder_witness :
  channel_entry "2024-01-03T00:00:00" [] "Team" "General" [empty_paragraph]
  = Ok [no_messages "2024-01-03T00:00:00"]
  /\ channel_rendered [] "Team" "General" [no_messages "2024-01-03T00:00:00"]
     = Ok [no_messages "2024-01-03T00:00:00"].
Proof.
  apply (proj2 (empty_channel_gets_placeholder
                  "2024-01-03T00:00:00" [] "Team" "General" [empty_paragraph]));
    vm_compute; reflexivity.
Defined.

(** The two filters differ: a message that [validate_message_content]
    keeps, so that the channel gets no placeholder, can be dropped when
    the channel is rendered. *)
Example channel_entry_kept_then_dropped :
  channel_entry "2024-01-03T00:00:00" [] "Team" "General" [event_with_text]
  = Ok [event_with_text]
  /\ channel_rendered [] "Team" "General" [event_with_text] = Ok [].
Proof. vm_compute. split; reflexivity. Qed.

(** * Further properties *)

(** ** The normalizer on plain text, and the files it writes *)

Section PlainText.

Import PyStr Re.

Lemma contains_cons (p : string) (a : ascii) (s : string) :
  contains p (String a s) = false ->
  startswith p (String a s) = false /\ contains p s = false.
Proof. cbn [contains]. now intros [? ?]%orb_false_elim. Qed.

(** A pattern that starts with a character the subject does not hold
    matches nowhere. *)
Lemma sub_absent_head (c : ascii) (p : regex) (t : list piece) (s : string) :
  contains (String c EmptyString) s = false ->
  sub (One (Chr c) :: p) t s = s.
Proof.
  unfold sub. induction s as [| a s IH]; intros Hs; [reflexivity |].
  apply contains_cons in Hs as [Hhead Hs]. cbn [startswith] in Hhead.
  rewrite andb_true_r in Hhead.
  cbn [sub_from match_at exec one cmatch]. rewrite Hhead.
  now rewrite IH.
Qed.

Lemma findall_absent_head (c : ascii) (p : regex) (s : string) :
  contains (String c EmptyString) s = false ->
  findall (One (Chr c) :: p) s = [].
Proof.
  unfold findall. induction s as [| a s IH]; intros Hs; [reflexivity |].
  apply contains_cons in Hs as [Hhead Hs]. cbn [startswith] in Hhead.
  rewrite andb_true_r in Hhead.
  cbn [findall_from match_at exec one cmatch]. rewrite Hhead.
  now apply IH.
Qed.

Variable charref_sub : string -> string.
Variable net : http.
Variable open_error : string -> option string.
Variable cwd : string.

(** X1. Text that holds neither an ampersand nor an opening angle
    bracket goes through the normalizer unchanged: nothing is decoded,
    replaced or wrapped, no request is sent and no file is written. *)
Theorem plain_text_is_unchanged
        (raw_content message_id access_token image_folder : string) (w : world) :
  contains "&" raw_content = false ->
  contains "<" raw_content = false ->
  process_message_content charref_sub net open_error cwd
    raw_content message_id access_token image_folder w
  = (raw_content, w).
Proof.
  intros Hamp Hlt. unfold process_message_content, html_unescape.
  rewrite Hamp.
  assert (Hemoji : replace_emoji_tags raw_content = raw_content)
    by (apply (sub_absent_head "<"%char); exact Hlt).
  rewrite Hemoji.
  assert (Himgs : img_matches raw_content = [])
    by (apply (findall_absent_head "<"%char); exact Hlt).
  rewrite Himgs. cbn [resolve_images].
  assert (Hclean : clean_img_tags raw_content = raw_content)
    by (apply (sub_absent_head "<"%char); exact Hlt).
  rewrite Hclean.
  now rewrite (sub_absent_head "<"%char _ _ _ Hlt : wrap_images_with_lightbox raw_content = raw_content).
Qed.

End PlainText.

Lemma plain_text_is_unchanged_witness :
  process_message_content no_table unreachable writable export_dir plain_body "m1" "token" "img" empty_world
  = (plain_body, empty_world).
Proof.
  apply (plain_text_is_unchanged no_table unreachable writable export_dir); reflexivity.
Defined.

Section Files.

Import PyStr.

Variable charref_sub : string -> string.
Variable net : http.
Variable open_error : string -> option string.
Variable cwd : string.

#[local] Abbreviation download_ := (download_image_from_src net open_error cwd).
#[local] Abbreviation resolve_ := (resolve_images net open_error cwd).
#[local] Abbreviation process_ := (process_message_content charref_sub net open_error cwd).

Lemma path_exists_spec (p : string) (w : world) :
  path_exists p w = true <-> exists c, files w !! p = Some c.
Proof.
  unfold path_exists. rewrite bool_decide_eq_true. reflexivity.
Qed.

Lemma path_exists_false (p : string) (w : world) :
  path_exists p w = false <-> files w !! p = None.
Proof.
  unfold path_exists. rewrite bool_decide_eq_false, <- eq_None_not_Some.
  reflexivity.
Qed.

(** The path that a download returns is not the empty string, so that
    the test [if local_img_path] of the caller fails on [None] only. *)
Lemma path_join_not_empty (folder filename : string) :
  folder <> EmptyString -> path_join folder filename <> EmptyString.
Proof.
  intros Hfolder. unfold path_join.
  destruct filename as [| c filename].
  - cbn [startswith]. destruct folder as [| a folder]; [congruence |].
    now destruct (_ || _).
  - destruct (startswith "/" (String c filename)); [discriminate |].
    destruct folder as [| a folder]; [congruence |].
    now destruct (_ || _).
Qed.

Lemma join_all_not_empty (a : string) (p : list string) :
  a <> EmptyString -> join_all a p <> EmptyString.
Proof.
  unfold join_all. revert a. induction p as [| b p IH]; intros a Ha; [exact Ha |].
  cbn [fold_left]. now apply IH, path_join_not_empty.
Qed.

Lemma relpath_not_empty (path start : string) :
  relpath cwd path start <> EmptyString.
Proof.
  unfold relpath.
  set (start_list := path_list cwd start).
  set (parts := path_list cwd path).
  set (i := common start_list parts).
  assert (Hall : Forall (fun x => x <> EmptyString)
                   (repeat ".." (length start_list - i) ++ skipn i parts)%list).
  { apply Forall_app. split.
    - apply List.Forall_forall. intros x Hx. apply repeat_spec in Hx as ->.
      discriminate.
    - apply List.Forall_forall. intros x Hx.
      assert (Hin : In x parts) by (rewrite <- (firstn_skipn i parts); apply in_or_app; now right).
      unfold parts, path_list in Hin. apply filter_In in Hin as [_ Hx'].
      intros ->. discriminate. }
  destruct (repeat ".." (length start_list - i) ++ skipn i parts)%list
    as [| a p]; [discriminate |].
  inversion Hall; subst. now apply join_all_not_empty.
Qed.

Lemma replace_char_not_empty (c : ascii) (new s : string) :
  new <> EmptyString -> s <> EmptyString ->
  replace (String c EmptyString) new s <> EmptyString.
Proof.
  intros Hnew Hs. destruct s as [| a s]; [congruence |].
  unfold replace. cbn [replace_from].
  destruct (startswith (String c EmptyString) (String a s)); [| discriminate].
  destruct new; [congruence | discriminate].
Qed.

Lemma download_path_not_empty (src_url token folder message_id : string)
      (index : nat) (w w' : world) (p : string) :
  download_ src_url token folder message_id index w = (Some p, w') ->
  p <> EmptyString.
Proof.
  unfold download_image_from_src. intros Hload.
  assert (Hlink : replace "\" "/"
                    (relpath cwd
                       (path_join folder
                          (message_id ++ "_img" ++ str_nat index ++ ".jpg"))
                       INDEX_DIR) <> EmptyString)
    by (apply replace_char_not_empty; [discriminate | apply relpath_not_empty]).
  destruct (negb _); [| now injection Hload as <- _].
  destruct (net _) as [r | e]; [| discriminate].
  destruct (_ =? _)%Z; [| now injection Hload as <- _].
  destruct (open_error _); [discriminate | now injection Hload as <- _].
Qed.

(** What one download does to the files. *)
Lemma download_files (src_url token folder message_id : string)
      (index : nat) (w : world) (p c : string) :
  let w' := snd (download_ src_url token folder message_id index w) in
  (files w !! p = Some c -> files w' !! p = Some c)
  /\ (files w' !! p = Some c ->
      files w !! p = Some c
      \/ (p = image_path folder message_id index
          /\ exists r, net (JStr src_url) = inl r
                       /\ status_code r = 200%Z /\ c = content r)).
Proof.
  unfold download_image_from_src. fold (image_path folder message_id index).
  destruct (path_exists (image_path folder message_id index) w) eqn:Hex;
    cbn [negb]; [cbn; tauto |].
  apply path_exists_false in Hex.
  destruct (net (JStr src_url)) as [r | e] eqn:Hnet; [| cbn; tauto].
  destruct (Z.eqb_spec (status_code r) 200) as [Hst | Hst]; [| cbn; tauto].
  destruct (open_error (image_path folder message_id index)); [cbn; tauto |].
  cbn [snd files write_file send]. split.
  - intros Hp. rewrite lookup_insert_ne; [exact Hp | congruence].
  - destruct (decide (image_path folder message_id index = p)) as [<- | Hne].
    + rewrite lookup_insert_eq. intros [= <-]. right. eauto.
    + rewrite lookup_insert_ne by exact Hne. now left.
Qed.

Lemma resolve_files (token folder message_id : string) (imgs : list string)
      (p c : string) :
  forall (idx : nat) (clean_content : string) (w : world),
    let w' := snd (resolve_ imgs idx token folder message_id clean_content w) in
    (files w !! p = Some c -> files w' !! p = Some c)
    /\ (files w' !! p = Some c ->
        files w !! p = Some c
        \/ exists index src_url r,
            p = image_path folder message_id index
            /\ In src_url imgs
            /\ startswith GRAPH_HOST src_url = true
            /\ net (JStr src_url) = inl r
            /\ status_code r = 200%Z /\ c = content r).
Proof.
  induction imgs as [| img_url imgs IH]; intros idx clean_content w;
    [cbn; tauto |].
  cbn [resolve_images].
  assert (Hlift : forall w0 : world,
             (files w0 !! p = Some c
              \/ exists index src_url r,
                  p = image_path folder message_id index
                  /\ In src_url imgs
                  /\ startswith GRAPH_HOST src_url = true
                  /\ net (JStr src_url) = inl r
                  /\ status_code r = 200%Z /\ c = content r) ->
             files w0 !! p = Some c
             \/ exists index src_url r,
                 p = image_path folder message_id index
                 /\ In src_url (img_url :: imgs)
                 /\ startswith GRAPH_HOST src_url = true
                 /\ net (JStr src_url) = inl r
                 /\ status_code r = 200%Z /\ c = content r).
  { intros w0 [H | (i & u & r & ? & ? & ? & ? & ? & ?)]; [now left |].
    right. exists i, u, r. repeat split; try assumption. now right. }
  destruct (startswith GRAPH_HOST img_url) eqn:Hhost.
  - pose proof (download_files img_url token folder message_id idx w p c) as Hd.
    destruct (download_ img_url token folder message_id idx w) as [[lp |] w1];
      cbn [snd] in Hd; destruct Hd as [Hkeep Hnew];
      match goal with
      | |- context [resolve_ imgs (S idx) token folder message_id ?cc w1] =>
          destruct (IH (S idx) cc w1) as [IHkeep IHnew]
      end;
      (split;
       [ intros H; apply IHkeep, Hkeep, H
       | intros H; destruct (Hlift w1 (IHnew H)) as [H1 | H1]; [| now right];
         destruct (Hnew H1) as [H0 | (-> & r & ? & ? & ?)]; [now left |];
         right; exists idx, img_url, r; repeat split; try assumption; now left ]).
  - destruct (IH (S idx) clean_content w) as [IHkeep IHnew].
    split; [exact IHkeep |]. intros H. apply Hlift, IHnew, H.
Qed.

(** X2. The normalizer never removes or changes a file that is there, and
    every file it adds is an image file of the message, named after the
    message and an index, that holds the content of a response with
    status 200 to the request for a hosted image of the body. *)
Theorem normalizer_only_adds_image_files
        (raw_content message_id access_token image_folder : string) (w : world)
        (p c : string) :
  let w' := snd (process_ raw_content message_id access_token image_folder w) in
  (files w !! p = Some c -> files w' !! p = Some c)
  /\ (files w' !! p = Some c ->
      files w !! p = Some c
      \/ exists index src_url r,
          p = image_path image_folder message_id index
          /\ In src_url (img_matches
                           (replace_emoji_tags (html_unescape charref_sub raw_content)))
          /\ startswith GRAPH_HOST src_url = true
          /\ net (JStr src_url) = inl r
          /\ status_code r = 200%Z /\ c = content r).
Proof.
  cbn zeta. rewrite process_unfold. cbn zeta. cbn [snd].
  apply resolve_files.
Qed.

Lemma download_exists (src_url token folder message_id : string)
      (index : nat) (w : world) :
  path_exists (image_path folder message_id index) w = true ->
  download_ src_url token folder message_id index w
  = (Some (image_link cwd folder message_id index), w).
Proof.
  intros Hex. unfold download_image_from_src.
  fold (image_path folder message_id index). now rewrite Hex.
Qed.

Lemma download_saves (src_url token folder message_id : string)
      (index : nat) (w : world) (r : response) :
  path_exists (image_path folder message_id index) w = false ->
  net (JStr src_url) = inl r ->
  status_code r = 200%Z ->
  open_error (image_path folder message_id index) = None ->
  download_ src_url token folder message_id index w
  = (Some (image_link cwd folder message_id index),
     write_file (image_path folder message_id index) (content r)
       (send (JStr src_url) w)).
Proof.
  intros Hex Hnet Hst Hopen. unfold download_image_from_src.
  fold (image_path folder message_id index). now rewrite Hex, Hnet, Hst, Hopen.
Qed.


(** A second run *)

Lemma resolve_keeps_paths (token folder message_id : string)
      (imgs : list string) (idx : nat) (clean_content : string) (w : world)
      (p : string) :
  path_exists p w = true ->
  path_exists p (snd (resolve_ imgs idx token folder message_id clean_content w))
  = true.
Proof.
  rewrite !path_exists_spec. intros [c Hc]. exists c.
  now apply (resolve_files token folder message_id imgs p c idx clean_content w).
Qed.

Lemma all_saved_mono (w w' : world) (folder message_id : string)
      (imgs : list string) :
  (forall p, path_exists p w = true -> path_exists p w' = true) ->
  forall idx, all_saved w imgs idx folder message_id ->
              all_saved w' imgs idx folder message_id.
Proof.
  intros Hmono. induction imgs as [| u imgs IH]; intros idx; cbn [all_saved];
    [easy |].
  intros [Hu Hrest]. split; [intros H; apply Hmono, Hu, H | now apply IH].
Qed.

Lemma resolve_saved (token folder message_id : string) (imgs : list string) :
  forall (idx : nat) (clean_content : string) (w : world),
    all_saved w imgs idx folder message_id ->
    resolve_ imgs idx token folder message_id clean_content w
    = (replace_hosted cwd imgs idx folder message_id clean_content, w).
Proof.
  induction imgs as [| u imgs IH]; intros idx clean_content w;
    cbn [all_saved resolve_images replace_hosted]; [reflexivity |].
  intros [Hu Hrest].
  destruct (startswith GRAPH_HOST u); [| now apply IH].
  rewrite (download_exists _ _ _ _ _ _ (Hu eq_refl)). now apply IH.
Qed.

Lemma resolve_first_run (token folder message_id : string) (imgs : list string) :
  (forall u, In u imgs -> startswith GRAPH_HOST u = true ->
             exists r, net (JStr u) = inl r /\ status_code r = 200%Z) ->
  (forall index, open_error (image_path folder message_id index) = None) ->
  forall (idx : nat) (clean_content : string) (w : world),
    let run := resolve_ imgs idx token folder message_id clean_content w in
    fst run = replace_hosted cwd imgs idx folder message_id clean_content
    /\ all_saved (snd run) imgs idx folder message_id.
Proof.
  induction imgs as [| u imgs IH]; intros Hnet Hopen idx clean_content w;
    cbn [resolve_images replace_hosted all_saved]; [easy |].
  assert (Hnet' : forall u', In u' imgs -> startswith GRAPH_HOST u' = true ->
                             exists r, net (JStr u') = inl r /\ status_code r = 200%Z)
    by (intros u' Hin; apply Hnet; now right).
  destruct (startswith GRAPH_HOST u) eqn:Hhost.
  - destruct (Hnet u (or_introl eq_refl) Hhost) as (r & Hr & Hst).
    assert (Hdone : exists w1,
               download_ u token folder message_id idx w
               = (Some (image_link cwd folder message_id idx), w1)
               /\ path_exists (image_path folder message_id idx) w1 = true).
    { destruct (path_exists (image_path folder message_id idx) w) eqn:Hex.
      - exists w. split; [now apply download_exists | exact Hex].
      - eexists.
        split; [exact (download_saves _ _ _ _ _ _ r Hex Hr Hst (Hopen idx)) |].
        apply path_exists_spec. exists (content r). cbn [files write_file].
        apply lookup_insert_eq. }
    destruct Hdone as (w1 & -> & Hex).
    destruct (IH Hnet' Hopen (S idx)
                (replace u (image_link cwd folder message_id idx) clean_content) w1)
      as [Hout Hsaved].
    split; [exact Hout |]. split; [| exact Hsaved].
    intros _. now apply resolve_keeps_paths.
  - destruct (IH Hnet' Hopen (S idx) clean_content w) as [Hout Hsaved].
    split; [exact Hout |]. split; [discriminate | exact Hsaved].
Qed.

(** X4. When every hosted image of a body can be fetched (status 200)
    and the file of every image of the message can be opened, normalizing
    the same body a second time gives the same markup, sends no further
    request and writes no file: every image is found on disk. *)
Theorem second_run_downloads_nothing
        (raw_content message_id access_token image_folder : string) (w : world) :
  (forall u,
      In u (img_matches (replace_emoji_tags (html_unescape charref_sub raw_content))) ->
      startswith GRAPH_HOST u = true ->
      exists r, net (JStr u) = inl r /\ status_code r = 200%Z) ->
  (forall index,
      open_error (image_path image_folder message_id index) = None) ->
  let first := process_ raw_content message_id access_token image_folder w in
  process_ raw_content message_id access_token image_folder (snd first) = first.
Proof.
  intros Hnet Hopen. cbn zeta. rewrite !process_unfold. cbn zeta. cbn [snd].
  set (text := replace_emoji_tags (html_unescape charref_sub raw_content)) in *.
  destruct (resolve_first_run access_token image_folder message_id
              (img_matches text) Hnet Hopen 0 text w) as [Hout Hsaved].
  rewrite (resolve_saved access_token image_folder message_id
             (img_matches text) 0 text _ Hsaved).
  cbn [fst snd]. rewrite Hout.
  now destruct (resolve_ (img_matches text) 0 access_token image_folder
                  message_id text w).
Qed.

End Files.


Lemma second_run_downloads_nothing_witness :
  let first := process_message_content no_table image_server writable export_dir
                 two_images_body "m1" "token" "img" empty_world in
  process_message_content no_table image_server writable export_dir
    two_images_body "m1" "token" "img" (snd first)
  = first.
Proof.
  apply (second_run_downloads_nothing no_table image_server writable export_dir).
  - intros u _ _. exists (MkResponse 200 "JPEG" (inl "not JSON")).
    split; reflexivity.
  - reflexivity.
Defined.

(** ** More on the pagination loop *)

Section MorePagination.

Variable net : http.
Variable progress_callback : option (nat -> string -> list string).
Variable context : string.

#[local] Abbreviation report_ := (report progress_callback context).
#[local] Abbreviation request_ := (request net progress_callback context).
#[local] Abbreviation paginate_ := (paginate net progress_callback context).

Lemma fold_print_stdout (lines : list string) (w : world) :
  stdout (fold_left (fun w' line => print line w') lines w)
  = (stdout w ++ lines)%list.
Proof.
  revert w. induction lines as [| l lines IH]; intros w; cbn [fold_left].
  - now rewrite app_nil_r.
  - rewrite IH. cbn [stdout print]. now rewrite <- app_assoc.
Qed.

Lemma report_stdout (n : nat) (w : world) :
  exists lines, stdout (report_ n w) = (stdout w ++ lines)%list.
Proof.
  unfold report. destruct progress_callback as [f |].
  - eexists. apply fold_print_stdout.
  - exists []. now rewrite app_nil_r.
Qed.

Lemma paginate_all_pages (u : json) (urls items : list json) (u' : json) :
  pages net u urls items u' ->
  Py.truthy u' = false ->
  forall (fuel : nat) (all_items : list json) (w : world),
    (length urls <= fuel)%nat ->
    exists w',
      paginate_ fuel u all_items w = Some ((all_items ++ items)%list, w')
      /\ requests w' = (requests w ++ urls)%list
      /\ files w' = files w.
Proof.
  intros Hpages Hend.
  induction Hpages as [u | u r d batch urls items u' Hu Hnet Hstatus Hjson Hbatch _ IH];
    intros fuel all_items w Hfuel.
  - exists w. rewrite !app_nil_r.
    destruct fuel; cbn [paginate]; rewrite Hend; easy.
  - destruct fuel as [| fuel]; [cbn in Hfuel; lia |].
    cbn [paginate]. rewrite Hu. cbn [negb].
    rewrite (request_page net progress_callback context
               _ _ _ _ _ _ Hnet Hstatus Hjson Hbatch).
    destruct (IH Hend fuel (all_items ++ batch)%list
                 (report_ (length (all_items ++ batch)) (send u w)))
      as (w' & Hrun & Hreq & Hfiles).
    { cbn [length] in Hfuel. lia. }
    exists w'. rewrite Hrun, <- app_assoc. split; [reflexivity |].
    destruct (report_requests progress_callback context
                (length (all_items ++ batch)) (send u w)) as [Hr Hf].
    rewrite Hreq, Hfiles, Hr, Hf. cbn [requests files send].
    now rewrite <- app_assoc.
Qed.

(** X5. When every page comes back with status 200 and the last one
    carries no cursor, the loop returns the items of all the pages, in the
    order of the pages, after exactly one request per page. *)
Theorem pagination_collects_all_pages
        (url : string) (urls items : list json) (u' : json)
        (fuel : nat) (w : world) :
  pages net (JStr url) urls items u' ->
  Py.truthy u' = false ->
  (length urls <= fuel)%nat ->
  exists w',
    make_paginated_request net progress_callback context fuel url w
    = Some (items, w')
    /\ requests w' = (requests w ++ urls)%list
    /\ files w' = files w.
Proof.
  intros Hpages Hend Hfuel.
  destruct (paginate_all_pages _ _ _ _ Hpages Hend fuel [] w Hfuel)
    as (w' & Hrun & Hreq & Hfiles).
  exists w'. unfold make_paginated_request. now rewrite Hrun.
Qed.

Lemma request_malformed (u : json) (r : response) (text : string)
      (all_items : list json) (w : world) :
  net u = inl r ->
  status_code r = 200%Z ->
  malformed r text ->
  request_ u all_items w
  = Break (print ("Exception in API request: " ++ text) (send u w)).
Proof.
  intros Hnet Hstatus Hbad. unfold request, page. rewrite Hnet, Hstatus.
  cbn [Z.eqb Pos.eqb].
  destruct Hbad as [e Hjson | v Hjson Hdict | d v e Hjson Hvalue Hiter];
    rewrite Hjson; cbn [rbind].
  - reflexivity.
  - destruct v; try discriminate; reflexivity.
  - cbn [Py.get_or rbind]. rewrite Hvalue. cbn [from_option id]. rewrite Hiter.
    reflexivity.
Qed.

Lemma paginate_pages_then_malformed
      (u : json) (urls items : list json) (u' : json)
      (r : response) (text : string) :
  pages net u urls items u' ->
  Py.truthy u' = true ->
  net u' = inl r ->
  status_code r = 200%Z ->
  malformed r text ->
  forall (fuel : nat) (all_items : list json) (w : world),
    (length urls < fuel)%nat ->
    exists w',
      paginate_ fuel u all_items w = Some ((all_items ++ items)%list, w')
      /\ requests w' = (requests w ++ urls ++ [u'])%list
      /\ last (stdout w') = Some ("Exception in API request: " ++ text).
Proof.
  intros Hpages Htruthy Hnet' Hstatus' Hbad.
  induction Hpages as [u | u r0 d batch urls items u' Hu Hnet Hstatus Hjson Hbatch _ IH];
    intros fuel all_items w Hfuel.
  - destruct fuel as [| fuel]; [cbn in Hfuel; lia |].
    cbn [paginate]. rewrite Htruthy. cbn [negb].
    rewrite (request_malformed _ _ _ _ _ Hnet' Hstatus' Hbad).
    eexists. split; [now rewrite app_nil_r |].
    cbn [requests stdout print send]. split; [reflexivity | apply last_snoc].
  - destruct fuel as [| fuel]; [cbn in Hfuel; lia |].
    cbn [paginate]. rewrite Hu. cbn [negb].
    rewrite (request_page net progress_callback context
               _ _ _ _ _ _ Hnet Hstatus Hjson Hbatch).
    destruct (IH Htruthy Hnet' fuel (all_items ++ batch)%list
                 (report_ (length (all_items ++ batch)) (send u w)))
      as (w' & Hrun & Hreq & Hout).
    { cbn [length] in Hfuel. lia. }
    exists w'. rewrite Hrun, <- app_assoc. split; [reflexivity |].
    destruct (report_requests progress_callback context
                (length (all_items ++ batch)) (send u w)) as [Hr _].
    rewrite Hreq, Hr. cbn [requests send]. rewrite <- app_assoc. easy.
Qed.

(** X6. A page with status 200 whose body is not JSON, or not an object,
    or whose [value] cannot be iterated, ends the loop like a failed
    request: the exception is printed and the items of the pages before
    it are returned. *)
Theorem pagination_stops_at_malformed_page
        (url : string) (urls items : list json) (u' : json)
        (r : response) (text : string) (fuel : nat) (w : world) :
  pages net (JStr url) urls items u' ->
  Py.truthy u' = true ->
  net u' = inl r ->
  status_code r = 200%Z ->
  malformed r text ->
  (length urls < fuel)%nat ->
  exists w',
    make_paginated_request net progress_callback context fuel url w
    = Some (items, w')
    /\ requests w' = (requests w ++ urls ++ [u'])%list
    /\ last (stdout w') = Some ("Exception in API request: " ++ text).
Proof.
  intros Hpages Htruthy Hnet Hstatus Hbad Hfuel.
  destruct (paginate_pages_then_malformed _ _ _ _ _ _ Hpages Htruthy Hnet
              Hstatus Hbad fuel [] w Hfuel) as (w' & Hrun & Hreq & Hout).
  exists w'. unfold make_paginated_request. now rewrite Hrun.
Qed.

Lemma request_effects (u : json) (all_items : list json) (w : world) :
  match request_ u all_items w with
  | Next _ all_items' w' =>
      (exists batch, all_items' = (all_items ++ batch)%list)
      /\ files w' = files w
      /\ requests w' = (requests w ++ [u])%list
      /\ exists lines, stdout w' = (stdout w ++ lines)%list
  | Break w' =>
      files w' = files w
      /\ requests w' = (requests w ++ [u])%list
      /\ exists line, stdout w' = (stdout w ++ [line])%list
  end.
Proof.
  unfold request.
  destruct (net u) as [r | e]; [| cbn; eauto].
  destruct (status_code r =? 200)%Z; [| cbn; eauto].
  destruct (page r all_items) as [[all_items' next_link] | e] eqn:Hpage;
    [| cbn; eauto].
  destruct (report_requests progress_callback context (length all_items') (send u w))
    as [Hr Hf].
  destruct (report_stdout (length all_items') (send u w)) as [lines Hlines].
  rewrite Hr, Hf. repeat split; [| exists lines; exact Hlines].
  unfold page in Hpage.
  destruct (match json_body r with inl e => _ | inr v => _ end) as [data |];
    cbn [rbind] in Hpage; [| discriminate].
  destruct (Py.get_or data "value" (JList [])) as [value |];
    cbn [rbind] in Hpage; [| discriminate].
  destruct (Py.iterate value) as [batch |]; cbn [rbind] in Hpage; [| discriminate].
  destruct (Py.get data "@odata.nextLink"); cbn [rbind] in Hpage; [| discriminate].
  injection Hpage as <- _. now exists batch.
Qed.

(** X7. However the loop ends, it has only added to what it was given:
    the items it returns start with the items already accumulated, the
    requests and the printed lines of before are still there, in front,
    and no file has been touched. *)
Theorem pagination_only_appends
        (fuel : nat) (url : json) (all_items items : list json) (w w' : world) :
  paginate_ fuel url all_items w = Some (items, w') ->
  (exists fetched, items = (all_items ++ fetched)%list)
  /\ (exists sent, requests w' = (requests w ++ sent)%list)
  /\ (exists lines, stdout w' = (stdout w ++ lines)%list)
  /\ files w' = files w.
Proof.
  revert url all_items w.
  induction fuel as [| fuel IH]; intros url all_items w; cbn [paginate];
    destruct (negb (Py.truthy url)).
  1, 3: intros [= <- <-]; repeat split; exists []; now rewrite app_nil_r.
  - discriminate.
  - pose proof (request_effects url all_items w) as Heff.
    destruct (request_ url all_items w) as [url' all_items' w1 | w1].
    + destruct Heff as ([batch ->] & Hf & Hr & [lines Hl]).
      intros Hrun. destruct (IH _ _ _ Hrun) as ([fetched ->] & [sent Hs] & [ls Hls] & Hfs).
      repeat split.
      * exists (batch ++ fetched)%list. now rewrite app_assoc.
      * exists ([url] ++ sent)%list. now rewrite Hs, Hr, <- app_assoc.
      * exists (lines ++ ls)%list. now rewrite Hls, Hl, <- app_assoc.
      * now rewrite Hfs.
    + destruct Heff as (Hf & Hr & [line Hl]).
      intros [= <- <-]. repeat split; eauto.
      exists []. now rewrite app_nil_r.
Qed.

End MorePagination.

Lemma pagination_collects_all_pages_witness :
  exists w',
    make_paginated_request demo_server None EmptyString 1 "s" empty_world
    = Some ([JNum 7; JNum 8], w')
    /\ requests w' = [JStr "s"]
    /\ files w' = files empty_world.
Proof.
  apply (pagination_collects_all_pages demo_server None EmptyString
           "s" [JStr "s"] [JNum 7; JNum 8] JNull 1 empty_world).
  - eapply (pages_next demo_server (JStr "s") _ _ [JNum 7; JNum 8] [] [] JNull);
      try reflexivity.
    apply pages_done.
  - reflexivity.
  - cbn. lia.
Defined.

Lemma pagination_stops_at_malformed_page_witness :
  exists w',
    make_paginated_request broken_server None EmptyString 2 "u0" empty_world
    = Some ([JNum 1; JNum 2], w')
    /\ requests w' = [JStr "u0"; JStr "u1"]
    /\ last (stdout w')
       = Some "Exception in API request: 'list' object has no attribute 'get'".
Proof.
  apply (pagination_stops_at_malformed_page broken_server None EmptyString
           "u0" [JStr "u0"] [JNum 1; JNum 2] (JStr "u1")
           (MkResponse 200 EmptyString (inr (JList [JNum 3])))
           "'list' object has no attribute 'get'" 2 empty_world).
  - eapply (pages_next broken_server (JStr "u0") _ _ [JNum 1; JNum 2] [] []
              (JStr "u1")); try reflexivity.
    apply pages_done.
  - reflexivity.
  - reflexivity.
  - reflexivity.
  - apply (malformed_data _ (JList [JNum 3])); reflexivity.
  - cbn. lia.
Defined.

Lemma pagination_only_appends_witness :
  (exists fetched, [JNum 0; JNum 1; JNum 2; JNum 3] = ([JNum 0] ++ fetched)%list)
  /\ (exists sent,
         [JStr "u0"; JStr "u1"; JStr "u2"] = (requests empty_world ++ sent)%list)
  /\ (exists lines,
         ["Error in API request: 503"] = (stdout empty_world ++ lines)%list)
  /\ files empty_world = files empty_world.
Proof.
  apply (pagination_only_appends demo_server None EmptyString 5 (JStr "u0")
           [JNum 0] [JNum 0; JNum 1; JNum 2; JNum 3] empty_world
           (MkWorld ∅ [JStr "u0"; JStr "u1"; JStr "u2"] ["Error in API request: 503"])).
  reflexivity.
Defined.

(** ** More on the filters *)

Section MoreFilter.

Import PyStr.

Lemma eq_str_true (v : json) (s : string) :
  Py.eq_str v s = true -> v = JStr s.
Proof.
  destruct v; try discriminate. cbn [Py.eq_str].
  now intros ->%String.eqb_eq.
Qed.

Lemma eqb_empty_false (s : string) :
  String.eqb s EmptyString = false <-> s <> EmptyString.
Proof. apply String.eqb_neq. Qed.

(** X8. A message that [validate_message_content] keeps is a user
    message ([messageType] is "message") whose author is not "Unknown" and
    whose body content is a string that is not blank and that holds text
    outside its tags or an image reference. *)
Theorem kept_message_has_content (msg : json) :
  validate_message_content msg = Ok true ->
  Py.get msg "messageType" = Ok (JStr "message")
  /\ (exists sender,
         sender_of msg = Ok sender /\ Py.eq_str sender "Unknown" = false)
  /\ exists body raw,
       Py.get_or msg "body" (JDict []) = Ok body
       /\ Py.get body "content" = Ok (JStr raw)
       /\ strip raw <> EmptyString
       /\ (strip (strip_tags raw) <> EmptyString \/ img_matches raw <> []).
Proof.
  unfold validate_message_content.
  destruct (Py.get msg "messageType") as [message_type |]; cbn [rbind];
    [| discriminate].
  destruct (Py.eq_str message_type "message") eqn:Htype; cbn [negb];
    [| discriminate].
  apply eq_str_true in Htype as ->.
  destruct (sender_of msg) as [sender |] eqn:Hfrom; cbn [rbind]; [| discriminate].
  destruct (Py.eq_str sender "Unknown") eqn:Hsender; [discriminate |].
  destruct (Py.get_or msg "body" (JDict [])) as [body |] eqn:Hbody; cbn [rbind];
    [| discriminate].
  destruct (Py.get body "content") as [content |] eqn:Hcontent; cbn [rbind];
    [| discriminate].
  destruct (Py.truthy content) eqn:Htruthy.
  - rewrite Htruthy. cbn [negb].
    destruct content as [| b | n | raw | l | d]; cbn [Py.strip rbind];
      try discriminate.
    destruct (String.eqb (strip raw) EmptyString) eqn:Hblank; [discriminate |].
    intros [= Hkeep]. split; [reflexivity |]. split; [eauto |].
    exists body, raw. split; [reflexivity |]. split; [exact Hcontent |]. split.
    + now apply eqb_empty_false.
    + unfold has_text_or_images in Hkeep.
      destruct (contains SYSTEM_EVENT raw && _); [discriminate |].
      apply orb_true_iff in Hkeep as [Htext | Himg].
      * left. apply eqb_empty_false. now apply negb_true_iff.
      * right. now destruct (img_matches raw).
  - cbn [Py.truthy String.eqb negb]. discriminate.
Qed.

(** X9. A message that the rendering filter keeps has an author who is
    not "Unknown" and a body content that is a string, not blank, without
    the marker of a system event, and neither an empty paragraph nor an
    empty division. *)
Theorem rendered_message_has_content (msg : json) :
  render_keep msg = Ok true ->
  (exists sender,
      sender_of msg = Ok sender /\ Py.eq_str sender "Unknown" = false)
  /\ exists body raw,
       Py.get_or msg "body" (JDict []) = Ok body
       /\ Py.get_or body "content" (JStr EmptyString) = Ok (JStr raw)
       /\ strip raw <> EmptyString
       /\ contains SYSTEM_EVENT raw = false
       /\ strip raw <> "<p></p>"
       /\ strip raw <> "<div></div>".
Proof.
  unfold render_keep.
  destruct (sender_of msg) as [sender |] eqn:Hfrom; cbn [rbind]; [| discriminate].
  destruct (Py.eq_str sender "Unknown") eqn:Hsender; [discriminate |].
  destruct (Py.get_or msg "body" (JDict [])) as [body |] eqn:Hbody; cbn [rbind];
    [| discriminate].
  destruct (Py.get_or body "content" (JStr EmptyString)) as [content |] eqn:Hcontent;
    cbn [rbind]; [| discriminate].
  destruct (Py.truthy content); cbn [negb]; [| discriminate].
  destruct content as [| b | n | raw | l | d]; cbn [Py.strip rbind];
    try discriminate.
  destruct (String.eqb (strip raw) EmptyString) eqn:Hblank; [discriminate |].
  intros [= Hkeep%negb_true_iff]. split; [eauto |].
  exists body, raw. unfold is_empty_stub in Hkeep.
  apply orb_false_elim in Hkeep as [Hkeep _].
  apply orb_false_elim in Hkeep as [Hkeep _].
  apply orb_false_elim in Hkeep as [Hmarker Hstub].
  cbn [existsb] in Hstub.
  apply orb_false_elim in Hstub as [_ Hstub].
  apply orb_false_elim in Hstub as [Hp Hstub].
  apply orb_false_elim in Hstub as [Hdiv _].
  split; [reflexivity |]. split; [exact Hcontent |].
  split; [now apply eqb_empty_false |]. split; [exact Hmarker |].
  split; now apply String.eqb_neq.
Qed.

Lemma validate_readable (msg : json) :
  readable msg = true -> exists b, validate_message_content msg = Ok b.
Proof.
  destruct msg as [| | | | | d]; try discriminate. cbn [readable].
  intros Hbody. unfold validate_message_content. cbn [Py.get rbind].
  destruct (negb (Py.eq_str _ "message")); [eauto |].
  destruct (sender_of_dict d) as [sender ->]. cbn [rbind].
  destruct (Py.eq_str sender "Unknown"); [eauto |].
  cbn [Py.get_or].
  destruct (Py.lookup "body" d) as [[| | | | | b] |]; try discriminate;
    cbn [from_option id rbind Py.get]; [| eauto].
  destruct (Py.lookup "content" b) as [[| | | raw | |] |]; try discriminate;
    cbn [from_option id rbind Py.truthy negb]; eauto.
  destruct (negb (String.eqb raw EmptyString)); cbn [negb]; [| eauto].
  cbn [Py.strip rbind].
  destruct (String.eqb (strip raw) EmptyString);
    destruct (negb (Py.truthy (JStr raw))); eauto.
Qed.

Variable now : string.
Variable IGNORED_CHANNELS : list (string * string).

#[local] Abbreviation entry_ := (channel_entry now IGNORED_CHANNELS).

(** X10. For a channel that is not ignored and whose fetched messages are
    all readable, nothing is raised: the entry stored is the list of the
    messages that the filter keeps, in the order in which they were
    fetched, or the placeholder when there is none. *)
Theorem channel_entry_of_readable_messages
        (team_name channel_name : string) (all_messages : list json) :
  channel_ignored IGNORED_CHANNELS team_name channel_name = false ->
  Forall (fun m => readable m = true) all_messages ->
  entry_ team_name channel_name all_messages
  = Ok (match List.filter (kept validate_message_content) all_messages with
        | [] => [no_messages now]
        | filtered => filtered
        end).
Proof.
  intros Hignored Hreadable. unfold channel_entry. rewrite Hignored.
  assert (Hfilter : filter_messages validate_message_content all_messages
                    = Ok (List.filter (kept validate_message_content) all_messages)).
  { apply filter_messages_spec. split; [| reflexivity].
    eapply List.Forall_impl; [| exact Hreadable].
    intros m. apply validate_readable. }
  rewrite Hfilter. cbn [rbind].
  now destruct (List.filter _ all_messages).
Qed.

Lemma filter_messages_raises (keep : json -> result bool) (msgs : list json)
      (m : json) (e : pyexn) :
  In m msgs -> keep m = Raise e -> exists e', filter_messages keep msgs = Raise e'.
Proof.
  intros Hin Hm. destruct (filter_messages keep msgs) as [out |] eqn:Hout; [| eauto].
  apply filter_messages_spec in Hout as [Hall _].
  rewrite List.Forall_forall in Hall. destruct (Hall m Hin) as [b Hb]. congruence.
Qed.

(** X11. For a channel that is not ignored, one fetched item that is not
    an object makes the filtering raise, wherever it stands in the list:
    no entry is stored for the channel. *)
Theorem channel_entry_raises_on_unreadable_item
        (team_name channel_name : string) (all_messages : list json) (m : json) :
  channel_ignored IGNORED_CHANNELS team_name channel_name = false ->
  In m all_messages ->
  Py.is_dict m = false ->
  exists e, entry_ team_name channel_name all_messages = Raise e.
Proof.
  intros Hignored Hin Hdict. unfold channel_entry. rewrite Hignored.
  assert (Hm : exists e, validate_message_content m = Raise e).
  { destruct m; try discriminate; eexists; reflexivity. }
  destruct Hm as [e Hm].
  destruct (filter_messages_raises _ _ _ _ Hin Hm) as [e' ->]. eauto.
Qed.

(** X12. A channel on the ignore list gets the single "ignored"
    placeholder whatever was fetched for it, unreadable items included,
    and the rendering takes that placeholder as it is, without filtering. *)
Theorem ignored_channel_gets_one_placeholder
        (team_name channel_name : string) (all_messages : list json) :
  channel_ignored IGNORED_CHANNELS team_name channel_name = true ->
  entry_ team_name channel_name all_messages
  = Ok [ignored_message now team_name channel_name]
  /\ channel_rendered IGNORED_CHANNELS team_name channel_name
       [ignored_message now team_name channel_name]
     = Ok [ignored_message now team_name channel_name].
Proof.
  intros Hignored. unfold channel_entry, channel_rendered. rewrite Hignored.
  split; reflexivity.
Qed.

End MoreFilter.

Section GateFacts.

Lemma any_user_message_none (messages : list json) :
  any_user_message messages = Ok false ->
  Forall (fun m => validate_message_content m = Ok false) messages.
Proof.
  induction messages as [| m messages IH]; cbn [any_user_message];
    [constructor |].
  destruct m as [| | | | | d]; cbn [Py.get_or rbind]; try discriminate.
  destruct (Py.eq_str (default (JStr EmptyString) (Py.lookup "messageType" d))
                      "message") eqn:Htype; [discriminate |].
  intros Hrest. constructor; [| now apply IH].
  unfold validate_message_content. cbn [Py.get rbind].
  destruct (Py.lookup "messageType" d) as [v |]; cbn [from_option id] in *.
  - now rewrite Htype.
  - reflexivity.
Qed.

Variable net : http.

(** X13. The gate and the filter agree on what a user message is: when
    the page that [chat_has_messages] looks at is a list in which it finds
    no user message, it answers no without printing anything, and the
    filter keeps none of the messages of that page. *)
Theorem gate_closed_means_nothing_kept
        (chat_id : string) (w : world) (r : response)
        (d : list (string * json)) (messages : list json) :
  net (JStr ("https://graph.microsoft.com/v1.0/chats/" ++ chat_id
             ++ "/messages?$top=10")) = inl r ->
  status_code r = 200%Z ->
  json_body r = inr (JDict d) ->
  Py.lookup "value" d = Some (JList messages) ->
  any_user_message messages = Ok false ->
  chat_has_messages net chat_id w
  = (false, send (JStr ("https://graph.microsoft.com/v1.0/chats/" ++ chat_id
                        ++ "/messages?$top=10")) w)
  /\ filter_messages validate_message_content messages = Ok [].
Proof.
  intros Hnet Hstatus Hjson Hvalue Hnone. split.
  - unfold chat_has_messages. cbn zeta. rewrite Hnet, Hstatus, Hjson.
    cbn [Z.eqb Pos.eqb Py.get_or rbind]. rewrite Hvalue.
    cbn [from_option id Py.iterate rbind]. now rewrite Hnone.
  - apply any_user_message_none in Hnone. clear Hvalue.
    induction Hnone as [| m messages Hm _ IH]; cbn [filter_messages];
      [reflexivity |].
    rewrite Hm. cbn [rbind]. now rewrite IH.
Qed.

End GateFacts.

Lemma kept_message_has_content_witness :
  Py.get earlier_message "messageType" = Ok (JStr "message")
  /\ (exists sender,
         sender_of earlier_message = Ok sender
         /\ Py.eq_str sender "Unknown" = false)
  /\ exists body raw,
       Py.get_or earlier_message "body" (JDict []) = Ok body
       /\ Py.get body "content" = Ok (JStr raw)
       /\ PyStr.strip raw <> EmptyString
       /\ (PyStr.strip (strip_tags raw) <> EmptyString \/ img_matches raw <> []).
Proof.
  apply (kept_message_has_content earlier_message). vm_compute. reflexivity.
Defined.

Lemma rendered_message_has_content_witness :
  (exists sender,
      sender_of earlier_message = Ok sender /\ Py.eq_str sender "Unknown" = false)
  /\ exists body raw,
       Py.get_or earlier_message "body" (JDict []) = Ok body
       /\ Py.get_or body "content" (JStr EmptyString) = Ok (JStr raw)
       /\ PyStr.strip raw <> EmptyString
       /\ PyStr.contains SYSTEM_EVENT raw = false
       /\ PyStr.strip raw <> "<p></p>"
       /\ PyStr.strip raw <> "<div></div>".
Proof.
  apply (rendered_message_has_content earlier_message). vm_compute. reflexivity.
Defined.

Lemma channel_entry_of_readable_messages_witness :
  channel_entry "2024-01-03T00:00:00" [] "Team" "General"
    [system_event; later_message; empty_paragraph; earlier_message]
  = Ok [later_message; earlier_message].
Proof.
  apply (channel_entry_of_readable_messages "2024-01-03T00:00:00" [] "Team" "General"
           [system_event; later_message; empty_paragraph; earlier_message]).
  - reflexivity.
  - repeat constructor.
Defined.

Lemma channel_entry_raises_on_unreadable_item_witness :
  exists e,
    channel_entry "2024-01-03T00:00:00" [] "Team" "General"
      [earlier_message; JStr "oops"; later_message]
    = Raise e.
Proof.
  apply (channel_entry_raises_on_unreadable_item "2024-01-03T00:00:00" []
           "Team" "General" [earlier_message; JStr "oops"; later_message]
           (JStr "oops")).
  - reflexivity.
  - right. left. reflexivity.
  - reflexivity.
Defined.

Lemma ignored_channel_gets_one_placeholder_witness :
  channel_entry "2024-01-03T00:00:00" [("Employee Platform", "General")]
    "Employee Platform" "General" [earlier_message; JStr "oops"]
  = Ok [ignored_message "2024-01-03T00:00:00" "Employee Platform" "General"]
  /\ channel_rendered [("Employee Platform", "General")] "Employee Platform" "General"
       [ignored_message "2024-01-03T00:00:00" "Employee Platform" "General"]
     = Ok [ignored_message "2024-01-03T00:00:00" "Employee Platform" "General"].
Proof.
  apply (ignored_channel_gets_one_placeholder "2024-01-03T00:00:00"
           [("Employee Platform", "General")] "Employee Platform" "General"
           [earlier_message; JStr "oops"]).
  reflexivity.
Defined.

Lemma gate_closed_means_nothing_kept_witness :
  let page := MkResponse 200 EmptyString
                (inr (JDict [("value", JList [system_event; system_event])])) in
  chat_has_messages (fun _ => inl page) "c2" empty_world
  = (false,
     send (JStr "https://graph.microsoft.com/v1.0/chats/c2/messages?$top=10")
          empty_world)
  /\ filter_messages validate_message_content [system_event; system_event] = Ok [].
Proof.
  apply (gate_closed_means_nothing_kept
           (fun _ => inl (MkResponse 200 EmptyString
                            (inr (JDict [("value", JList [system_event; system_event])]))))
           "c2" empty_world
           (MkResponse 200 EmptyString
              (inr (JDict [("value", JList [system_event; system_event])])))
           [("value", JList [system_event; system_event])]
           [system_event; system_event]);
    reflexivity.
Defined.

(** ** More on the sorting of messages *)

Section MoreSorting.

Lemma lt_irrefl (a : string) : PyStr.lt a a = false.
Proof.
  unfold PyStr.lt.
  now rewrite (proj2 (String_as_OT.cmp_eq a a) eq_refl : String.compare a a = Eq).
Qed.

(** Insertion moves an element only past elements with a smaller key. *)
Lemma insert_by_key_stable (k : string) (x : string * json)
      (l : list (string * json)) :
  List.filter (fun sm => String.eqb (fst sm) k) (insert_by_key x l)
  = List.filter (fun sm => String.eqb (fst sm) k) (x :: l).
Proof.
  induction l as [| y l IH]; cbn [insert_by_key]; [reflexivity |].
  destruct (PyStr.lt (fst y) (fst x)) eqn:Hlt; [| reflexivity].
  cbn [List.filter] in *. rewrite IH.
  destruct (String.eqb_spec (fst x) k) as [Hx | Hx]; [| reflexivity].
  destruct (String.eqb_spec (fst y) k) as [Hy | Hy]; [| reflexivity].
  rewrite Hx, Hy, lt_irrefl in Hlt. discriminate.
Qed.

Lemma sort_by_key_stable (k : string) (l : list (string * json)) :
  List.filter (fun sm => String.eqb (fst sm) k) (sort_by_key l)
  = List.filter (fun sm => String.eqb (fst sm) k) l.
Proof.
  induction l as [| x l IH]; cbn [sort_by_key fold_right]; [reflexivity |].
  rewrite insert_by_key_stable. cbn [List.filter]. fold (sort_by_key l).
  now rewrite IH.
Qed.

Lemma sort_by_key_of_sorted (l : list (string * json)) :
  StronglySorted key_le l -> sort_by_key l = l.
Proof.
  induction 1 as [| x l Hl IH Hx]; cbn [sort_by_key fold_right]; [reflexivity |].
  fold (sort_by_key l). rewrite IH.
  destruct l as [| y l]; cbn [insert_by_key]; [reflexivity |].
  inversion Hx as [| ? ? Hxy _]; subst. unfold key_le in Hxy. now rewrite Hxy.
Qed.

Lemma created_at_pairs (k : string) (l : list (string * json)) :
  Forall (fun sm => created_key (snd sm) = Ok (JStr (fst sm))) l ->
  created_at k (map snd l)
  = map snd (List.filter (fun sm => String.eqb (fst sm) k) l).
Proof.
  unfold created_at.
  induction 1 as [| [s m] l Hm _ IH]; cbn [map List.filter snd fst]; [reflexivity |].
  unfold created_string at 1. cbn [snd fst] in Hm. rewrite Hm.
  destruct (String.eqb s k); cbn [map snd]; now rewrite IH.
Qed.

Lemma keyed_pairs (l : list (string * json)) :
  Forall (fun sm => created_key (snd sm) = Ok (JStr (fst sm))) l ->
  exists ks, keyed created_key (map snd l) = Ok ks /\ string_keys ks = Ok l.
Proof.
  induction 1 as [| [s m] l Hm _ (ks & Hks & Hss)].
  - exists []. split; reflexivity.
  - exists ((JStr s, m) :: ks). cbn [map snd fst keyed string_keys key_string] in *.
    rewrite Hm, Hks, Hss. split; reflexivity.
Qed.

(** X14. Sorting the messages is stable and can be repeated: messages
    with the same creation time keep the order in which they were
    fetched, and sorting the sorted list again leaves it as it is. *)
Theorem sort_messages_is_stable (messages sorted : list json) :
  sort_messages messages = Ok sorted ->
  (forall k : string, created_at k sorted = created_at k messages)
  /\ sort_messages sorted = Ok sorted.
Proof.
  intros Hsort. pose proof Hsort as Hspec. revert Hsort. unfold sort_messages at 1.
  destruct (keyed created_key messages) as [ks |] eqn:Hks; cbn [rbind];
    [| discriminate].
  destruct messages as [| m1 [| m2 messages]].
  - now intros [= <-].
  - now intros [= <-].
  - destruct (string_keys ks) as [ss |] eqn:Hss; cbn [rbind]; [| discriminate].
    intros [= <-].
    destruct (string_keys_spec _ _ Hss) as [Hsnd Hkeys].
    specialize (Hkeys created_key (keyed_keys _ _ _ Hks)).
    rewrite (keyed_snd _ _ _ Hks) in Hsnd.
    assert (Hsorted_keys :
              Forall (fun sm => created_key (snd sm) = Ok (JStr (fst sm)))
                     (sort_by_key ss))
      by (eapply Permutation_Forall; [apply sort_by_key_perm | exact Hkeys]).
    split.
    + intros k. rewrite <- Hsnd.
      rewrite (created_at_pairs k _ Hsorted_keys), (created_at_pairs k _ Hkeys).
      now rewrite sort_by_key_stable.
    + destruct (keyed_pairs _ Hsorted_keys) as (ks' & Hks' & Hss').
      unfold sort_messages. rewrite Hks'. cbn [rbind].
      pose proof (Permutation_length (sort_by_key_perm ss)) as Hlen.
      assert (Hlen2 : length ss = S (S (length messages))).
      { rewrite <- (length_map snd ss), Hsnd. reflexivity. }
      destruct (sort_by_key ss) as [| p1 [| p2 rest]] eqn:Hsorted;
        cbn [length] in Hlen; try lia.
      cbn [map]. rewrite Hss'. cbn [rbind].
      rewrite <- Hsorted, sort_by_key_of_sorted by apply sort_by_key_sorted.
      now rewrite Hsorted.
Qed.

End MoreSorting.

Lemma sort_messages_is_stable_witness :
  (forall k : string,
      created_at k [earlier_message; same_time_first; same_time_second]
      = created_at k [same_time_first; earlier_message; same_time_second])
  /\ sort_messages [earlier_message; same_time_first; same_time_second]
     = Ok [earlier_message; same_time_first; same_time_second].
Proof.
  apply (sort_messages_is_stable
           [same_time_first; earlier_message; same_time_second]
           [earlier_message; same_time_first; same_time_second]).
  vm_compute. reflexivity.
Defined.

(** ** The member list shown in the header of a chat *)

Section SplitJoin.

Import PyStr.

Lemma append_cons (a : ascii) (s t : string) :
  String a s ++ t = String a (s ++ t).
Proof. reflexivity. Qed.

Lemma append_assoc (s t u : string) : (s ++ t) ++ u = s ++ t ++ u.
Proof.
  induction s as [| a s IH]; [reflexivity |].
  now rewrite !append_cons, IH.
Qed.

Lemma length_append (s t : string) :
  String.length (s ++ t) = (String.length s + String.length t)%nat.
Proof.
  induction s as [| a s IH]; [reflexivity |].
  rewrite append_cons. cbn [String.length]. now rewrite IH.
Qed.

Lemma startswith_split (p s : string) :
  startswith p s = true -> exists q, s = p ++ q.
Proof.
  revert s. induction p as [| a p IH]; intros s; cbn [startswith].
  - intros _. now exists s.
  - destruct s as [| b s]; [discriminate |].
    intros [Ha Hp]%andb_true_iff. apply Ascii.eqb_eq in Ha as ->.
    destruct (IH s Hp) as [q ->]. now exists q.
Qed.

Lemma startswith_append (p q : string) : startswith p (p ++ q) = true.
Proof.
  induction p as [| a p IH]; [reflexivity |].
  rewrite append_cons. cbn [startswith]. now rewrite Ascii.eqb_refl, IH.
Qed.

Variable c : ascii.
Variable sep' : string.

#[local] Abbreviation sep := (String c sep').

Lemma split_from_skip (t q cur : string) :
  split_from c sep' (t ++ q) (String.length t) cur = split_from c sep' q 0 cur.
Proof.
  induction t as [| a t IH]; [reflexivity |].
  rewrite append_cons. cbn [split_from String.length]. exact IH.
Qed.

Lemma split_from_nonempty (s : string) (skip : nat) (cur : string) :
  split_from c sep' s skip cur <> [].
Proof.
  revert skip cur. induction s as [| a s IH]; intros skip cur; cbn [split_from];
    [discriminate |].
  destruct skip; [| apply IH].
  destruct (startswith sep (String a s)); [discriminate | apply IH].
Qed.

Lemma join_cons (x : string) (l : list string) :
  l <> [] -> join sep (x :: l) = x ++ sep ++ join sep l.
Proof. destruct l; [congruence | reflexivity]. Qed.

Lemma join_split_from (n : nat) :
  forall s cur, (String.length s <= n)%nat ->
                join sep (split_from c sep' s 0 cur) = cur ++ s.
Proof.
  induction n as [| n IH]; intros s cur Hn.
  - destruct s; [| cbn in Hn; lia]. cbn. now rewrite append_empty_r.
  - destruct s as [| a s]; [cbn; now rewrite append_empty_r |].
    cbn [split_from].
    destruct (startswith sep (String a s)) eqn:Hsep.
    + apply startswith_split in Hsep as [q Hq].
      rewrite append_cons in Hq. injection Hq as -> ->.
      rewrite split_from_skip.
      rewrite join_cons by apply split_from_nonempty.
      rewrite IH.
      * now rewrite append_cons.
      * cbn [String.length] in Hn. rewrite length_append in Hn. lia.
    + rewrite IH by (cbn [String.length] in Hn; lia).
      now rewrite append_assoc.
Qed.

(** Splitting and joining again gives the string back. *)
Lemma join_split (s : string) : join sep (split c sep' s) = s.
Proof. unfold split. now rewrite (join_split_from (String.length s)). Qed.

End SplitJoin.

Section MemberHeader.

Import PyStr.

Lemma alternate_length (parts : list string) (idx : nat) :
  parts <> [] ->
  String.length (alternate parts idx)
  = (String.length (join ", " parts) + (if (0 <? idx)%nat then 2 else 0))%nat.
Proof.
  revert idx. induction parts as [| part parts IH]; intros idx Hne; [congruence |].
  cbn [alternate]. destruct parts as [| part' parts].
  - cbn [alternate join]. rewrite append_empty_r.
    destruct (0 <? idx)%nat; [| lia].
    destruct (Nat.even idx); rewrite length_append; cbn; lia.
  - rewrite length_append, (IH (S idx)) by discriminate.
    change (join ", " (part :: part' :: parts))
      with (part ++ ", " ++ join ", " (part' :: parts)).
    rewrite !length_append. cbn [Nat.ltb Nat.leb].
    destruct (0 <? idx)%nat eqn:Hidx; cbn [Nat.ltb Nat.leb] in Hidx; rewrite ?Hidx.
    + destruct (Nat.even idx); rewrite length_append; cbn [String.length]; lia.
    + cbn [String.length]. lia.
Qed.

(** A string without separator is one piece. *)
Lemma split_from_plain (s cur : string) :
  contains ", " s = false ->
  split_from ","%char " " s 0 cur = [cur ++ s].
Proof.
  revert cur. induction s as [| a s IH]; intros cur Hs.
  - cbn. now rewrite append_empty_r.
  - apply contains_cons in Hs as [Hhead Hs].
    cbn [split_from]. rewrite Hhead, IH by exact Hs.
    now rewrite append_assoc.
Qed.

(** X15. Formatting the member list changes separators only: the result
    has the length of the list given, and a list without a separator
    comes back as it is. *)
Theorem format_member_list_keeps_length (full_members : string) :
  String.length (format_member_list_for_display full_members)
  = String.length full_members
  /\ (contains ", " full_members = false ->
      format_member_list_for_display full_members = full_members).
Proof.
  unfold format_member_list_for_display.
  destruct (String.eqb_spec full_members EmptyString) as [-> | Hne];
    [split; reflexivity |].
  split.
  - rewrite alternate_length by apply split_from_nonempty.
    now rewrite join_split.
  - intros Hplain. unfold split.
    rewrite split_from_plain by exact Hplain. cbn [alternate Nat.ltb Nat.leb].
    now rewrite append_empty_r.
Qed.

(** A name without separator, followed by a separator, is split off. *)
Lemma split_from_name (name rest cur : string) :
  plain_name name ->
  split_from ","%char " " (name ++ ", " ++ rest) 0 cur
  = (cur ++ name) :: split_from ","%char " " rest 0 EmptyString.
Proof.
  unfold plain_name. revert cur. induction name as [| a name IH]; intros cur Hname.
  - rewrite append_empty_r.
    change (EmptyString ++ ", " ++ rest) with (String ","%char (" " ++ rest)).
    cbn [split_from].
    assert (Hsep : startswith ", " (String ","%char (" " ++ rest)) = true)
      by exact (startswith_append ", " rest).
    rewrite Hsep. reflexivity.
  - apply contains_cons in Hname as [Hhead Hname].
    rewrite append_cons. cbn [split_from].
    assert (Hno : startswith ", " (String a (name ++ ", " ++ rest)) = false).
    { clear IH. destruct name as [| b name].
      - change (EmptyString ++ ", " ++ rest)
          with (String ","%char (String " "%char rest)).
        cbn [startswith]. now destruct (Ascii.eqb ","%char a).
      - rewrite append_cons. cbn [startswith] in Hhead |- *. exact Hhead. }
    rewrite Hno, IH by exact Hname. now rewrite append_assoc.
Qed.

Lemma split_join_names (names : list string) :
  names <> [] ->
  Forall plain_name names ->
  split ","%char " " (join ", " names) = names.
Proof.
  unfold split. induction names as [| name names IH]; intros Hne Hplain;
    [congruence |].
  inversion Hplain as [| ? ? Hname Hrest]; subst.
  destruct names as [| name' names].
  - cbn [join]. now rewrite split_from_plain.
  - change (join ", " (name :: name' :: names))
      with (name ++ ", " ++ join ", " (name' :: names)).
    rewrite split_from_name by exact Hname.
    now rewrite IH.
Qed.

(** X16. The tooltip that [create_member_list_display] builds for names
    without a comma followed by a space is shown in the header with every
    second separator turned into a semicolon: the names come back
    unchanged and in order, the first two joined by a comma, the next by
    a semicolon, and so on in turn. *)
Theorem header_alternates_separators (names : list string) (max_display : Z) :
  names <> [] ->
  Forall plain_name names ->
  format_member_list_for_display
    (snd (create_member_list_display names max_display))
  = alternate names 0.
Proof.
  intros Hne Hplain.
  unfold create_member_list_display. destruct names as [| n names]; [congruence |].
  cbn [snd]. unfold format_member_list_for_display.
  destruct (String.eqb_spec (join ", " (n :: names)) EmptyString) as [E | _];
    [| now rewrite split_join_names].
  destruct names as [| n' names].
  - cbn [join] in E. now subst n.
  - change (join ", " (n :: n' :: names))
      with (n ++ ", " ++ join ", " (n' :: names)) in E.
    apply (f_equal String.length) in E. rewrite !length_append in E.
    cbn [String.length] in E. lia.
Qed.

End MemberHeader.

Lemma format_member_list_keeps_length_witness :
  format_member_list_for_display "Solo Member" = "Solo Member".
Proof.
  apply (proj2 (format_member_list_keeps_length "Solo Member")). reflexivity.
Defined.

Lemma header_alternates_separators_witness :
  format_member_list_for_display
    (snd (create_member_list_display ["Bob"; "Carol"; "Dan"; "Eve"; "Finn"] 3))
  = "Bob, Carol; Dan, Eve; Finn".
Proof.
  apply (header_alternates_separators ["Bob"; "Carol"; "Dan"; "Eve"; "Finn"] 3).
  - discriminate.
  - repeat constructor.
Defined.

(** ** The dictionaries of chats *)

Section ChatDictionaries.

Import PyStr.

Lemma insert_chat_perm (x : string * string) (l : list (string * string)) :
  Permutation (x :: l) (insert_chat x l).
Proof.
  induction l as [| y l IH]; cbn [insert_chat]; [reflexivity |].
  destruct (PyStr.lt (lower (fst y)) (lower (fst x))); [| reflexivity].
  rewrite perm_swap. now apply perm_skip.
Qed.

Lemma sort_chats_perm (l : list (string * string)) :
  Permutation l (sort_chats_by_name l).
Proof.
  induction l as [| x l IH]; cbn [sort_chats_by_name fold_right]; [reflexivity |].
  rewrite <- insert_chat_perm. now apply perm_skip.
Qed.

Lemma insert_chat_sorted (x : string * string) (l : list (string * string)) :
  StronglySorted name_le l -> StronglySorted name_le (insert_chat x l).
Proof.
  induction 1 as [| y l Hl IH Hy]; cbn [insert_chat].
  - repeat constructor.
  - destruct (PyStr.lt (lower (fst y)) (lower (fst x))) eqn:Hyx.
    + constructor; [exact IH |].
      rewrite <- insert_chat_perm. constructor; [| exact Hy].
      unfold name_le. now apply lt_asym.
    + constructor; [now constructor |].
      constructor; [exact Hyx |].
      rewrite List.Forall_forall in Hy |- *. intros z Hz.
      unfold name_le in *. eapply not_lt_trans; [exact Hyx | now apply Hy].
Qed.

Lemma sort_chats_sorted (l : list (string * string)) :
  StronglySorted name_le (sort_chats_by_name l).
Proof.
  induction l as [| x l IH]; cbn [sort_chats_by_name fold_right]; [constructor |].
  now apply insert_chat_sorted.
Qed.

(** Lookups and updates *)

Lemma dict_get_set_eq (k v : string) (d : list (string * string)) :
  dict_get k (dict_set k v d) = Some v.
Proof.
  induction d as [| [k' v'] d IH]; cbn [dict_set dict_get].
  - now rewrite String.eqb_refl.
  - destruct (String.eqb_spec k k') as [<- | Hne]; cbn [dict_get].
    + now rewrite String.eqb_refl.
    + now rewrite (proj2 (String.eqb_neq k k') Hne).
Qed.

Lemma dict_get_set_ne (k k' v : string) (d : list (string * string)) :
  k' <> k -> dict_get k' (dict_set k v d) = dict_get k' d.
Proof.
  intros Hne. induction d as [| [k0 v0] d IH]; cbn [dict_set dict_get].
  - now rewrite (proj2 (String.eqb_neq k' k) Hne).
  - destruct (String.eqb_spec k k0) as [<- | Hk]; cbn [dict_get].
    + now rewrite (proj2 (String.eqb_neq k' k) Hne).
    + now rewrite IH.
Qed.

Lemma dict_set_twice (k v1 v2 : string) (d : list (string * string)) :
  dict_set k v2 (dict_set k v1 d) = dict_set k v2 d.
Proof.
  induction d as [| [k' v'] d IH]; cbn [dict_set].
  - now rewrite String.eqb_refl.
  - destruct (String.eqb_spec k k') as [<- | Hne]; cbn [dict_set].
    + now rewrite String.eqb_refl.
    + now rewrite (proj2 (String.eqb_neq k k') Hne), IH.
Qed.

Lemma dict_set_fresh (k v : string) (d : list (string * string)) :
  ~ In k (map fst d) -> dict_set k v d = (d ++ [(k, v)])%list.
Proof.
  induction d as [| [k' v'] d IH]; cbn [dict_set map fst In app]; [reflexivity |].
  intros Hfresh. destruct (String.eqb_spec k k') as [-> | Hne]; [tauto |].
  rewrite IH by tauto. reflexivity.
Qed.

Lemma dict_of_items_from (items acc : list (string * string)) :
  List.NoDup (map fst (acc ++ items)) ->
  fold_left (fun d kv => dict_set (fst kv) (snd kv) d) items acc
  = (acc ++ items)%list.
Proof.
  revert acc. induction items as [| [k v] items IH]; intros acc Hnd;
    cbn [fold_left fst snd].
  - now rewrite app_nil_r.
  - assert (Hfresh : ~ In k (map fst acc)).
    { rewrite map_app in Hnd. cbn [map fst] in Hnd.
      apply NoDup_remove_2 in Hnd. intros Hin. apply Hnd.
      apply in_or_app. now left. }
    rewrite (dict_set_fresh k v acc Hfresh), IH; rewrite <- app_assoc;
      [reflexivity | exact Hnd].
Qed.

Lemma dict_get_in (k v : string) (d : list (string * string)) :
  List.NoDup (map fst d) -> In (k, v) d -> dict_get k d = Some v.
Proof.
  induction d as [| [k' v'] d IH]; cbn [map fst In dict_get]; [tauto |].
  intros Hnd [[= -> ->] | Hin].
  - now rewrite String.eqb_refl.
  - inversion Hnd as [| ? ? Hfresh Hnd']; subst.
    destruct (String.eqb_spec k k') as [-> | _]; [| now apply IH].
    exfalso. apply Hfresh. now apply (in_map fst _ (k', v)).
Qed.

Lemma dict_get_some (k v : string) (d : list (string * string)) :
  dict_get k d = Some v -> In (k, v) d.
Proof.
  induction d as [| [k' v'] d IH]; cbn [dict_get In]; [discriminate |].
  destruct (String.eqb_spec k k') as [-> | _]; [intros [= ->]; now left |].
  intros H. right. now apply IH.
Qed.

Lemma dict_get_none (k : string) (d : list (string * string)) :
  dict_get k d = None -> ~ In k (map fst d).
Proof.
  induction d as [| [k' v'] d IH]; cbn [dict_get map fst In]; [tauto |].
  destruct (String.eqb_spec k k') as [-> | Hne]; [discriminate |].
  intros H [E | Hin]; [congruence | now apply IH].
Qed.

(** X17. Rebuilding a dictionary of chats sorted by name loses nothing:
    with [dict(sort_chats_by_name(d.items()))] every chat is still there
    under its name, and the chats now stand in the order of their names
    in lower case. *)
Theorem sorted_chats_keeps_every_chat (d : list (string * string)) :
  List.NoDup (map fst d) ->
  Permutation d (sorted_chats d)
  /\ StronglySorted name_le (sorted_chats d)
  /\ forall k, dict_get k (sorted_chats d) = dict_get k d.
Proof.
  intros Hnd.
  assert (Hnd' : List.NoDup (map fst (sort_chats_by_name d))).
  { eapply Permutation_NoDup; [| exact Hnd].
    apply Permutation_map, sort_chats_perm. }
  assert (Hsame : sorted_chats d = sort_chats_by_name d).
  { unfold sorted_chats, dict_of_items.
    now rewrite (dict_of_items_from _ [] Hnd'). }
  rewrite Hsame. split; [apply sort_chats_perm |].
  split; [apply sort_chats_sorted |]. intros k.
  destruct (dict_get k d) as [v |] eqn:Hk.
  - apply dict_get_in; [exact Hnd' |].
    eapply Permutation_in; [apply sort_chats_perm | now apply dict_get_some].
  - destruct (dict_get k (sort_chats_by_name d)) as [v |] eqn:Hk'; [| reflexivity].
    exfalso. apply (dict_get_none _ _ Hk).
    apply (in_map fst _ (k, v)).
    eapply Permutation_in; [symmetry; apply sort_chats_perm |].
    now apply dict_get_some.
Qed.

(** X18. A group chat that passes the gate is registered under its name:
    the name printed gives back the id of the chat in [chats_group] and
    the full member list in [group_full_member_lists], and the entries
    under every other name are as before.  A chat that does not pass the
    gate changes nothing. *)
Theorem group_chat_is_registered
        (self : exporter) (c : chat) (members : list member) :
  (exists chat_name,
      snd (process_group_chat self c true members)
      = Some ("#   Processing: " ++ chat_name)
      /\ let self' := fst (process_group_chat self c true members) in
         dict_get chat_name (chats_group self') = Some (chat_id c)
         /\ dict_get chat_name (group_full_member_lists self')
            = Some (snd (create_member_list_display
                           (map member_name
                              (List.filter (is_other (user_display_name self)) members))
                           MAX_MEMBERS_IN_CHAT_NAME))
         /\ user_display_name self' = user_display_name self
         /\ forall k, k <> chat_name ->
                      dict_get k (chats_group self') = dict_get k (chats_group self)
                      /\ dict_get k (group_full_member_lists self')
                         = dict_get k (group_full_member_lists self))
  /\ process_group_chat self c false members = (self, None).
Proof.
  split; [| reflexivity].
  unfold process_group_chat. cbn [negb].
  destruct (create_member_list_display _ MAX_MEMBERS_IN_CHAT_NAME)
    as [limited_names full_member_list].
  cbn zeta.
  eexists. split; [reflexivity |].
  cbn [fst snd chats_group group_full_member_lists user_display_name].
  split; [apply dict_get_set_eq |]. split; [apply dict_get_set_eq |].
  split; [reflexivity |].
  intros k Hk. split; now apply dict_get_set_ne.
Qed.

(** X19. Two group chats that get the same name collide: when both have
    no topic and the same members, registering the first and then the
    second leaves the exporter as if only the second had been
    registered. *)
Theorem group_chats_with_one_name_collide
        (self : exporter) (c1 c2 : chat) (members : list member) :
  default EmptyString (topic c1) = EmptyString ->
  default EmptyString (topic c2) = EmptyString ->
  fst (process_group_chat
         (fst (process_group_chat self c1 true members)) c2 true members)
  = fst (process_group_chat self c2 true members).
Proof.
  intros Ht1 Ht2. unfold process_group_chat. cbn [negb].
  destruct (create_member_list_display
              (map member_name
                 (List.filter (is_other (user_display_name self)) members))
              MAX_MEMBERS_IN_CHAT_NAME)
    as [limited_names full_member_list] eqn:Hdisplay.
  cbn zeta. cbn [fst user_display_name]. rewrite Hdisplay.
  rewrite Ht1, Ht2. cbn [fst chats_group group_full_member_lists user_display_name].
  now rewrite !dict_set_twice.
Qed.

(** X20. A one-on-one chat without topic is named after the first member
    who is not the exporting user: "Chat with" and the display name of
    that member ("Unknown" when the member has none, "None" when it is
    null), or "Chat with Unknown" when every member is the exporting user.
    A chat that does not pass the gate is not registered. *)
Theorem one_on_one_chat_is_named_after_the_other
        (user : string) (chats : list (string * string)) (c : chat)
        (mine rest : list contact) (other : contact) :
  default EmptyString (topic c) = EmptyString ->
  Forall (fun m => contact_name m = Some (Some user)) mine ->
  is_not_user user other = true ->
  process_one_on_one_chat user chats c true (mine ++ other :: rest)
  = (dict_set ("Chat with " ++ contact_display other) (chat_id c) chats,
     Some ("#   Processing: Chat with " ++ contact_display other))
  /\ process_one_on_one_chat user chats c true mine
     = (dict_set "Chat with Unknown" (chat_id c) chats,
        Some "#   Processing: Chat with Unknown")
  /\ process_one_on_one_chat user chats c false (mine ++ other :: rest)
     = (chats, None).
Proof.
  intros Ht Hmine Hother.
  assert (Hfind : forall tail,
             find (is_not_user user) (mine ++ tail) = find (is_not_user user) tail).
  { intros tail. induction Hmine as [| m mine Hm _ IH]; [reflexivity |].
    cbn [app find]. unfold is_not_user at 1. rewrite Hm, String.eqb_refl.
    exact IH. }
  unfold process_one_on_one_chat. cbn [negb]. rewrite Ht. cbn zeta.
  rewrite String.eqb_refl.
  split; [| split; [| reflexivity]].
  - rewrite Hfind. cbn [find]. now rewrite Hother.
  - rewrite <- (app_nil_r mine), Hfind. reflexivity.
Qed.

End ChatDictionaries.

Lemma sorted_chats_keeps_every_chat_witness :
  let d := [("bob", "19:b"); ("Alice", "19:a"); ("Zed", "19:z"); ("carol", "19:c")] in
  Permutation d (sorted_chats d)
  /\ StronglySorted name_le (sorted_chats d)
  /\ forall k, dict_get k (sorted_chats d) = dict_get k d.
Proof.
  apply (sorted_chats_keeps_every_chat
           [("bob", "19:b"); ("Alice", "19:a"); ("Zed", "19:z"); ("carol", "19:c")]).
  repeat constructor; cbn; intuition discriminate.
Defined.

(** The four chats come out as Alice, bob, carol, Zed. *)
Example sorted_chats_ignores_case :
  sorted_chats [("bob", "19:b"); ("Alice", "19:a"); ("Zed", "19:z"); ("carol", "19:c")]
  = [("Alice", "19:a"); ("bob", "19:b"); ("carol", "19:c"); ("Zed", "19:z")].
Proof. vm_compute. reflexivity. Qed.

Lemma group_chats_with_one_name_collide_witness :
  fst (process_group_chat
         (fst (process_group_chat (MkExporter "Me" [] []) (MkChat "19:first" None) true
                 [MkMember (Some "Me"); MkMember (Some "Bob")]))
         (MkChat "19:second" None) true
         [MkMember (Some "Me"); MkMember (Some "Bob")])
  = fst (process_group_chat (MkExporter "Me" [] []) (MkChat "19:second" None) true
           [MkMember (Some "Me"); MkMember (Some "Bob")]).
Proof.
  apply (group_chats_with_one_name_collide (MkExporter "Me" [] [])
           (MkChat "19:first" None) (MkChat "19:second" None)
           [MkMember (Some "Me"); MkMember (Some "Bob")]);
    reflexivity.
Defined.

Lemma one_on_one_chat_is_named_after_the_other_witness :
  process_one_on_one_chat "Me" [] (MkChat "19:a" None) true
    [MkContact (Some (Some "Me")); MkContact (Some (Some "Alice"))]
  = ([("Chat with Alice", "19:a")], Some "#   Processing: Chat with Alice").
Proof.
  apply (one_on_one_chat_is_named_after_the_other
           "Me" [] (MkChat "19:a" None)
           [MkContact (Some (Some "Me"))] []
           (MkContact (Some (Some "Alice")))).
  - reflexivity.
  - repeat constructor.
  - reflexivity.
Defined.

(** ** Messages that hold an image, and the gate *)

Section ImageMessages.

Import PyStr Re.

Lemma contains_char_cons (c a : ascii) (s : string) :
  contains (String c EmptyString) (String a s)
  = Ascii.eqb c a || contains (String c EmptyString) s.
Proof. cbn [contains startswith]. now rewrite andb_true_r. Qed.

(** A string that holds a character other than white space is not blank. *)
Lemma strip_not_blank (c : ascii) (s : string) :
  is_space c = false ->
  contains (String c EmptyString) s = true ->
  strip s <> EmptyString.
Proof.
  intros Hc. unfold strip. induction s as [| a s IH]; [discriminate |].
  rewrite contains_char_cons. cbn [lstrip].
  destruct (is_space a) eqn:Ha.
  - destruct (Ascii.eqb_spec c a) as [-> | _]; [congruence |].
    cbn [orb]. exact IH.
  - intros _. cbn [rstrip]. rewrite Ha. now destruct (rstrip s).
Qed.

Lemma findall_needs_head (c : ascii) (p : regex) (s : string) :
  findall (One (Chr c) :: p) s <> [] ->
  contains (String c EmptyString) s = true.
Proof.
  intros Hfound. destruct (contains (String c EmptyString) s) eqn:Hc;
    [reflexivity |].
  now rewrite findall_absent_head in Hfound.
Qed.

(** X21. A user message of a known author whose body holds an image
    reference is kept, with or without text, unless the body also holds
    the marker of a system event and is at most 50 characters long. *)
Theorem message_with_image_is_kept (msg sender body : json) (raw : string) :
  Py.get msg "messageType" = Ok (JStr "message") ->
  sender_of msg = Ok sender ->
  Py.eq_str sender "Unknown" = false ->
  Py.get_or msg "body" (JDict []) = Ok body ->
  Py.get body "content" = Ok (JStr raw) ->
  img_matches raw <> [] ->
  contains SYSTEM_EVENT raw && (String.length (strip raw) <=? 50)%nat = false ->
  validate_message_content msg = Ok true.
Proof.
  intros Htype Hfrom Hsender Hbody Hcontent Himg Hevent.
  assert (Hlt : contains "<" raw = true)
    by (apply (findall_needs_head "<"%char) in Himg; exact Himg).
  assert (Hblank : strip raw <> EmptyString)
    by (apply (strip_not_blank "<"%char); [reflexivity | exact Hlt]).
  assert (Hraw : raw <> EmptyString) by (intros ->; discriminate).
  unfold validate_message_content.
  rewrite Htype. cbn [rbind Py.eq_str String.eqb Ascii.eqb Bool.eqb negb].
  rewrite Hfrom. cbn [rbind]. rewrite Hsender, Hbody. cbn [rbind].
  rewrite Hcontent. cbn [rbind Py.truthy].
  rewrite (proj2 (String.eqb_neq raw EmptyString) Hraw). cbn [negb Py.truthy].
  rewrite (proj2 (String.eqb_neq raw EmptyString) Hraw). cbn [negb Py.strip rbind].
  rewrite (proj2 (String.eqb_neq (strip raw) EmptyString) Hblank).
  unfold has_text_or_images. rewrite Hevent.
  destruct (img_matches raw); [congruence |]. now rewrite orb_true_r.
Qed.

Variable net : http.

(** X22. Whatever the answer of the gate, it has sent exactly one
    request, for the first ten messages of the chat, and it has touched
    no file; what was printed before is still there. *)
Theorem gate_sends_one_request (chat_id : string) (w : world) :
  let w' := snd (chat_has_messages net chat_id w) in
  requests w'
  = (requests w
     ++ [JStr ("https://graph.microsoft.com/v1.0/chats/" ++ chat_id
               ++ "/messages?$top=10")])%list
  /\ files w' = files w
  /\ exists lines, stdout w' = (stdout w ++ lines)%list.
Proof.
  unfold chat_has_messages. cbn zeta.
  destruct (net _) as [r | e]; [| cbn; eauto].
  destruct (status_code r =? 200)%Z;
    [| cbn; repeat split; exists []; now rewrite app_nil_r].
  destruct (json_body r) as [e | data]; [cbn; eauto |].
  destruct (do value <- Py.get_or data "value" (JList []);
            do messages <- Py.iterate value;
            any_user_message messages) as [found | e]; [| cbn; eauto].
  cbn. repeat split. exists []. now rewrite app_nil_r.
Qed.

End ImageMessages.

Lemma message_with_image_is_kept_witness :
  validate_message_content image_only = Ok true.
Proof.
  apply (message_with_image_is_kept image_only (JStr "Alice")
           (JDict [("content",
                    JStr (PyStr.sq "<img src='https://graph.microsoft.com/a/$value' width='200'>"))])
           (PyStr.sq "<img src='https://graph.microsoft.com/a/$value' width='200'>"));
    try reflexivity.
  vm_compute. discriminate.
Defined.

(** ** The lightbox anchor *)

Section Lightbox.

Import PyStr Re.

Lemma append_nil_l (s : string) : EmptyString ++ s = s.
Proof. reflexivity. Qed.

(** A greedy repetition over a run of characters of the class takes the
    whole run when what follows then matches. *)
Lemma star_takes_run (k : cclass) (next : cont) (run rest : string) :
  forall (got : string) (r : outcome),
    all_in k run = true ->
    star k next rest (MkCapture true (got ++ run)) = Some r ->
    star k next (run ++ rest) (MkCapture true got) = Some r.
Proof.
  induction run as [| a run IH]; intros got r Hrun Hnext.
  - rewrite append_nil_l. now rewrite append_empty_r in Hnext.
  - cbn [all_in] in Hrun. apply andb_true_iff in Hrun as [Ha Hrun].
    rewrite append_cons. cbn [star]. rewrite Ha.
    unfold push. cbn [open text].
    rewrite (IH (got ++ String a EmptyString) r Hrun); [reflexivity |].
    now rewrite append_assoc.
Qed.

Lemma no_quote_all_in (url : string) :
  contains dq url = false -> all_in (NotIn [DQ]) url = true.
Proof.
  induction url as [| a url IH]; [reflexivity |].
  unfold dq. rewrite contains_char_cons. intros [Ha Hurl]%orb_false_elim.
  cbn [all_in cmatch existsb]. rewrite orb_false_r, IH by exact Hurl.
  rewrite Ascii.eqb_sym, Ha. reflexivity.
Qed.

(** The pattern of [wrap_images_with_lightbox] on a bare image element. *)
Lemma clean_img_matches (url post : string) :
  url <> EmptyString ->
  contains dq url = false ->
  match_at CLEAN_IMG (img_element url ++ post)
  = Some (MkCapture false url, post).
Proof.
  intros Hne Hquote. destruct url as [| a url]; [congruence |].
  pose proof (no_quote_all_in _ Hquote) as Hall.
  cbn [all_in] in Hall. apply andb_true_iff in Hall as [Ha Hall].
  unfold img_element, dq.
  rewrite ?append_assoc, ?append_cons, ?append_nil_l.
  unfold match_at, CLEAN_IMG. cbn [lit app exec one cmatch].
  rewrite !Ascii.eqb_refl. cbn [push no_capture open].
  cbn [cmatch] in Ha. rewrite Ha. cbn [text]. rewrite append_nil_l.
  apply (star_takes_run (NotIn [DQ]) _ url _ (String a EmptyString)); [exact Hall |].
  cbn [star cmatch existsb]. rewrite Ascii.eqb_refl. cbn [orb negb one cmatch].
  rewrite Ascii.eqb_refl. cbn [push open star cmatch].
  change (is_space ">"%char) with false. cbv iota.
  unfold opt, one. cbn [cmatch].
  change (Ascii.eqb "/"%char ">"%char) with false. cbv iota.
  rewrite Ascii.eqb_refl. cbn [push open text].
  now rewrite append_cons, append_nil_l.
Qed.

Lemma sub_from_skip (p : regex) (t : list piece) (gone rest : string) :
  sub_from p t (gone ++ rest) (String.length gone) = sub_from p t rest 0.
Proof.
  induction gone as [| a gone IH]; [reflexivity |].
  rewrite append_cons. cbn [sub_from String.length]. exact IH.
Qed.

Lemma sub_copies_prefix (c : ascii) (p : regex) (t : list piece) (pre rest : string) :
  contains (String c EmptyString) pre = false ->
  sub (One (Chr c) :: p) t (pre ++ rest) = pre ++ sub (One (Chr c) :: p) t rest.
Proof.
  unfold sub. induction pre as [| a pre IH]; intros Hpre; [reflexivity |].
  rewrite contains_char_cons in Hpre. apply orb_false_elim in Hpre as [Ha Hpre].
  rewrite !append_cons. cbn [sub_from match_at exec one cmatch]. rewrite Ha.
  now rewrite IH.
Qed.

Lemma wrap_copies_prefix (pre rest : string) :
  contains "<" pre = false ->
  wrap_images_with_lightbox (pre ++ rest)
  = pre ++ wrap_images_with_lightbox rest.
Proof.
  intros Hpre.
  exact (sub_copies_prefix "<"%char (tl CLEAN_IMG) _ pre rest Hpre).
Qed.

Lemma wrap_element_first (url post : string) :
  url <> EmptyString ->
  contains dq url = false ->
  wrap_images_with_lightbox (img_element url ++ post)
  = lightbox_anchor url ++ wrap_images_with_lightbox post.
Proof.
  intros Hne Hquote.
  pose proof (clean_img_matches url post Hne Hquote) as Hmatch.
  assert (Hshape : exists b tail, img_element url = String b tail)
    by (unfold img_element; rewrite append_cons; eauto).
  destruct Hshape as (b & tail & Hshape).
  unfold wrap_images_with_lightbox, sub.
  rewrite Hshape in Hmatch |- *. rewrite append_cons in Hmatch.
  change (String b tail ++ post) with (String b (tail ++ post)).
  cbn [sub_from]. rewrite Hmatch. unfold consumed. cbn [snd fst text].
  cbn [String.length]. rewrite length_append.
  replace (S (String.length tail + String.length post) - String.length post)%nat
    with (S (String.length tail)) by lia.
  rewrite sub_from_skip. cbn [expand].
  unfold lightbox_anchor, anchor_open, img_element, dq.
  rewrite !append_assoc.
  repeat (progress rewrite ?append_cons, ?append_nil_l).
  reflexivity.
Qed.

(** X23. [wrap_images_with_lightbox] puts the anchor around a bare image
    element whatever the address (not empty, without a double quote), and
    it does so again for an element that is already inside its anchor:
    wrapping twice nests two anchors. *)
Theorem lightbox_wraps_and_wraps_again (url : string) :
  url <> EmptyString ->
  contains dq url = false ->
  contains "<" url = false ->
  wrap_images_with_lightbox (img_element url) = lightbox_anchor url
  /\ wrap_images_with_lightbox (lightbox_anchor url)
     = anchor_open url ++ lightbox_anchor url ++ "</a>".
Proof.
  intros Hne Hquote Hlt.
  assert (Hcat : forall s t, contains "<" s = false -> contains "<" t = false ->
                             contains "<" (s ++ t) = false).
  { induction s as [| a s IH]; intros t Hs Ht; [exact Ht |].
    rewrite append_cons. rewrite contains_char_cons in *.
    apply orb_false_elim in Hs as [Ha Hs]. rewrite Ha. cbn [orb].
    now apply IH. }
  split.
  - rewrite <- (append_empty_r (img_element url)).
    rewrite wrap_element_first by assumption. now rewrite append_empty_r.
  - unfold lightbox_anchor at 1.
    assert (Hopen : exists inner, anchor_open url = String "<"%char inner
                                  /\ contains "<" inner = false).
    { unfold anchor_open. rewrite append_cons. eexists. split; [reflexivity |].
      repeat (apply Hcat; [try reflexivity; try assumption |]). reflexivity. }
    destruct Hopen as (inner & Hopen & Hinner).
    assert (Hfirst : forall rest,
               wrap_images_with_lightbox (anchor_open url ++ rest)
               = anchor_open url ++ wrap_images_with_lightbox rest).
    { intros rest. rewrite Hopen, append_cons.
      assert (Hinner_shape : exists tail, inner = String "a"%char tail).
      { unfold anchor_open in Hopen. rewrite !append_cons in Hopen.
        injection Hopen as <-. eauto. }
      destruct Hinner_shape as [tail Htail].
      unfold wrap_images_with_lightbox at 1, sub. cbn [sub_from].
      assert (Hfail : match_at CLEAN_IMG (String "<" (inner ++ rest)) = None)
        by (rewrite Htail, append_cons; reflexivity).
      rewrite Hfail.
      change (String "<"%char inner ++ wrap_images_with_lightbox rest)
        with (String "<"%char (inner ++ wrap_images_with_lightbox rest)).
      f_equal. exact (wrap_copies_prefix inner rest Hinner). }
    rewrite Hfirst, wrap_element_first by assumption.
    reflexivity.
Qed.

End Lightbox.

Lemma lightbox_wraps_and_wraps_again_witness :
  wrap_images_with_lightbox (img_element "img/m1_img0.jpg")
  = lightbox_anchor "img/m1_img0.jpg"
  /\ wrap_images_with_lightbox (lightbox_anchor "img/m1_img0.jpg")
     = anchor_open "img/m1_img0.jpg" ++ lightbox_anchor "img/m1_img0.jpg" ++ "</a>".
Proof.
  apply (lightbox_wraps_and_wraps_again "img/m1_img0.jpg");
    (discriminate || reflexivity).
Defined.

(** ** A bare image element through the normalizer *)

Section Backtracking.

Import PyStr Re.

(** A literal that the subject does not start with does not match. *)
Lemma exec_lit_fail (l : string) (p : regex) :
  forall (s : string) (g : capture),
    startswith l s = false -> exec (lit l ++ p)%list s g = None.
Proof.
  induction l as [| c l IH]; intros s g; cbn [startswith lit app exec];
    [discriminate |].
  destruct s as [| a s]; [reflexivity |].
  unfold one. cbn [cmatch]. destruct (Ascii.eqb c a); cbn [andb];
    [apply IH | reflexivity].
Qed.

(** A literal that the subject starts with is read, and the rest of the
    pattern goes on after it. *)
Lemma exec_lit_ok (l : string) (p : regex) :
  forall (s : string) (g : capture),
    open g = false -> exec (lit l ++ p)%list (l ++ s) g = exec p s g.
Proof.
  induction l as [| c l IH]; intros s g Hg; [reflexivity |].
  rewrite append_cons. cbn [lit app exec]. unfold one. cbn [cmatch].
  rewrite Ascii.eqb_refl. unfold push. rewrite Hg. now apply IH.
Qed.

(** A greedy repetition fails when what follows fails at every point of
    the run it can give back. *)
Lemma star_gives_up (k : cclass) (next : cont) (rest : string) (g : capture)
      (run : string) :
  open g = false ->
  (forall pre t, run = pre ++ t -> t <> EmptyString -> next (t ++ rest) g = None) ->
  star k next rest g = None ->
  star k next (run ++ rest) g = None.
Proof.
  intros Hg. induction run as [| a run IH]; intros Hfail Hrest; [exact Hrest |].
  rewrite append_cons. cbn [star].
  assert (Hhere : next (String a (run ++ rest)) g = None)
    by (apply (Hfail EmptyString (String a run)); [reflexivity | discriminate]).
  destruct (cmatch k a); [| exact Hhere].
  unfold push. rewrite Hg.
  rewrite IH; [exact Hhere | | exact Hrest].
  intros pre t Hrun Ht. apply (Hfail (String a pre) t); [| exact Ht].
  now rewrite Hrun.
Qed.

Lemma contains_append_r (p pre s : string) :
  contains p (pre ++ s) = false -> contains p s = false.
Proof.
  induction pre as [| a pre IH]; [easy |].
  rewrite append_cons. intros [_ H]%contains_cons. now apply IH.
Qed.

Lemma append_split (x y pre t : string) :
  x ++ y = pre ++ t ->
  (exists u, x = pre ++ u /\ t = u ++ y)
  \/ (exists q, pre = x ++ q /\ y = q ++ t).
Proof.
  revert pre. induction x as [| a x IH]; intros pre H.
  - right. exists pre. split; [reflexivity | exact H].
  - destruct pre as [| b pre].
    + left. exists (String a x). change (EmptyString ++ t) with t in H.
      split; [reflexivity | now rewrite H].
    + rewrite !append_cons in H. injection H as <- H.
      destruct (IH pre H) as [(u & -> & ->) | (q & -> & ->)].
      * left. now exists u.
      * right. now exists q.
Qed.

(** Inside a plain address, and at its closing quote, the attribute
    [src=] does not start again. *)
Lemma no_attribute_inside (u rest : string) :
  contains dq u = false ->
  contains "src=" u = false ->
  startswith SRC_ATTR (u ++ String DQ rest) = false.
Proof.
  intros Hquote Hsrc.
  assert (Hq : forall a s, contains dq (String a s) = false ->
                           Ascii.eqb DQ a = false /\ contains dq s = false).
  { intros a s H. unfold dq in *. rewrite contains_char_cons in H.
    now apply orb_false_elim in H. }
  assert (Hshape : SRC_ATTR
                   = String "s" (String "r" (String "c" (String "="
                       (String DQ EmptyString))))) by reflexivity.
  rewrite Hshape.
  destruct u as [| a1 u]; [reflexivity |].
  apply Hq in Hquote as [_ Hquote].
  destruct u as [| a2 u].
  { rewrite ?append_cons, ?append_nil_l. cbn [startswith].
    change (Ascii.eqb "r" DQ) with false. cbn [andb]. apply andb_false_r. }
  apply Hq in Hquote as [_ Hquote].
  destruct u as [| a3 u].
  { rewrite ?append_cons, ?append_nil_l. cbn [startswith].
    change (Ascii.eqb "c" DQ) with false. cbn [andb]. now rewrite !andb_false_r. }
  apply Hq in Hquote as [_ Hquote].
  destruct u as [| a4 u].
  { rewrite ?append_cons, ?append_nil_l. cbn [startswith].
    change (Ascii.eqb "=" DQ) with false. cbn [andb]. now rewrite !andb_false_r. }
  apply Hq in Hquote as [_ Hquote].
  apply contains_cons in Hsrc as [Hsrc _].
  destruct u as [| a5 u].
  - rewrite ?append_cons, ?append_nil_l. cbn [startswith] in Hsrc |- *.
    rewrite Ascii.eqb_refl. cbn [andb]. exact Hsrc.
  - apply Hq in Hquote as [Ha5 _].
    rewrite ?append_cons. cbn [startswith]. rewrite Ha5. cbn [andb].
    now rewrite !andb_false_r.
Qed.

End Backtracking.

Section ElementPatterns.

Import PyStr Re.

#[local] Abbreviation NG := (NotIn [">"%char]).

(** The group of the patterns reads the whole address. *)
Lemma group_reads_address (p : regex) (url rest : string) (g : capture) :
  url <> EmptyString ->
  contains dq url = false ->
  exec ([GOpen; Plus (NotIn [DQ]); GClose; One (Chr DQ)] ++ p)%list
       (url ++ dq ++ rest) g
  = exec p rest (MkCapture false url).
Proof.
  intros Hne Hquote. destruct url as [| a url]; [congruence |].
  pose proof (no_quote_all_in _ Hquote) as Hall.
  cbn [all_in] in Hall. apply andb_true_iff in Hall as [Ha Hall].
  rewrite append_cons. cbn [app exec]. unfold one at 1. rewrite Ha.
  unfold push. cbn [open text]. rewrite append_nil_l.
  destruct (exec p rest (MkCapture false (String a url))) as [r |] eqn:Hp.
  - apply (star_takes_run (NotIn [DQ]) _ url _ (String a EmptyString)); [exact Hall |].
    unfold dq. rewrite append_cons, append_nil_l.
    cbn [star cmatch existsb]. rewrite Ascii.eqb_refl. cbn [orb negb].
    unfold one. cbn [cmatch text]. rewrite Ascii.eqb_refl.
    unfold push. cbn [open]. now rewrite append_cons, append_nil_l.
  - assert (Hnone : forall run got,
               all_in (NotIn [DQ]) run = true ->
               exec p rest (MkCapture false (got ++ run)) = None ->
               star (NotIn [DQ])
                 (fun s g0 => one (Chr DQ) (exec p) s (MkCapture false (text g0)))
                 (run ++ dq ++ rest) (MkCapture true got) = None).
    { induction run as [| b run IH]; intros got Hrun Hfail.
      - rewrite append_nil_l. unfold dq. rewrite append_cons, append_nil_l.
        cbn [star cmatch existsb]. rewrite Ascii.eqb_refl. cbn [orb negb].
        unfold one. cbn [cmatch text]. rewrite Ascii.eqb_refl.
        unfold push. cbn [open]. now rewrite append_empty_r in Hfail.
      - cbn [all_in] in Hrun. apply andb_true_iff in Hrun as [Hb Hrun].
        rewrite append_cons. cbn [star]. rewrite Hb. unfold push at 1.
        cbn [open text].
        rewrite IH; [| exact Hrun | now rewrite append_assoc].
        unfold one. cbn [cmatch text].
        cbn [cmatch existsb] in Hb. rewrite orb_false_r in Hb.
        apply negb_true_iff in Hb. rewrite Ascii.eqb_sym, Hb. reflexivity. }
    apply Hnone; [exact Hall |]. now rewrite append_cons, append_nil_l.
Qed.

(** Between the end of [<img] and the closing bracket, the attribute
    starts at one place only. *)
Lemma attribute_starts_once (url post pre t : string) :
  contains dq url = false ->
  contains "src=" url = false ->
  "rc=" ++ dq ++ url ++ dq = pre ++ t ->
  startswith SRC_ATTR (t ++ ">" ++ post) = false.
Proof.
  intros Hquote Hsrc Hsplit.
  assert (Hshape : SRC_ATTR
                   = String "s" (String "r" (String "c" (String "="
                       (String DQ EmptyString))))) by reflexivity.
  unfold dq in Hsplit at 1. rewrite !append_cons, !append_nil_l in Hsplit.
  destruct pre as [| p1 pre];
    [rewrite append_nil_l in Hsplit; subst t; now rewrite Hshape |].
  rewrite append_cons in Hsplit. injection Hsplit as _ Hsplit.
  destruct pre as [| p2 pre];
    [rewrite append_nil_l in Hsplit; subst t; now rewrite Hshape |].
  rewrite append_cons in Hsplit. injection Hsplit as _ Hsplit.
  destruct pre as [| p3 pre];
    [rewrite append_nil_l in Hsplit; subst t; now rewrite Hshape |].
  rewrite append_cons in Hsplit. injection Hsplit as _ Hsplit.
  destruct pre as [| p4 pre];
    [rewrite append_nil_l in Hsplit; subst t; now rewrite Hshape |].
  rewrite append_cons in Hsplit. injection Hsplit as _ Hsplit.
  apply append_split in Hsplit as [(u & Hurl & ->) | (q & _ & Hq)].
  - rewrite Hurl in Hquote, Hsrc.
    apply contains_append_r in Hquote, Hsrc.
    unfold dq. rewrite append_assoc, append_cons, append_nil_l.
    now apply no_attribute_inside.
  - unfold dq in Hq. destruct q as [| b q].
    + rewrite append_nil_l in Hq. subst t. now rewrite Hshape.
    + rewrite append_cons in Hq. injection Hq as _ Hq.
      destruct q; [| discriminate]. rewrite append_nil_l in Hq. subst t.
      now rewrite Hshape.
Qed.

(** The repetition before the attribute gives back everything but the
    space: the attribute is found right after it. *)
Lemma star_finds_attribute (tailp : regex) (url post : string) (r : outcome) :
  contains dq url = false ->
  contains "src=" url = false ->
  exec tailp (url ++ dq ++ ">" ++ post) no_capture = Some r ->
  star NG (exec (lit SRC_ATTR ++ tailp)%list)
       (SRC_ATTR ++ url ++ dq ++ ">" ++ post) no_capture
  = Some r.
Proof.
  intros Hquote Hsrc Htail.
  assert (Hhere : exec (lit SRC_ATTR ++ tailp)%list
                       (SRC_ATTR ++ url ++ dq ++ ">" ++ post) no_capture = Some r)
    by (rewrite exec_lit_ok by reflexivity; exact Htail).
  assert (Hshape : SRC_ATTR ++ url ++ dq ++ ">" ++ post
                   = String "s" (("rc=" ++ dq ++ url ++ dq) ++ ">" ++ post)).
  { unfold SRC_ATTR, dq. rewrite !append_assoc.
    repeat (progress rewrite ?append_cons, ?append_nil_l). reflexivity. }
  rewrite Hshape in Hhere |- *. cbn [star].
  change (cmatch NG "s"%char) with true. cbv iota.
  change (push no_capture "s"%char) with no_capture.
  rewrite star_gives_up; [exact Hhere | reflexivity | |].
  - intros pre t Hrun _. apply exec_lit_fail.
    now apply (attribute_starts_once url post pre t).
  - rewrite append_cons, append_nil_l. cbn [star].
    change (cmatch NG ">"%char) with false. cbv iota.
    now apply exec_lit_fail.
Qed.

Lemma element_shape (url post : string) :
  img_element url ++ post
  = "<img" ++ String " "%char (SRC_ATTR ++ url ++ dq ++ ">" ++ post).
Proof.
  unfold img_element, SRC_ATTR, dq. rewrite !append_assoc.
  repeat (progress rewrite ?append_cons, ?append_nil_l). reflexivity.
Qed.

Lemma img_tag_matches (url post : string) :
  url <> EmptyString ->
  contains dq url = false ->
  contains "src=" url = false ->
  match_at IMG_TAG (img_element url ++ post)
  = Some (MkCapture false url, post).
Proof.
  intros Hne Hquote Hsrc. rewrite element_shape. unfold match_at.
  change IMG_TAG
    with (lit "<img"
          ++ Star NG
             :: (lit SRC_ATTR
                 ++ ([GOpen; Plus (NotIn [DQ]); GClose; One (Chr DQ)]
                     ++ [Star NG; One (Chr ">"%char)])))%list.
  rewrite exec_lit_ok by reflexivity. cbn [exec star].
  change (cmatch NG " "%char) with true. cbv iota.
  change (push no_capture " "%char) with no_capture.
  rewrite (star_finds_attribute _ url post (MkCapture false url, post));
    [reflexivity | assumption | assumption |].
  rewrite group_reads_address by assumption.
  rewrite append_cons, append_nil_l. cbn [exec star].
  change (cmatch NG ">"%char) with false. cbv iota.
  unfold one. cbn [cmatch]. now rewrite Ascii.eqb_refl.
Qed.

Lemma img_src_matches (url post : string) :
  url <> EmptyString ->
  contains dq url = false ->
  contains "src=" url = false ->
  match_at IMG_SRC (img_element url ++ post)
  = Some (MkCapture false url, ">" ++ post).
Proof.
  intros Hne Hquote Hsrc. rewrite element_shape. unfold match_at.
  change IMG_SRC
    with (lit "<img"
          ++ Plus NG
             :: (lit SRC_ATTR
                 ++ ([GOpen; Plus (NotIn [DQ]); GClose; One (Chr DQ)] ++ [])))%list.
  rewrite exec_lit_ok by reflexivity. cbn [exec]. unfold one at 1.
  change (cmatch NG " "%char) with true. cbv iota.
  change (push no_capture " "%char) with no_capture.
  apply star_finds_attribute; [assumption | assumption |].
  now rewrite group_reads_address by assumption.
Qed.

End ElementPatterns.

Section ElementNormalized.

Import PyStr Re.

Lemma findall_from_skip (p : regex) (gone rest : string) :
  findall_from p (gone ++ rest) (String.length gone) = findall_from p rest 0.
Proof.
  induction gone as [| a gone IH]; [reflexivity |].
  rewrite append_cons. cbn [findall_from String.length]. exact IH.
Qed.

Lemma replace_from_skip (old new gone rest : string) :
  replace_from old new (gone ++ rest) (String.length gone)
  = replace_from old new rest 0.
Proof.
  induction gone as [| a gone IH]; [reflexivity |].
  rewrite append_cons. cbn [replace_from String.length]. exact IH.
Qed.

(** Where the pattern matches a piece that is not empty, [re.sub] writes
    the template and goes on after the piece. *)
Lemma sub_at_match (p : regex) (t : list piece) (s post cap : string) :
  s <> EmptyString ->
  match_at p (s ++ post) = Some (MkCapture false cap, post) ->
  sub p t (s ++ post) = expand t cap ++ sub p t post.
Proof.
  intros Hne Hmatch. destruct s as [| a s]; [congruence |].
  unfold sub. rewrite append_cons in Hmatch |- *. cbn [sub_from].
  rewrite Hmatch. unfold consumed. cbn [snd fst text String.length].
  rewrite length_append.
  replace (S (String.length s + String.length post) - String.length post)%nat
    with (S (String.length s)) by lia.
  now rewrite sub_from_skip.
Qed.

Lemma findall_at_match (p : regex) (s rest cap : string) :
  s <> EmptyString ->
  match_at p (s ++ rest) = Some (MkCapture false cap, rest) ->
  findall p (s ++ rest) = cap :: findall p rest.
Proof.
  intros Hne Hmatch. destruct s as [| a s]; [congruence |].
  unfold findall. rewrite append_cons in Hmatch |- *. cbn [findall_from].
  rewrite Hmatch. unfold consumed. cbn [snd fst text String.length].
  rewrite length_append.
  replace (Nat.pred (S (String.length s + String.length rest) - String.length rest))%nat
    with (String.length s) by lia.
  now rewrite findall_from_skip.
Qed.

End ElementNormalized.

Section ElementThroughNormalizer.

Import PyStr Re.

Lemma img_element_not_empty (url : string) : img_element url <> EmptyString.
Proof. unfold img_element. now rewrite append_cons. Qed.

Lemma contains_char_append (c : ascii) (s t : string) :
  contains (String c EmptyString) s = false ->
  contains (String c EmptyString) t = false ->
  contains (String c EmptyString) (s ++ t) = false.
Proof.
  induction s as [| a s IH]; intros Hs Ht; [exact Ht |].
  rewrite append_cons. rewrite contains_char_cons in *.
  apply orb_false_elim in Hs as [Ha Hs]. rewrite Ha. cbn [orb]. now apply IH.
Qed.

(** [clean_img_tags] leaves a bare element as it is. *)
Lemma clean_element (url post : string) :
  url <> EmptyString ->
  contains dq url = false ->
  contains "src=" url = false ->
  clean_img_tags (img_element url ++ post)
  = img_element url ++ clean_img_tags post.
Proof.
  intros Hne Hquote Hsrc. unfold clean_img_tags.
  rewrite (sub_at_match _ _ _ _ url (img_element_not_empty url))
    by now apply img_tag_matches.
  cbn [expand]. unfold img_element.
  now rewrite !append_assoc, append_nil_l.
Qed.

(** [img_matches] finds the address of a bare element. *)
Lemma matches_element (url post : string) :
  url <> EmptyString ->
  contains dq url = false ->
  contains "src=" url = false ->
  img_matches (img_element url ++ post) = url :: img_matches post.
Proof.
  intros Hne Hquote Hsrc. unfold img_matches.
  pose proof (img_src_matches url post Hne Hquote Hsrc) as Hmatch.
  assert (Hshape : img_element url ++ post
                   = ("<img src=" ++ dq ++ url ++ dq) ++ ">" ++ post)
    by (unfold img_element; now rewrite !append_assoc).
  rewrite Hshape in Hmatch |- *.
  rewrite (findall_at_match _ _ _ url) by (exact Hmatch || now rewrite append_cons).
  reflexivity.
Qed.

Lemma sub_copies_one (p : regex) (t : list piece) (a : ascii) (s : string) :
  match_at p (String a s) = None ->
  sub p t (String a s) = String a (sub p t s).
Proof. intros Hfail. unfold sub. cbn [sub_from]. now rewrite Hfail. Qed.

(** The emoji pattern does not touch an image element followed by
    text without markup. *)
Lemma emoji_element (url post : string) :
  contains "<" url = false ->
  contains "<" post = false ->
  replace_emoji_tags (img_element url ++ post) = img_element url ++ post.
Proof.
  intros Hlt Hpost.
  assert (Hshape : exists tail,
             img_element url ++ post = String "<" (String "i" tail)
             /\ contains "<" (String "i" tail) = false).
  { exists ("mg src=" ++ dq ++ url ++ dq ++ ">" ++ post). split.
    - unfold img_element. now rewrite !append_assoc.
    - rewrite contains_char_cons.
      change (Ascii.eqb "<" "i") with false. cbn [orb].
      repeat (apply (contains_char_append "<"%char);
              [try reflexivity; try assumption |]).
      exact Hpost. }
  destruct Hshape as (tail & -> & Htail).
  unfold replace_emoji_tags. rewrite sub_copies_one by reflexivity.
  f_equal. now apply (sub_absent_head "<"%char (tl EMOJI_TAG)).
Qed.

Lemma element_without_ampersand (url : string) :
  contains "&" url = false -> contains "&" (img_element url) = false.
Proof.
  intros Hamp. unfold img_element.
  repeat (apply (contains_char_append "&"%char);
          [try reflexivity; try assumption |]).
  reflexivity.
Qed.

(** [str.replace] copies a prefix that lacks the first character of the
    old text, and writes the new text where the old one stands. *)
Lemma replace_copies_prefix (b : ascii) (old' new pre rest : string) :
  contains (String b EmptyString) pre = false ->
  replace_from (String b old') new (pre ++ rest) 0
  = pre ++ replace_from (String b old') new rest 0.
Proof.
  induction pre as [| a pre IH]; intros Hpre; [reflexivity |].
  rewrite contains_char_cons in Hpre.
  apply orb_false_elim in Hpre as [Ha Hpre].
  rewrite !append_cons. cbn [replace_from startswith]. rewrite Ha.
  cbn [andb]. now rewrite IH.
Qed.

Lemma replace_at_occurrence (b : ascii) (old' new rest : string) :
  replace_from (String b old') new (String b old' ++ rest) 0
  = new ++ replace_from (String b old') new rest 0.
Proof.
  pose proof (startswith_append (String b old') rest) as Hstart.
  rewrite append_cons in Hstart |- *.
  cbn [replace_from]. rewrite Hstart. now rewrite replace_from_skip.
Qed.

End ElementThroughNormalizer.

(** ** One image inside text without markup, through the whole normalizer *)

Section ReplaceInText.

Import PyStr.

Lemma startswith_before_absent (c : ascii) (old pre rest : string) :
  contains (String c EmptyString) old = false ->
  old <> EmptyString ->
  startswith old (pre ++ String c rest) = startswith old pre.
Proof.
  intros Hc Hne. destruct old as [| b old]; [congruence |]. clear Hne.
  revert b pre Hc. induction old as [| b' old IH]; intros b pre Hc.
  - rewrite contains_char_cons in Hc. apply orb_false_elim in Hc as [Hb _].
    destruct pre as [| a pre].
    + rewrite append_nil_l. cbn [startswith].
      rewrite Ascii.eqb_sym, Hb. reflexivity.
    + rewrite append_cons. reflexivity.
  - rewrite contains_char_cons in Hc. apply orb_false_elim in Hc as [Hb Hc].
    destruct pre as [| a pre].
    + rewrite append_nil_l. cbn [startswith].
      rewrite Ascii.eqb_sym, Hb. reflexivity.
    + rewrite append_cons.
      change (startswith (String b (String b' old)) (String a (pre ++ String c rest)))
        with (Ascii.eqb b a && startswith (String b' old) (pre ++ String c rest)).
      now rewrite IH.
Qed.

Lemma startswith_length (p s : string) :
  startswith p s = true -> (String.length p <= String.length s)%nat.
Proof.
  revert s. induction p as [| a p IH]; intros s; cbn [startswith String.length].
  - lia.
  - destruct s as [| b s]; [discriminate |].
    intros [_ Hp]%andb_true_iff. cbn [String.length].
    specialize (IH s Hp). lia.
Qed.

(** [str.replace] works on the two sides of a character that the old
    text does not hold one after the other. *)
Lemma replace_splits_at (c b : ascii) (old' new pre rest : string) (skip : nat) :
  contains (String c EmptyString) (String b old') = false ->
  (skip <= String.length pre)%nat ->
  replace_from (String b old') new (pre ++ String c rest) skip
  = replace_from (String b old') new pre skip
    ++ String c (replace_from (String b old') new rest 0).
Proof.
  intros Hc. revert skip.
  induction pre as [| a pre IH]; intros skip Hskip; cbn [String.length] in Hskip.
  - assert (skip = 0%nat) as -> by lia. rewrite append_nil_l.
    pose proof (startswith_before_absent c (String b old') EmptyString rest Hc)
      as Hstart.
    rewrite append_nil_l in Hstart.
    cbn [replace_from]. rewrite Hstart by discriminate. reflexivity.
  - destruct skip as [| n].
    + pose proof (startswith_before_absent c (String b old') (String a pre) rest Hc)
        as Hstart.
      rewrite append_cons in Hstart |- *.
      cbn [replace_from]. rewrite Hstart by discriminate.
      destruct (startswith (String b old') (String a pre)) eqn:Hs.
      * apply startswith_length in Hs. cbn [String.length] in Hs.
        rewrite IH by lia. now rewrite append_assoc.
      * rewrite IH by lia. reflexivity.
    + rewrite append_cons. cbn [replace_from]. apply IH. lia.
Qed.

(** A character that neither the text nor the new text holds is not in
    the result. *)
Lemma replace_keeps_absent (c : ascii) (old new s : string) (skip : nat) :
  contains (String c EmptyString) new = false ->
  contains (String c EmptyString) s = false ->
  contains (String c EmptyString) (replace_from old new s skip) = false.
Proof.
  intros Hnew. revert skip.
  induction s as [| a s IH]; intros skip Hs.
  - cbn [replace_from]. destruct old; [exact Hnew | reflexivity].
  - rewrite contains_char_cons in Hs. apply orb_false_elim in Hs as [Ha Hs].
    destruct skip as [| n]; cbn [replace_from]; [| now apply IH].
    destruct old as [| b old'].
    + apply contains_char_append; [exact Hnew |].
      rewrite contains_char_cons, Ha. cbn [orb]. now apply IH.
    + destruct (startswith (String b old') (String a s)).
      * apply contains_char_append; [exact Hnew | now apply IH].
      * rewrite contains_char_cons, Ha. cbn [orb]. now apply IH.
Qed.

(** Replacing a hosted address in a body with one image. *)
Lemma replace_body (url new pre post : string) :
  startswith GRAPH_HOST url = true ->
  contains "<" url = false ->
  replace url new (pre ++ img_element url ++ post)
  = replace url new pre ++ img_element new ++ replace url new post.
Proof.
  intros Hhost Hlt.
  destruct (startswith_split _ _ Hhost) as [q Hq].
  assert (Hh : exists old', url = String "h" old')
    by (rewrite Hq; unfold GRAPH_HOST; rewrite append_cons; eauto).
  destruct Hh as [old' ->]. clear Hhost Hq.
  assert (Hbody : pre ++ img_element (String "h" old') ++ post
                  = pre ++ String "<" (("img src=" ++ dq) ++ String "h" old'
                                       ++ (dq ++ ">") ++ post))
    by (unfold img_element; now rewrite !append_assoc).
  unfold replace. rewrite Hbody.
  rewrite (replace_splits_at "<"%char) by (assumption || lia).
  rewrite (replace_copies_prefix "h"%char old' new ("img src=" ++ dq))
    by reflexivity.
  rewrite replace_at_occurrence.
  rewrite (replace_copies_prefix "h"%char old' new (dq ++ ">")) by reflexivity.
  f_equal. unfold img_element. now rewrite !append_assoc.
Qed.

End ReplaceInText.

Section ImageInText.

Import PyStr Re.

Variable charref_sub : string -> string.
Variable net : http.
Variable open_error : string -> option string.
Variable cwd : string.

Lemma findall_copies_prefix (c : ascii) (p : regex) (pre rest : string) :
  contains (String c EmptyString) pre = false ->
  findall (One (Chr c) :: p) (pre ++ rest) = findall (One (Chr c) :: p) rest.
Proof.
  unfold findall. induction pre as [| a pre IH]; intros Hpre; [reflexivity |].
  rewrite contains_char_cons in Hpre. apply orb_false_elim in Hpre as [Ha Hpre].
  rewrite append_cons. cbn [findall_from match_at exec one cmatch]. rewrite Ha.
  now apply IH.
Qed.

Lemma body_without_ampersand (pre url post : string) :
  contains "&" pre = false ->
  contains "&" url = false ->
  contains "&" post = false ->
  html_unescape charref_sub (pre ++ img_element url ++ post)
  = pre ++ img_element url ++ post.
Proof.
  intros Hpre Hurl Hpost. unfold html_unescape.
  assert (Hamp : contains "&" (pre ++ img_element url ++ post) = false).
  { apply (contains_char_append "&"%char); [exact Hpre |].
    apply (contains_char_append "&"%char); [| exact Hpost].
    now apply element_without_ampersand. }
  now rewrite Hamp.
Qed.

Lemma body_emoji (pre url post : string) :
  contains "<" pre = false ->
  contains "<" url = false ->
  contains "<" post = false ->
  replace_emoji_tags (pre ++ img_element url ++ post)
  = pre ++ img_element url ++ post.
Proof.
  intros Hpre Hurl Hpost.
  assert (Hcopy : replace_emoji_tags (pre ++ img_element url ++ post)
                  = pre ++ replace_emoji_tags (img_element url ++ post))
    by exact (sub_copies_prefix "<"%char (tl EMOJI_TAG) _ pre _ Hpre).
  now rewrite Hcopy, emoji_element.
Qed.

Lemma body_matches (pre url post : string) :
  plain_address url ->
  contains "<" pre = false ->
  contains "<" post = false ->
  img_matches (pre ++ img_element url ++ post) = [url].
Proof.
  intros (Hne & Hquote & _ & Hsrc) Hpre Hpost.
  assert (Hcopy : img_matches (pre ++ img_element url ++ post)
                  = img_matches (img_element url ++ post))
    by exact (findall_copies_prefix "<"%char (tl IMG_SRC) pre _ Hpre).
  rewrite Hcopy, matches_element by assumption. f_equal.
  exact (findall_absent_head "<"%char (tl IMG_SRC) post Hpost).
Qed.

Lemma body_clean (pre url post : string) :
  plain_address url ->
  contains "<" pre = false ->
  contains "<" post = false ->
  clean_img_tags (pre ++ img_element url ++ post)
  = pre ++ img_element url ++ post.
Proof.
  intros (Hne & Hquote & _ & Hsrc) Hpre Hpost.
  assert (Hcopy : clean_img_tags (pre ++ img_element url ++ post)
                  = pre ++ clean_img_tags (img_element url ++ post))
    by exact (sub_copies_prefix "<"%char (tl IMG_TAG) _ pre _ Hpre).
  rewrite Hcopy, clean_element by assumption. do 2 f_equal.
  exact (sub_absent_head "<"%char (tl IMG_TAG) _ post Hpost).
Qed.

Lemma body_wrap (pre url post : string) :
  plain_address url ->
  contains "<" pre = false ->
  contains "<" post = false ->
  wrap_images_with_lightbox (pre ++ img_element url ++ post)
  = pre ++ lightbox_anchor url ++ post.
Proof.
  intros (Hne & Hquote & _ & _) Hpre Hpost.
  rewrite wrap_copies_prefix, wrap_element_first by assumption. do 2 f_equal.
  exact (sub_absent_head "<"%char (tl CLEAN_IMG) _ post Hpost).
Qed.

(** What the normalizer returns once the loop over the image references
    has left one element, for the address [shown], between two texts. *)
Lemma body_after_loop
      (pre url post before shown after message_id access_token image_folder : string)
      (w w' : world) :
  no_markup pre -> no_markup post ->
  plain_address url -> contains "&" url = false ->
  plain_address shown ->
  contains "<" before = false -> contains "<" after = false ->
  resolve_images net open_error cwd [url] 0 access_token image_folder message_id
    (pre ++ img_element url ++ post) w
  = (before ++ img_element shown ++ after, w') ->
  process_message_content charref_sub net open_error cwd
    (pre ++ img_element url ++ post) message_id access_token image_folder w
  = (before ++ lightbox_anchor shown ++ after, w').
Proof.
  intros [Hpre Hpre'] [Hpost Hpost'] Hurl Hamp Hshown Hbefore Hafter Hloop.
  assert (Hurl' := Hurl). destruct Hurl' as (_ & _ & Hlt & _).
  unfold process_message_content.
  rewrite body_without_ampersand, body_emoji, body_matches by assumption.
  rewrite Hloop.
  now rewrite body_clean, body_wrap.
Qed.

(** The same when the download gave a local path. *)
Lemma body_after_download
      (pre url post path message_id access_token image_folder : string)
      (w w' : world) :
  no_markup pre -> no_markup post ->
  plain_address url -> contains "&" url = false ->
  startswith GRAPH_HOST url = true ->
  plain_address path ->
  download_image_from_src net open_error cwd url access_token image_folder message_id 0 w
  = (Some path, w') ->
  process_message_content charref_sub net open_error cwd
    (pre ++ img_element url ++ post) message_id access_token image_folder w
  = (replace url path pre ++ lightbox_anchor path ++ replace url path post, w').
Proof.
  intros Hpre Hpost Hurl Hamp Hhost Hpath Hload.
  assert (Hurl' := Hurl). destruct Hurl' as (_ & _ & Hlt & _).
  assert (Hpath' := Hpath). destruct Hpath' as (_ & _ & Hplt & _).
  apply body_after_loop; try assumption.
  - apply replace_keeps_absent; [exact Hplt | apply Hpre].
  - apply replace_keeps_absent; [exact Hplt | apply Hpost].
  - cbn [resolve_images]. rewrite Hhost, Hload.
    now rewrite replace_body.
Qed.

(** X24. A body made of text without markup around one bare image
    element whose address is not on the platform comes back with the
    element inside a lightbox anchor for the same address and the text as
    it was; nothing is requested, written or printed. *)
Theorem external_image_in_text
        (pre url post message_id access_token image_folder : string) (w : world) :
  no_markup pre -> no_markup post ->
  plain_address url -> contains "&" url = false ->
  startswith GRAPH_HOST url = false ->
  process_message_content charref_sub net open_error cwd
    (pre ++ img_element url ++ post) message_id access_token image_folder w
  = (pre ++ lightbox_anchor url ++ post, w).
Proof.
  intros Hpre Hpost Hurl Hamp Hext.
  apply body_after_loop; try assumption; try apply Hpre; try apply Hpost.
  cbn [resolve_images]. now rewrite Hext.
Qed.

(** X25. A body made of text without markup around one bare image
    element whose address is on the platform, when no file for the first
    image of the message exists, the request is answered with status 200
    and the file can be opened: the answer is written to the image path,
    and the body comes back with the address replaced throughout, in the
    element and in the text around it, by the path of that file relative
    to the working directory, and with the element inside a lightbox
    anchor for that relative path.  One request is sent, for the
    address. *)
Theorem hosted_image_in_text_is_saved
        (pre url post message_id access_token image_folder : string)
        (w : world) (r : response) :
  let path := image_path image_folder message_id 0 in
  let link := image_link cwd image_folder message_id 0 in
  no_markup pre -> no_markup post ->
  plain_address url -> contains "&" url = false ->
  startswith GRAPH_HOST url = true ->
  plain_address link ->
  path_exists path w = false ->
  net (JStr url) = inl r ->
  status_code r = 200%Z ->
  open_error path = None ->
  process_message_content charref_sub net open_error cwd
    (pre ++ img_element url ++ post) message_id access_token image_folder w
  = (replace url link pre ++ lightbox_anchor link ++ replace url link post,
     write_file path (content r) (send (JStr url) w)).
Proof.
  intros path link Hpre Hpost Hurl Hamp Hhost Hlink Hex Hnet Hst Hopen.
  apply body_after_download; try assumption.
  now apply download_saves.
Qed.

(** X26. The same body when the request for the image raises: the body
    keeps the address of the platform, the element is put inside a
    lightbox anchor for that address, and the only traces are the request
    sent and the error line printed. *)
Theorem failed_download_keeps_remote_address
        (pre url post message_id access_token image_folder e : string)
        (w : world) :
  no_markup pre -> no_markup post ->
  plain_address url -> contains "&" url = false ->
  startswith GRAPH_HOST url = true ->
  path_exists (image_path image_folder message_id 0) w = false ->
  net (JStr url) = inr e ->
  process_message_content charref_sub net open_error cwd
    (pre ++ img_element url ++ post) message_id access_token image_folder w
  = (pre ++ lightbox_anchor url ++ post,
     print (download_error url e) (send (JStr url) w)).
Proof.
  intros Hpre Hpost Hurl Hamp Hhost Hex Hnet.
  apply body_after_loop; try assumption; try apply Hpre; try apply Hpost.
  cbn [resolve_images]. rewrite Hhost.
  unfold download_image_from_src.
  fold (image_path image_folder message_id 0). now rewrite Hex, Hnet.
Qed.

(** X27. The same body when the file for the first image of the message
    exists already: the address is replaced by the path of that file
    relative to the working directory and the element wrapped as after a
    download, and the world is left as it was, without a request. *)
Theorem saved_image_is_reused
        (pre url post message_id access_token image_folder : string)
        (w : world) :
  let path := image_path image_folder message_id 0 in
  let link := image_link cwd image_folder message_id 0 in
  no_markup pre -> no_markup post ->
  plain_address url -> contains "&" url = false ->
  startswith GRAPH_HOST url = true ->
  plain_address link ->
  path_exists path w = true ->
  process_message_content charref_sub net open_error cwd
    (pre ++ img_element url ++ post) message_id access_token image_folder w
  = (replace url link pre ++ lightbox_anchor link ++ replace url link post, w).
Proof.
  intros path link Hpre Hpost Hurl Hamp Hhost Hlink Hex.
  apply body_after_download; try assumption.
  now apply download_exists.
Qed.

(** X28. The same body when the request is answered with status 200 and
    the file cannot be opened (its folder is missing, say): nothing is
    written, the error is printed, the body keeps the address of the
    platform inside a lightbox anchor, and since no file is there a
    second run over the same body sends the request again. *)
Theorem unwritable_image_is_requested_again
        (pre url post message_id access_token image_folder e : string)
        (w : world) (r : response) :
  let path := image_path image_folder message_id 0 in
  let failed := print (download_error url e) (send (JStr url) w) in
  no_markup pre -> no_markup post ->
  plain_address url -> contains "&" url = false ->
  startswith GRAPH_HOST url = true ->
  path_exists path w = false ->
  net (JStr url) = inl r ->
  status_code r = 200%Z ->
  open_error path = Some e ->
  process_message_content charref_sub net open_error cwd
    (pre ++ img_element url ++ post) message_id access_token image_folder w
  = (pre ++ lightbox_anchor url ++ post, failed)
  /\ files failed = files w
  /\ process_message_content charref_sub net open_error cwd
       (pre ++ img_element url ++ post) message_id access_token image_folder
       failed
     = (pre ++ lightbox_anchor url ++ post,
        print (download_error url e) (send (JStr url) failed)).
Proof.
  intros path failed Hpre Hpost Hurl Hamp Hhost Hex Hnet Hst Hopen.
  assert (Hrun : forall w0,
             path_exists path w0 = false ->
             process_message_content charref_sub net open_error cwd
               (pre ++ img_element url ++ post) message_id access_token
               image_folder w0
             = (pre ++ lightbox_anchor url ++ post,
                print (download_error url e) (send (JStr url) w0))).
  { intros w0 Hex0.
    apply body_after_loop; try assumption; try apply Hpre; try apply Hpost.
    cbn [resolve_images]. rewrite Hhost.
    unfold download_image_from_src.
    fold (image_path image_folder message_id 0). fold path.
    now rewrite Hex0, Hnet, Hst, Hopen. }
  split; [now apply Hrun |]. split; [reflexivity |].
  now apply Hrun.
Qed.

End ImageInText.

Lemma external_image_in_text_witness :
  process_message_content no_table unreachable writable export_dir
    ("see " ++ img_element "http://example.com/a.png" ++ " now")
    "m1" "token" "img" empty_world
  = ("see " ++ lightbox_anchor "http://example.com/a.png" ++ " now", empty_world).
Proof.
  apply (external_image_in_text no_table unreachable writable export_dir);
    repeat split; (discriminate || reflexivity).
Defined.

Lemma hosted_image_in_text_is_saved_witness :
  process_message_content no_table image_server writable export_dir
    ("see " ++ img_element hosted_url ++ " now") "m1" "token" "./img" empty_world
  = (PyStr.replace hosted_url "img/m1_img0.jpg" "see "
     ++ lightbox_anchor "img/m1_img0.jpg"
     ++ PyStr.replace hosted_url "img/m1_img0.jpg" " now",
     write_file "./img/m1_img0.jpg" "JPEG" (send (JStr hosted_url) empty_world)).
Proof.
  apply (hosted_image_in_text_is_saved no_table image_server writable export_dir
           "see " hosted_url " now" "m1" "token" "./img" empty_world
           (MkResponse 200 "JPEG" (inl "not JSON")));
    repeat split; (discriminate || reflexivity).
Defined.

Lemma failed_download_keeps_remote_address_witness :
  process_message_content no_table unreachable writable export_dir
    ("see " ++ img_element hosted_url ++ " now") "m1" "token" "img" empty_world
  = ("see " ++ lightbox_anchor hosted_url ++ " now",
     print (download_error hosted_url "connection refused")
       (send (JStr hosted_url) empty_world)).
Proof.
  apply (failed_download_keeps_remote_address no_table unreachable writable export_dir);
    repeat split; (discriminate || reflexivity).
Defined.

Lemma saved_image_is_reused_witness :
  process_message_content no_table unreachable writable export_dir
    ("see " ++ img_element hosted_url ++ " now") "m1" "token" "./img"
    (write_file "./img/m1_img0.jpg" "JPEG" empty_world)
  = (PyStr.replace hosted_url "img/m1_img0.jpg" "see "
     ++ lightbox_anchor "img/m1_img0.jpg"
     ++ PyStr.replace hosted_url "img/m1_img0.jpg" " now",
     write_file "./img/m1_img0.jpg" "JPEG" empty_world).
Proof.
  apply (saved_image_is_reused no_table unreachable writable export_dir
           "see " hosted_url " now" "m1" "token" "./img"
           (write_file "./img/m1_img0.jpg" "JPEG" empty_world));
    repeat split; (discriminate || reflexivity).
Defined.

Lemma unwritable_image_is_requested_again_witness :
  let body := "see " ++ img_element hosted_url ++ " now" in
  let e := "[Errno 2] No such file or directory: 'gone/m1_img0.jpg'" in
  let failed := print (download_error hosted_url e)
                  (send (JStr hosted_url) empty_world) in
  process_message_content no_table image_server no_folder export_dir
    body "m1" "token" "gone" empty_world
  = ("see " ++ lightbox_anchor hosted_url ++ " now", failed)
  /\ files failed = files empty_world
  /\ process_message_content no_table image_server no_folder export_dir
       body "m1" "token" "gone" failed
     = ("see " ++ lightbox_anchor hosted_url ++ " now",
        print (download_error hosted_url e) (send (JStr hosted_url) failed)).
Proof.
  apply (unwritable_image_is_requested_again no_table image_server no_folder
           export_dir "see " hosted_url " now" "m1" "token" "gone"
           "[Errno 2] No such file or directory: 'gone/m1_img0.jpg'"
           empty_world (MkResponse 200 "JPEG" (inl "not JSON")));
    repeat split; (discriminate || reflexivity).
Defined.
